(** * Pyrra API server: query cache, transport adapter, status arithmetic,
      burn-rate evaluation, range planning and matrix transform

    A shallow embedding of [main.go].  Go's [float64] is Rocq's primitive
    binary64 [float]; [int32]/[int64]/[time.Duration] values are [Z];
    Go maps are stdpp [gmap]s; a run-time panic is an explicit outcome. *)

From Stdlib Require Import ZArith Floats Permutation Ascii String.
From stdpp Require Import base option list gmap strings sorting.

Set Warnings "-inexact-float".


(** ** Outcomes of Go code that may panic *)

Inductive exec (A : Type) : Type :=
  | Done (a : A)
  | Panic (msg : string).
Arguments Done {A} a.
Arguments Panic {A} msg.

Definition exec_bind {A B} (m : exec A) (k : A → exec B) : exec B :=
  match m with
  | Done a => k a
  | Panic msg => Panic msg
  end.

Notation "x ←! m ; k" := (exec_bind m (fun x => k))
  (at level 100, m at next level, right associativity).

Definition nil_dereference : string := "invalid memory address or nil pointer dereference".
Definition bad_assertion : string := "interface conversion".

(** ** package time *)

Module time.
Local Open Scope Z_scope.

(** [time.Duration] is an [int64] count of nanoseconds. *)
Abbreviation Duration := Z.
(** An instant, as nanoseconds since the Unix epoch. *)
Abbreviation Time := Z.

Definition Millisecond : Duration := 1000000.
Definition Second : Duration := 1000 * Millisecond.
Definition Minute : Duration := 60 * Second.
Definition Hour : Duration := 60 * Minute.

Definition maxDuration : Duration := 2 ^ 63 - 1.
Definition minDuration : Duration := - 2 ^ 63.

(** [time.Unix(sec, 0)] *)
Definition Unix (sec : Z) : Time := sec * Second.

(** [t.Add(d)] *)
Definition Add (t : Time) (d : Duration) : Time := t + d.

(** [t.Sub(u)]: the difference, saturated to the range of [Duration]. *)
Definition Sub (t u : Time) : Duration :=
  let d := t - u in
  if d <? minDuration then minDuration
  else if maxDuration <? d then maxDuration
  else d.

(** [d.Milliseconds()]: integer division truncating toward zero. *)
Definition Milliseconds (d : Duration) : Z := d ÷ 1000000.
End time.

(** ** Effective range and planning of the range endpoints *)

Record Range := mkRange {
  Start : time.Time;
  End_ : time.Time;
  Step : time.Duration;
}.

Record RangePlan := mkRangePlan {
  plan_range : Range;
  plan_timeRange : time.Duration;
}.

Section RangeEndpoints.
Local Open Scope Z_scope.

(** [GetObjectiveErrorBudget], lines 504-521: the range handed to
    [QueryRange]. *)
Definition GetObjectiveErrorBudget_range
    (now : time.Time) (startTimestamp endTimestamp : Z) : Range :=
  let start := time.Add now (-1 * time.Hour) in
  let end_ := now in
  let '(start, end_) :=
    if negb (startTimestamp =? 0) && negb (endTimestamp =? 0)
    then (time.Unix startTimestamp, time.Unix endTimestamp)
    else (start, end_) in
  let step := time.Sub end_ start ÷ 1000 in
  mkRange start end_ step.

(** [GetREDRequests], lines 746-774. *)
Definition GetREDRequests_plan
    (now : time.Time) (startTimestamp endTimestamp : Z) : RangePlan :=
  let start := time.Add now (-1 * time.Hour) in
  let end_ := now in
  let '(start, end_) :=
    if negb (startTimestamp =? 0) && negb (endTimestamp =? 0)
    then (time.Unix startTimestamp, time.Unix endTimestamp)
    else (start, end_) in
  let step := time.Sub end_ start ÷ 1000 in
  let diff := time.Sub end_ start in
  let timeRange :=
    if 28 * 24 * time.Hour <=? diff then 3 * time.Hour
    else if 7 * 24 * time.Hour <=? diff then time.Hour
    else if 24 * time.Hour <=? diff then 30 * time.Minute
    else if 12 * time.Hour <=? diff then 15 * time.Minute
    else 5 * time.Minute in
  mkRangePlan (mkRange start end_ step) timeRange.

(** [GetREDErrors], lines 846-875. *)
Definition GetREDErrors_plan
    (now : time.Time) (startTimestamp endTimestamp : Z) : RangePlan :=
  let start := time.Add now (-1 * time.Hour) in
  let end_ := now in
  let '(start, end_) :=
    if negb (startTimestamp =? 0) && negb (endTimestamp =? 0)
    then (time.Unix startTimestamp, time.Unix endTimestamp)
    else (start, end_) in
  let step := time.Sub end_ start ÷ 1000 in
  let diff := time.Sub end_ start in
  let timeRange :=
    if 28 * 24 * time.Hour <=? diff then 3 * time.Hour
    else if 7 * 24 * time.Hour <=? diff then time.Hour
    else if 24 * time.Hour <=? diff then 30 * time.Minute
    else if 12 * time.Hour <=? diff then 15 * time.Minute
    else 5 * time.Minute in
  mkRangePlan (mkRange start end_ step) timeRange.

(** The span of a range, as the planners compute it. *)
Definition span (r : Range) : time.Duration := time.Sub (End_ r) (Start r).

(** The thresholds of the planner as a relation between a span and the
    [timeRange] handed to query generation. *)
Definition timeRange_for (diff tr : time.Duration) : Prop :=
  (diff < 12 * time.Hour → tr = 5 * time.Minute) ∧
  (12 * time.Hour ≤ diff < 24 * time.Hour → tr = 15 * time.Minute) ∧
  (24 * time.Hour ≤ diff < 7 * 24 * time.Hour → tr = 30 * time.Minute) ∧
  (7 * 24 * time.Hour ≤ diff < 28 * 24 * time.Hour → tr = time.Hour) ∧
  (28 * 24 * time.Hour ≤ diff → tr = 3 * time.Hour).

(** [int32], the type of the timestamp parameters. *)
Definition int32 (z : Z) : Prop := - 2 ^ 31 ≤ z < 2 ^ 31.
End RangeEndpoints.

(** ** Results of fallible library calls: a value or a Go [error] *)

Definition error := string.

Inductive result (A : Type) : Type :=
  | Ok (a : A)
  | Err (e : error).
Arguments Ok {A} a.
Arguments Err {A} e.

(** ** package model (prometheus/common) *)

Module model.
(** [model.Metric] and [model.LabelSet]: label name to label value. *)
Abbreviation Metric := (gmap string string).

(** [model.Fingerprint] is a [uint64]. *)
Abbreviation Fingerprint := Z.

Record Sample := mkSample {
  sample_Metric : Metric;
  sample_Value : float;
  sample_Timestamp : Z;
}.

Record SamplePair := mkPair {
  Timestamp : Z;   (* [model.Time]: int64 milliseconds *)
  Value : float;
}.

Record SampleStream := mkStream {
  stream_Metric : Metric;
  Values : list SamplePair;
}.

Abbreviation Vector := (list Sample).
Abbreviation Matrix := (list SampleStream).

(** The implementations of the interface [model.Value]. *)
Inductive Value_ : Type :=
  | ValVector (v : Vector)
  | ValMatrix (m : Matrix)
  | ValScalar (v : float) (t : Z)
  | ValString (s : string) (t : Z).
End model.

(** [math.IsNaN(f)] is [f != f]. *)
Definition IsNaN (f : float) : bool := negb (PrimFloat.eqb f f).

(** ** Backend transport adapter: [thanosClient.Do] *)

Module thanos.
(** [url.Values] is [map[string][]string]. *)
Abbreviation Values := (gmap string (list string)).

(** [v.Get(key)]: the first value of the key, or the empty string. *)
Definition Get (v : Values) (key : string) : string :=
  match v !! key with
  | Some (x :: _) => x
  | _ => EmptyString
  end.

(** [v.Set(key, value)] replaces any existing values. *)
Definition Set_ (v : Values) (key value : string) : Values :=
  <[key := [value]]> v.

(** [strings.HasSuffix(s, suffix)] *)
Definition HasSuffix (s suffix : string) : bool :=
  let n := String.length s in
  let k := String.length suffix in
  (k <=? n)%nat && String.eqb (String.substring (n - k) k s) suffix.

(** [r.Body], an [io.ReadCloser]: nil, as in a request made without a
    body, or a reader, given by what [ioutil.ReadAll] returns on it. *)
Inductive ReadCloser : Type :=
  | NilReader
  | Reader (read : result string).

Record Request := mkRequest {
  Path : string;              (* [r.URL.Path] *)
  Body : ReadCloser;          (* [r.Body] *)
  ContentLength : Z;
}.

Section Do.
(** The library calls of [Do]: [url.ParseQuery], [strconv.ParseFloat]
    at 64 bits and [Values.Encode]. *)
Variable ParseQuery : string → result Values.
Variable ParseFloat : string → result float.
Variable Encode : Values → string.

Local Open Scope float_scope.

(** [Do] either returns an error of its own or hands the rewritten
    request to the wrapped client, whose answer it returns; on a nil
    body [ioutil.ReadAll] calls [Read] on the nil interface and panics.
    The untyped constants [28*24*60*60] and [7*24*60*60] are 2419200 and
    604800. *)
Definition Do (r : Request) : exec (result Request) :=
  match Body r with
  | NilReader => Panic nil_dereference
  | Reader (Err err) => Done (Err err)
  | Reader (Ok body) =>
    match ParseQuery body with
    | Err err => Done (Err err)
    | Ok query =>
      let query := Set_ query "partial_response" "false" in
      let cl := (ContentLength r + 23)%Z in
      if HasSuffix (Path r) "/api/v1/query_range" then
        match ParseFloat (Get query "start") with
        | Err err => Done (Err err)
        | Ok start =>
          match ParseFloat (Get query "end") with
          | Err err => Done (Err err)
          | Ok end_ =>
            let '(query, cl) :=
              if 2419200 <=? end_ - start
              then (Set_ query "max_source_resolution" "1h", (cl + 25)%Z)
              else if 604800 <=? end_ - start
              then (Set_ query "max_source_resolution" "5m", (cl + 25)%Z)
              else (query, cl) in
            Done (Ok (mkRequest (Path r) (Reader (Ok (Encode query))) cl))
          end
        end
      else Done (Ok (mkRequest (Path r) (Reader (Ok (Encode query))) cl))
    end
  end.
End Do.
End thanos.

(** ** Query cache: [promCache] *)

Module cache.
(** What [ristretto.Cache] stores is an [interface{}]: a backend result
    or a value of any other type. *)
Inductive any : Type :=
  | AnyValue (v : model.Value_)
  | AnyOther.

(** What the wrapped [prometheusAPI] returns: value (possibly nil),
    warnings, error (possibly nil). *)
Record Response := mkResponse {
  value : option model.Value_;
  warnings : list string;
  err : option error;
}.

(** Effects of a call, in order. *)
Inductive event : Type :=
  | BackendCall (query : string)
  | SetWithTTL (key : Z) (v : option model.Value_) (cost : Z) (ttl : time.Duration).

Section promCache.
(** [xxhash] of a string (64 bits) and [time.Time.String]. *)
Variable xxh : string → Z.
Variable Time_String : time.Time → string.
(** The cache contents seen by [p.cache.Get]. *)
Variable store : gmap Z any.

Local Open Scope Z_scope.

(** [promCache.Query]; [api] is the answer of [p.api.Query]. *)
Definition Query (api : Response) (query : string)
    : exec (Response * list event) :=
  let hash := xxh query in
  match store !! hash with
  | Some (AnyValue v) => Done (mkResponse (Some v) [] None, [])
  | Some AnyOther => Panic bad_assertion
  | None =>
    match err api with
    | Some e => Done (mkResponse None (warnings api) (Some e), [BackendCall query])
    | None =>
      let sets :=
        match value api with
        | Some (model.ValVector v) =>
          if (0 <? Z.of_nat (length v)) && (Z.of_nat (length (warnings api)) =? 0)
          then [SetWithTTL hash (value api) 10 (5 * time.Minute)]
          else []
        | _ => []
        end in
      Done (mkResponse (value api) (warnings api) None, BackendCall query :: sets)
    end
  end.

(** [promCache.QueryRange]; [api] is the answer of [p.api.QueryRange]. *)
Definition QueryRange (api : Response) (query : string) (r : Range)
    : exec (Response * list event) :=
  let hash := xxh (query ++ Time_String (Start r) ++ Time_String (End_ r))%string in
  match store !! hash with
  | Some (AnyValue v) => Done (mkResponse (Some v) [] None, [])
  | Some AnyOther => Panic bad_assertion
  | None =>
    match err api with
    | Some e => Done (mkResponse None (warnings api) (Some e), [BackendCall query])
    | None =>
      let sets :=
        match value api with
        | Some (model.ValMatrix m) =>
          if (0 <? Z.of_nat (length m)) && (Z.of_nat (length (warnings api)) =? 0)
          then [SetWithTTL hash (value api) 100 (10 * time.Minute)]
          else []
        | _ => []
        end in
      Done (mkResponse (value api) (warnings api) None, BackendCall query :: sets)
    end
  end.
End promCache.
End cache.

(** ** Responses of the API handlers *)

Record ImplResponse (B : Type) := mkImplResponse {
  Code : Z;
  Body : option B;
}.
Arguments mkImplResponse {B} Code Body.
Arguments Code {B} _.
Arguments Body {B} _.

Definition StatusOK : Z := 200.
Definition StatusBadRequest : Z := 400.
Definition StatusNotFound : Z := 404.
Definition StatusInternalServerError : Z := 500.

(** ** Status aggregator: [GetObjectiveStatus] *)

Module status.
Record ObjectiveStatusAvailability := mkAvailability {
  Percentage : float;
  Total : float;
  Errors : float;
}.

Record ObjectiveStatusBudget := mkBudget {
  budget_Total : float;
  Remaining : float;
  Max : float;
}.

Record ObjectiveStatus := mkStatus {
  Labels : gmap string string;
  Availability : ObjectiveStatusAvailability;
  Budget : ObjectiveStatusBudget;
}.

Local Open Scope float_scope.

(** The zero value of the budget struct. *)
Definition zeroBudget : ObjectiveStatusBudget := mkBudget 0 0 0.

Section GetObjectiveStatus.
(** [Metric.Fingerprint()] *)
Variable Fingerprint : model.Metric → model.Fingerprint.
(** The order in which [range] visits the entries of the map, which
    Go leaves unspecified. *)
Variable range_order : gmap Z ObjectiveStatus → list (Z * ObjectiveStatus).

(** Lines 397-410: one status per series of the totals vector. *)
Fixpoint fromTotals (v : model.Vector) (statuses : gmap Z ObjectiveStatus)
    : gmap Z ObjectiveStatus :=
  match v with
  | [] => statuses
  | s :: rest =>
    fromTotals rest
      (<[Fingerprint (model.sample_Metric s) :=
           mkStatus (model.sample_Metric s)
             (mkAvailability 1 (model.sample_Value s) 0) zeroBudget]> statuses)
  end.

(** Lines 418-422: the map holds pointers, a missing key yields nil
    and the assignment through it panics. *)
Fixpoint withErrors (v : model.Vector) (statuses : gmap Z ObjectiveStatus)
    : exec (gmap Z ObjectiveStatus) :=
  match v with
  | [] => Done statuses
  | e :: rest =>
    match statuses !! Fingerprint (model.sample_Metric e) with
    | None => Panic nil_dereference
    | Some s =>
      let errors := model.sample_Value e in
      let total := Total (Availability s) in
      let s' := mkStatus (Labels s)
                  (mkAvailability (1 - errors / total) total errors) (Budget s) in
      withErrors rest (<[Fingerprint (model.sample_Metric e) := s']> statuses)
    end
  end.

(** Lines 426-444, the body of the loop for one entry: [None] when
    the entry is skipped. *)
Definition finish (target : float) (s : ObjectiveStatus) : option ObjectiveStatus :=
  let a := Availability s in
  let bTotal := 1 - target in
  let bRemaining := (bTotal - Errors a / Total a) / bTotal in
  let bMax := bTotal * Total a in
  if PrimFloat.eqb (Total a) 0 then None
  else
    let percentage := if IsNaN (Percentage a) then 1 else Percentage a in
    let bRemaining := if IsNaN bRemaining then 1 else bRemaining in
    Some (mkStatus (Labels s)
            (mkAvailability percentage (Total a) (Errors a))
            (mkBudget bTotal bRemaining bMax)).

Fixpoint collect (target : float) (entries : list (Z * ObjectiveStatus))
    (statusSlice : list ObjectiveStatus) : list ObjectiveStatus :=
  match entries with
  | [] => statusSlice
  | (_, s) :: rest =>
    match finish target s with
    | None => collect target rest statusSlice
    | Some s' => collect target rest (statusSlice ++ [s'])
    end
  end.

(** [value.(model.Vector)], the form that panics on another type. *)
Definition asVector (value : option model.Value_) : exec model.Vector :=
  match value with
  | Some (model.ValVector v) => Done v
  | _ => Panic bad_assertion
  end.

(** [GetObjectiveStatus] from line 388 on: [target] is
    [objective.Target], [total] and [errors] are what the two calls of
    [o.promAPI.Query] return. *)
Definition GetObjectiveStatus (target : float) (total errors : cache.Response)
    : exec (ImplResponse (list ObjectiveStatus) * option error) :=
  match cache.err total with
  | Some e => Done (mkImplResponse StatusInternalServerError None, Some e)
  | None =>
    v ←! asVector (cache.value total);
    let statuses := fromTotals v ∅ in
    match cache.err errors with
    | Some e => Done (mkImplResponse StatusInternalServerError None, Some e)
    | None =>
      ev ←! asVector (cache.value errors);
      statuses ←! withErrors ev statuses;
      let statusSlice := collect target (range_order statuses) [] in
      Done (mkImplResponse StatusOK (Some statusSlice), None)
    end
  end.
End GetObjectiveStatus.
End status.

(** ** Objectives and the grouping merge of [GetObjectiveErrorBudget] *)

Module slo.
(** [labels.Matcher] *)
Record Matcher := mkMatcher {
  Type_ : Z;
  Name : string;
  Value : string;
}.

(** [slo.Metric]: a metric name with its label matchers. *)
Record Metric := mkMetric {
  metric_Name : string;
  LabelMatchers : list Matcher;
}.

Record RatioIndicator := mkRatio {
  Errors : Metric;
  ratio_Total : Metric;
  ratio_Grouping : list string;
}.

Record LatencyIndicator := mkLatency {
  Success : Metric;
  latency_Total : Metric;
  latency_Grouping : list string;
}.

(** Both fields are pointers: [None] is nil. *)
Record Indicator := mkIndicator {
  Ratio : option RatioIndicator;
  Latency : option LatencyIndicator;
}.

Record Objective := mkObjective {
  Labels : gmap string string;
  Target : float;
  Window : time.Duration;
  Indicator_ : Indicator;
}.

(** [append(metric.LabelMatchers, m)] stored back into the metric. *)
Definition appendMatcher (metric : Metric) (m : Matcher) : Metric :=
  mkMetric (metric_Name metric) (LabelMatchers metric ++ [m]).
End slo.

Module errorbudget.
Import slo.

Section merge.
(** The order in which [range] visits a [map[string]struct{}]. *)
Variable range_order : gset string → list string.

(** [groupings[g] = struct{}{}] for every [g]. *)
Definition toSet (grouping : list string) : gset string :=
  foldl (λ groupings g, {[g]} ∪ groupings) ∅ grouping.

(** Lines 474-478, one iteration. *)
Definition ratioStep (st : RatioIndicator * gset string) (m : Matcher)
    : RatioIndicator * gset string :=
  let '(r, groupings) := st in
  (mkRatio (appendMatcher (Errors r) m) (appendMatcher (ratio_Total r) m)
           (ratio_Grouping r),
   groupings ∖ {[Name m]}).

(** Lines 491-495, one iteration. *)
Definition latencyStep (st : LatencyIndicator * gset string) (m : Matcher)
    : LatencyIndicator * gset string :=
  let '(l, groupings) := st in
  (mkLatency (appendMatcher (Success l) m) (appendMatcher (latency_Total l) m)
             (latency_Grouping l),
   groupings ∖ {[Name m]}).

(** [Grouping = []string{}] followed by the appends of lines 481-483. *)
Definition remaining (groupings : gset string) : list string :=
  foldl (λ grouping g, grouping ++ [g]) [] (range_order groupings).

(** Lines 468-484. *)
Definition mergeRatio (groupingMatchers : list Matcher) (ind : Indicator)
    : Indicator :=
  match Ratio ind with
  | None => ind
  | Some r =>
    let '(r, groupings) :=
      foldl ratioStep (r, toSet (ratio_Grouping r)) groupingMatchers in
    mkIndicator
      (Some (mkRatio (Errors r) (ratio_Total r) (remaining groupings)))
      (Latency ind)
  end.

(** Lines 485-501: the groupings are read from, and written back to,
    [objective.Indicator.Ratio], a nil pointer when the objective has
    no ratio indicator. *)
Definition mergeLatency (groupingMatchers : list Matcher) (ind : Indicator)
    : exec Indicator :=
  match Latency ind with
  | None => Done ind
  | Some l =>
    match Ratio ind with
    | None => Panic nil_dereference
    | Some r =>
      let '(l, groupings) :=
        foldl latencyStep (l, toSet (ratio_Grouping r)) groupingMatchers in
      Done (mkIndicator
              (Some (mkRatio (Errors r) (ratio_Total r) (remaining groupings)))
              (Some l))
    end
  end.

(** Lines 462-502; [parsed] is what [parser.ParseMetricSelector(grouping)]
    returns. *)
Definition mergeGrouping (objective : Objective) (grouping : string)
    (parsed : result (list Matcher)) : exec (result Objective) :=
  if String.eqb grouping EmptyString then Done (Ok objective)
  else
    match parsed with
    | Err e => Done (Err e)
    | Ok groupingMatchers =>
      ind ←! mergeLatency groupingMatchers
               (mergeRatio groupingMatchers (Indicator_ objective));
      Done (Ok (mkObjective (Labels objective) (Target objective)
                  (Window objective) ind))
    end.
End merge.
End errorbudget.

(** ** Burn-rate evaluator: [GetMultiBurnrateAlerts] *)

Module burnrate.
(** [slo.MultiBurnrateAlert], an element of [objective.Alerts()]. *)
Record BaseAlert := mkBaseAlert {
  base_Severity : string;
  base_Short : time.Duration;
  base_Long : time.Duration;
  base_For : time.Duration;
  base_Factor : float;
  QueryShort : string;
  QueryLong : string;
}.

Record Burnrate := mkBurnrate {
  Window : Z;
  Current : float;
  Query : string;
}.

Record MultiBurnrateAlert := mkAlert {
  Severity : string;
  For : Z;
  Factor : float;
  Short : Burnrate;
  Long : Burnrate;
  State : string;
}.

Definition alertstateInactive : string := "inactive".
Definition alertstatePending : string := "pending".
Definition alertstateFiring : string := "firing".

(** The three goroutines started for a rule. *)
Inductive branch : Type := BShort | BLong | BState.

#[global] Instance branch_eq_dec : EqDecision branch.
Proof. solve_decision. Defined.

(** The variables the goroutines of one rule share, with the counter
    of the [sync.WaitGroup]. *)
Record fanout := mkFanout {
  short : Burnrate;
  long : Burnrate;
  alertstate : string;
  wg : Z;
}.

Section GetMultiBurnrateAlerts.
(** What [o.promAPI.Query] returns to each goroutine for its query. *)
Variable promQuery : branch → string → cache.Response.
(** [model.Duration.String] and the [%s]-formatting of the ALERTS
    query. *)
Variable Duration_String : time.Duration → string.
(** [objective.Labels.Get(labels.MetricName)] *)
Variable name : string.

Local Open Scope float_scope.

Definition quote : string := String "034"%char EmptyString.

(** Line 667. *)
Definition alertsQuery (short long : Z) : string :=
  let s := Duration_String (short * time.Millisecond)%Z in
  let l := Duration_String (long * time.Millisecond)%Z in
  ("ALERTS{slo=" ++ quote ++ name ++ quote ++ ",short=" ++ quote ++ s ++ quote
    ++ ",long=" ++ quote ++ l ++ quote ++ "}")%string.

(** Lines 618-635 and 637-654 without the deferred [wg.Done()]. *)
Definition burnrateBody (br : branch) (b : Burnrate) : Burnrate :=
  let r := promQuery br (Query b) in
  match cache.err r with
  | Some _ => b
  | None =>
    match cache.value r with
    | Some (model.ValVector vec) =>
      match vec with
      | [s] => mkBurnrate (Window b) (model.sample_Value s) (Query b)
      | _ => b
      end
    | _ => b
    end
  end.

(** Lines 661-696 without the deferred [wg.Done()]: the new value of
    [alertstate]. *)
Definition stateBody (short long : Z) (alertstate : string) : string :=
  let r := promQuery BState (alertsQuery short long) in
  match cache.err r with
  | Some _ => alertstate
  | None =>
    match cache.value r with
    | Some (model.ValVector vec) =>
      match vec with
      | [sample] =>
        if negb (PrimFloat.eqb (model.sample_Value sample) 1) then alertstate
        else
          let as_ := default EmptyString (model.sample_Metric sample !! "alertstate") in
          let alertstate :=
            if String.eqb as_ alertstatePending then alertstatePending
            else alertstate in
          if String.eqb as_ alertstateFiring then alertstateFiring
          else alertstate
      | _ => alertstate
      end
    | _ => alertstate
    end
  end.

(** One goroutine run to completion; its deferred [wg.Done()] is the
    last thing it does.  The third goroutine received the two windows
    as arguments when it was started. *)
Definition run (short0 long0 : Z) (st : fanout) (br : branch) : fanout :=
  match br with
  | BShort => mkFanout (burnrateBody BShort (short st)) (long st) (alertstate st) (wg st - 1)
  | BLong => mkFanout (short st) (burnrateBody BLong (long st)) (alertstate st) (wg st - 1)
  | BState => mkFanout (short st) (long st) (stateBody short0 long0 (alertstate st)) (wg st - 1)
  end.

(** Lines 604-616 and 656: the state when the goroutines start. *)
Definition start (ba : BaseAlert) : fanout :=
  mkFanout
    (mkBurnrate (time.Milliseconds (base_Short ba)) (-1) (QueryShort ba))
    (mkBurnrate (time.Milliseconds (base_Long ba)) (-1) (QueryLong ba))
    alertstateInactive 3.

(** Lines 698-707: [wg.Wait()] returns only once the counter is zero;
    then the alert is assembled.  [None] while it blocks. *)
Definition assemble (ba : BaseAlert) (st : fanout) : option MultiBurnrateAlert :=
  if (wg st =? 0)%Z then
    Some (mkAlert (base_Severity ba) (time.Milliseconds (base_For ba))
            (base_Factor ba) (short st) (long st) (alertstate st))
  else None.

(** A rule under a schedule: the goroutines that have finished, in the
    order in which they finished. *)
Definition evalRule (schedule : list branch) (ba : BaseAlert) : option MultiBurnrateAlert :=
  let st0 := start ba in
  assemble ba (foldl (run (Window (short st0)) (Window (long st0))) st0 schedule).

(** Lines 601-713: the rules one after the other; [schedules] gives
    the schedule of each rule.  [None] when some rule never gets past
    its [wg.Wait()]. *)
Fixpoint evalRules (schedules : list (list branch)) (baseAlerts : list BaseAlert)
    (alerts : list MultiBurnrateAlert) : option (list MultiBurnrateAlert) :=
  match baseAlerts, schedules with
  | [], _ => Some alerts
  | ba :: rest, schedule :: schedules =>
    match evalRule schedule ba with
    | Some a => evalRules schedules rest (alerts ++ [a])
    | None => None
    end
  | _ :: _, [] => None
  end.

Definition GetMultiBurnrateAlerts (schedules : list (list branch))
    (baseAlerts : list BaseAlert)
    : option (ImplResponse (list MultiBurnrateAlert) * option error) :=
  match evalRules schedules baseAlerts [] with
  | Some alerts => Some (mkImplResponse StatusOK (Some alerts), None)
  | None => None
  end.
End GetMultiBurnrateAlerts.
End burnrate.

(** ** Matrix transform: [matrixToValues] *)

Module matrix.
Local Open Scope float_scope.

(** [type values [][]float64] *)
Abbreviation values := (list (list float)).

(** [float64(x)] for an [int64] [x]: the nearest binary64 value, ties to
    even.  Every argument below is a quotient by 1000, whose magnitude
    fits the 63 bits of [of_uint63]. *)
Definition float64 (x : Z) : float :=
  if (x <? 0)%Z then - PrimFloat.of_uint63 (Uint63.of_Z (- x))
  else PrimFloat.of_uint63 (Uint63.of_Z x).

(** [row[i]] where the index is in range. *)
Definition at_ (row : list float) (i : nat) : float := nth i row 0.

(** *** The [sort.Interface] of [values] *)

(** [v.Len()] *)
Definition Len (v : values) : nat :=
  match v with
  | row0 :: _ => length row0
  | [] => 0%nat
  end.

(** [v.Less(i, j)] *)
Definition Less (v : values) (i j : nat) : bool :=
  match v with
  | row0 :: _ => PrimFloat.ltb (at_ row0 i) (at_ row0 j)
  | [] => false
  end.

(** [row[i], row[j] = row[j], row[i]] *)
Definition swapRow (i j : nat) (row : list float) : list float :=
  <[i := at_ row j]> (<[j := at_ row i]> row).

(** [v.Swap(i, j)]: the same exchange in every row. *)
Definition Swap (v : values) (i j : nat) : values := swapRow i j <$> v.

(** *** [sort.Sort]

    The library routine, which touches the data through [Len], [Less]
    and [Swap] only, in the form it takes on slices of up to 12 elements:
    [for i := 1; i < n; i++ { for j := i; j > 0 && Less(j, j-1); j-- { Swap(j, j-1) } }].
    On longer slices the library partitions first; both yield the one
    sorted arrangement whenever [Less] tells all columns apart. *)
Fixpoint sink (j : nat) (v : values) : values :=
  match j with
  | 0%nat => v
  | S j' => if Less v j j' then sink j' (Swap v j j') else v
  end.

Definition Sort (v : values) : values :=
  foldl (λ v i, sink i v) v (seq 1 (Len v - 1)).

(** *** The two paths of [matrixToValues] *)

(** The value stored for a sample: the slot keeps its zero when the
    sample is NaN. *)
Definition orZero (f : float) : float := if IsNaN f then 0 else f.

(** Lines 923-937. *)
Definition single (stream : model.SampleStream) : values :=
  [ (λ pair, float64 (model.Timestamp pair ÷ 1000)) <$> model.Values stream;
    (λ pair, orZero (model.Value pair)) <$> model.Values stream ].

(** Lines 941-948, one sample of stream [i]. *)
Definition put (series i : nat) (pairs : gmap Z (list float))
    (pair : model.SamplePair) : gmap Z (list float) :=
  let t := (model.Timestamp pair ÷ 1000)%Z in
  let pairs :=
    match pairs !! t with
    | Some _ => pairs
    | None => <[t := replicate series 0]> pairs
    end in
  if IsNaN (model.Value pair) then pairs
  else alter (λ row, <[i := model.Value pair]> row) t pairs.

(** Lines 939-950. *)
Fixpoint collectPairs (series i : nat) (m : model.Matrix)
    (pairs : gmap Z (list float)) : gmap Z (list float) :=
  match m with
  | [] => pairs
  | stream :: rest =>
    collectPairs series (S i) rest (foldl (put series i) pairs (model.Values stream))
  end.

(** Lines 952-963: column [i] of the result is the [i]-th entry that
    [range pairs] yields, its timestamp in row 0 and [fs[j]] in row
    [j+1]. *)
Definition columns (series : nat) (entries : list (Z * list float)) : values :=
  ((λ e, float64 (fst e)) <$> entries)
  :: ((λ j, (λ e : Z * list float, at_ (snd e) j) <$> entries) <$> seq 0 series).

Section matrixToValues.
(** The order in which [range pairs] visits the map. *)
Variable range_order : gmap Z (list float) → list (Z * list float).

(** [nil] is the empty slice. *)
Definition matrixToValues (m : model.Matrix) : values :=
  let series := length m in
  match m with
  | [] => []
  | [stream] => single stream
  | _ =>
    let pairs := collectPairs series 0 m ∅ in
    Sort (columns series (range_order pairs))
  end.
End matrixToValues.

(** The second timestamps a matrix mentions. *)
Definition seconds (m : model.Matrix) : list Z :=
  stream ← m; (λ pair, (model.Timestamp pair ÷ 1000)%Z) <$> model.Values stream.

(** Column [i] of a table: the entry of every row at [i]. *)
Definition column (v : values) (i : nat) : list float := (λ row, at_ row i) <$> v.

(** Adjacent entries strictly ascending under the order of [float64]. *)
Fixpoint ascending (row : list float) : bool :=
  match row with
  | a :: (b :: _) as rest => PrimFloat.ltb a b && ascending rest
  | _ => true
  end.
End matrix.

(** ** Concrete inputs *)

(** A range query over thirty days, with a parser that knows its two
    numbers. *)
Definition thirtyDays : thanos.Values :=
  {[ "query"%string := ["up"%string];
     "start"%string := ["0"%string];
     "end"%string := ["2592000"%string] ]}.

Definition parseThirtyDays (s : string) : result float :=
  if String.eqb s "0" then Ok 0%float
  else if String.eqb s "2592000" then Ok 2592000%float
  else Err "invalid syntax"%string.

(** An encoder that shows the two fields the adapter sets. *)
Definition showHints (form : thanos.Values) : string :=
  (thanos.Get form "partial_response" ++ "," ++ thanos.Get form "max_source_resolution")%string.

(** A cache that holds a matrix under the key of every query, and a
    backend that would answer with a vector. *)
Definition collidingHash (_ : string) : Z := 7%Z.

Definition cachedMatrix : model.Value_ :=
  model.ValMatrix [model.mkStream ∅ [model.mkPair 1000 1%float]].

Definition collidingStore : gmap Z cache.any :=
  {[ 7%Z := cache.AnyValue cachedMatrix ]}.

Definition upVector : model.Value_ :=
  model.ValVector [model.mkSample ∅ 1%float 0].

Definition upResponse : cache.Response :=
  cache.mkResponse (Some upVector) [] None.

(** Vocabulary for the status aggregator: a float with NaN replaced by
    1, and the answer of an instant query that returned a vector. *)
Definition orOne (f : float) : float := if IsNaN f then 1%float else f.

Definition vectorResponse (v : model.Vector) : cache.Response :=
  cache.mkResponse (Some (model.ValVector v)) [] None.

(** The scenario of one series: a total of 10000 and 50 errors under the
    same label set, every label set having fingerprint 7. *)
Definition oneFingerprint (_ : model.Metric) : model.Fingerprint := 7%Z.

Definition jobApi : model.Metric := {[ "job"%string := "api"%string ]}.

Definition totals10000 : model.Vector := [model.mkSample jobApi 10000%float 0].

Definition errors50 : model.Vector := [model.mkSample jobApi 50%float 0].

(** An objective with a latency indicator only, and a grouping
    expression pinning its [job] label. *)
Definition jobMatcher : slo.Matcher := slo.mkMatcher 0 "job" "api".

Definition groupingJob : string :=
  ("{job=" ++ burnrate.quote ++ "api" ++ burnrate.quote ++ "}")%string.

Definition latencyOnly : slo.Objective :=
  slo.mkObjective {[ "__name__"%string := "latency-slo"%string ]} 0.99%float
    (30 * 24 * time.Hour)%Z
    (slo.mkIndicator None
       (Some (slo.mkLatency
                (slo.mkMetric "http_request_duration_seconds_bucket" [])
                (slo.mkMetric "http_request_duration_seconds_count" [])
                ["job"%string; "handler"%string]))).

(** ** The burn-rate branches in the words of the specification *)

Module burnrate_spec.
Import burnrate.

(** A branch result of the expected shape: no failure and a vector of
    exactly one series. *)
Definition oneSeries (r : cache.Response) : option model.Sample :=
  match cache.err r, cache.value r with
  | None, Some (model.ValVector [s]) => Some s
  | _, _ => None
  end.

(** [current] is the value of the single series, -1 otherwise. *)
Definition specCurrent (r : cache.Response) : float :=
  match oneSeries r with
  | Some s => model.sample_Value s
  | None => (-1)%float
  end.

(** The state is that of the [alertstate] label when the single series
    has value 1 and the label is pending or firing, inactive otherwise. *)
Definition specState (r : cache.Response) : string :=
  match oneSeries r with
  | Some s =>
    if PrimFloat.eqb (model.sample_Value s) 1 then
      match model.sample_Metric s !! "alertstate"%string with
      | Some l =>
        if String.eqb l alertstateFiring then alertstateFiring
        else if String.eqb l alertstatePending then alertstatePending
        else alertstateInactive
      | None => alertstateInactive
      end
    else alertstateInactive
  | None => alertstateInactive
  end.

Section spec.
Variable promQuery : branch → string → cache.Response.
Variable Duration_String : time.Duration → string.
Variable name : string.

(** The alert reported for a rule. *)
Definition specAlert (ba : BaseAlert) : MultiBurnrateAlert :=
  let shortMs := time.Milliseconds (base_Short ba) in
  let longMs := time.Milliseconds (base_Long ba) in
  mkAlert (base_Severity ba) (time.Milliseconds (base_For ba)) (base_Factor ba)
    (mkBurnrate shortMs (specCurrent (promQuery BShort (QueryShort ba))) (QueryShort ba))
    (mkBurnrate longMs (specCurrent (promQuery BLong (QueryLong ba))) (QueryLong ba))
    (specState (promQuery BState (alertsQuery Duration_String name shortMs longMs))).
End spec.

(** Every goroutine of the rule has finished, in some order. *)
Definition complete (schedule : list branch) : Prop :=
  schedule ≡ₚ [BShort; BLong; BState].
End burnrate_spec.

(** A page rule whose short-window query fails while the two other
    branches answer. *)
Definition pageRule : burnrate.BaseAlert :=
  burnrate.mkBaseAlert "critical" (5 * time.Minute)%Z time.Hour (2 * time.Minute)%Z
    14%float "short_burnrate" "long_burnrate".

Definition firingSample : model.Sample :=
  model.mkSample {[ "alertstate"%string := "firing"%string ]} 1%float 0.

Definition shortFails (br : burnrate.branch) (q : string) : cache.Response :=
  match br with
  | burnrate.BShort => cache.mkResponse None [] (Some "context deadline exceeded"%string)
  | burnrate.BLong => vectorResponse [model.mkSample ∅ 2.5%float 0]
  | burnrate.BState => vectorResponse [firingSample]
  end.

(** ** The matrix transform in the words of the specification *)

Module matrix_spec.
Import matrix.

(** The value a stream shows at second [t]: that of its last sample in
    that second which is not NaN, the [acc] it started from (0 in a fresh
    row) when it has none. *)
Definition cellFrom (t : Z) (acc : float) (pairs : list model.SamplePair) : float :=
  foldl (λ acc pair,
           if (model.Timestamp pair ÷ 1000 =? t)%Z && negb (IsNaN (model.Value pair))
           then model.Value pair else acc)
        acc pairs.

Definition cell (t : Z) (stream : model.SampleStream) : float :=
  cellFrom t 0%float (model.Values stream).

(** What the streams [rest], numbered from [i], make of the row of
    second [t]. *)
Fixpoint overlay (t : Z) (i : nat) (rest : model.Matrix) (row : list float)
    : list float :=
  match rest with
  | [] => row
  | stream :: rest =>
    overlay t (S i) rest (<[i := cellFrom t (at_ row i) (model.Values stream)]> row)
  end.

(** The sort of [sort.Sort] read on the list of columns: [sinkL] is
    [sink], [sortL] is [Sort], and [insR] is the insertion [sinkL]
    performs, on the reversed prefix. *)
Section sorting.
Context {A : Type} (lt : A → A → bool).

Fixpoint sinkL (j : nat) (E : list A) : list A :=
  match j with
  | 0%nat => E
  | S j' =>
    match E !! j, E !! j' with
    | Some a, Some b => if lt a b then sinkL j' (<[j := b]> (<[j' := a]> E)) else E
    | _, _ => E
    end
  end.

Definition sortL (E : list A) : list A :=
  foldl (λ E i, sinkL i E) E (seq 1 (length E - 1)).

Fixpoint insR (x : A) (rp : list A) : list A :=
  match rp with
  | [] => [x]
  | b :: rp' => if lt x b then b :: insR x rp' else x :: b :: rp'
  end.
End sorting.

(** Every row collected so far has one slot per series. *)
Definition rowsOK (series : nat) (pairs : gmap Z (list float)) : Prop :=
  ∀ t row, pairs !! t = Some row → length row = series.

(** [Less] on two columns. *)
Definition entryLess (a b : Z * list float) : bool :=
  PrimFloat.ltb (float64 (fst a)) (float64 (fst b)).

(** The seconds that [float64] represents exactly. *)
Definition exact (t : Z) : Prop := (- 2 ^ 53 < t < 2 ^ 53)%Z.

(** The specification value of [float64 x] for such an [x]. *)
Definition spec64 (x : Z) : SpecFloat.spec_float :=
  match x with
  | Z0 => SpecFloat.S754_zero false
  | Zpos p => SpecFloat.binary_round prec emax false p 0
  | Zneg p => SpecFloat.binary_round prec emax true p 0
  end.
End matrix_spec.

(** Two series on different grids, the second with a NaN sample. *)
Definition seriesA : model.SampleStream :=
  model.mkStream {[ "job"%string := "a"%string ]}
    [model.mkPair 3000 1.5%float; model.mkPair 1000 2.5%float].

Definition seriesB : model.SampleStream :=
  model.mkStream {[ "job"%string := "b"%string ]}
    [model.mkPair 2000 7%float; model.mkPair 1000 8%float; model.mkPair 4000 nan].

(** Two series whose only samples lie one second apart beyond 2^53
    seconds. *)
Definition farA : model.SampleStream :=
  model.mkStream ∅ [model.mkPair 9007199254740992000 1%float].

Definition farB : model.SampleStream :=
  model.mkStream ∅ [model.mkPair 9007199254740993000 2%float].

(** ** [RoundUp] and the calls of package time it makes *)

Module rounding.
Local Open Scope Z_scope.

(** Seconds from the zero [time.Time] (January 1, year 1) to the Unix
    epoch. *)
Definition unixToInternal : Z := 62135596800.

(** [t.Round(d)]: the nearest multiple of [d] since the zero time,
    halfway values up; [t] itself when [d <= 0]. *)
Definition Round (t : time.Time) (d : time.Duration) : time.Time :=
  if d <=? 0 then t
  else
    let r := (t + unixToInternal * time.Second) mod d in
    if r + r <? d then time.Add t (- r) else time.Add t (d - r).

(** [t.Before(u)] *)
Definition Before (t u : time.Time) : bool := t <? u.

(** Lines 257-263. *)
Definition RoundUp (t : time.Time) (d : time.Duration) : time.Time :=
  let n := Round t d in
  if Before n t then time.Add n d else n.
End rounding.

(** ** The cache once a write has reached it *)

Module cache_store.
(** [ristretto] applies an accepted [SetWithTTL] to the store; the entry
    then answers [Get] until it expires or is evicted. *)
Definition accept (ev : cache.event) (store : gmap Z cache.any) : gmap Z cache.any :=
  match ev with
  | cache.SetWithTTL key (Some v) _ _ => <[key := cache.AnyValue v]> store
  | _ => store
  end.
End cache_store.

(** ** Objective resolution and [ListObjectives] *)

Module objectives.
(** What the store's client returns as error: a
    [GenericOpenAPIError], which [errors.As] recognises, or any other
    error; both print as their message. *)
Inductive storeError : Type :=
  | GenericOpenAPIError (msg : string)
  | OtherError (msg : string).

Definition Error (e : storeError) : error :=
  match e with
  | GenericOpenAPIError msg => msg
  | OtherError msg => msg
  end.

(** Calls that leave the process, in order. *)
Inductive call : Type :=
  | StoreList (expr : string).

(** How a handler goes on once it has an objective, or what it answers
    when it has none. *)
Inductive resolved (O B : Type) : Type :=
  | Objective_ (o : O)
  | Answer (r : ImplResponse B) (e : error).
Arguments Objective_ {O B} o.
Arguments Answer {O B} r e.

Section handlers.
Context {ClientObjective ServerObjective B : Type}.
(** [openapi.ServerFromClient], [parser.ParseMetricSelector],
    [ObjectivesApi.ListObjectives(ctx).Expr(expr).Execute()] and
    [strconv.Itoa]. *)
Variable ServerFromClient : ClientObjective → ServerObjective.
Variable ParseMetricSelector : string → result (list slo.Matcher).
Variable Execute : string → storeError + list ClientObjective.
Variable Itoa : Z → string.

(** Lines 325-347. *)
Definition ListObjectives (query : string)
    : ImplResponse (list ServerObjective) * option error * list call :=
  let invalid :=
    if negb (String.eqb query EmptyString) then
      match ParseMetricSelector query with
      | Err e => Some e
      | Ok _ => None
      end
    else None in
  match invalid with
  | Some e => (mkImplResponse StatusBadRequest None, Some e, [])
  | None =>
    match Execute query with
    | inl e =>
      (mkImplResponse StatusInternalServerError None, Some (Error e), [StoreList query])
    | inr objectives =>
      (mkImplResponse StatusOK (Some (ServerFromClient <$> objectives)), None,
       [StoreList query])
    end
  end.

Definition moreThanOne (n : nat) : error :=
  ("expr matches more than one SLO, it matches: " ++ Itoa (Z.of_nat n))%string.

Definition notExactlyOne : error := "expr matches not exactly one SLO".

(** Lines 350-364, the resolution of [GetObjectiveStatus]. *)
Definition resolveStatus (expr : string) : resolved ClientObjective B :=
  match Execute expr with
  | inl e =>
    match e with
    | GenericOpenAPIError msg =>
      if String.prefix "404" msg
      then Answer (mkImplResponse StatusNotFound None) (Error e)
      else Answer (mkImplResponse StatusInternalServerError None) (Error e)
    | OtherError _ => Answer (mkImplResponse StatusInternalServerError None) (Error e)
    end
  | inr clientObjectives =>
    match clientObjectives with
    | [o] => Objective_ o
    | _ => Answer (mkImplResponse StatusBadRequest None)
             (moreThanOne (length clientObjectives))
    end
  end.

(** Lines 453-460, the resolution of [GetObjectiveErrorBudget]. *)
Definition resolveErrorBudget (expr : string) : resolved ClientObjective B :=
  match Execute expr with
  | inl e => Answer (mkImplResponse StatusInternalServerError None) (Error e)
  | inr clientObjectives =>
    match clientObjectives with
    | [o] => Objective_ o
    | _ => Answer (mkImplResponse StatusBadRequest None)
             (moreThanOne (length clientObjectives))
    end
  end.

(** Lines 561-569, 717-724 and 817-824, the resolution of
    [GetMultiBurnrateAlerts], [GetREDRequests] and [GetREDErrors]. *)
Definition resolveOne (expr : string) : resolved ClientObjective B :=
  match Execute expr with
  | inl e => Answer (mkImplResponse StatusInternalServerError None) (Error e)
  | inr clientObjectives =>
    match clientObjectives with
    | [o] => Objective_ o
    | _ => Answer (mkImplResponse StatusBadRequest None) notExactlyOne
    end
  end.
End handlers.
End objectives.

(** ** The grouping merges of the other handlers *)

Module merges.
Import slo.

(** One iteration of the loops over [groupingMatchers]. *)
Definition ratioAppend (r : RatioIndicator) (m : Matcher) : RatioIndicator :=
  mkRatio (appendMatcher (Errors r) m) (appendMatcher (ratio_Total r) m)
    (ratio_Grouping r).

Definition latencyAppend (l : LatencyIndicator) (m : Matcher) : LatencyIndicator :=
  mkLatency (appendMatcher (Success l) m) (appendMatcher (latency_Total l) m)
    (latency_Grouping l).

(** Lines 372-383, and the same at 732-743 and 832-843. *)
Definition appendMatchers (groupingMatchers : list Matcher) (ind : Indicator)
    : Indicator :=
  let ind :=
    match Ratio ind with
    | Some r => mkIndicator (Some (foldl ratioAppend r groupingMatchers)) (Latency ind)
    | None => ind
    end in
  match Latency ind with
  | Some l => mkIndicator (Ratio ind) (Some (foldl latencyAppend l groupingMatchers))
  | None => ind
  end.

(** Lines 578-593: the grouping is set to nil, the empty slice. *)
Definition appendUngrouped (groupingMatchers : list Matcher) (ind : Indicator)
    : Indicator :=
  let ind :=
    match Ratio ind with
    | Some r =>
      mkIndicator
        (Some (foldl ratioAppend (mkRatio (Errors r) (ratio_Total r) [])
                 groupingMatchers))
        (Latency ind)
    | None => ind
    end in
  match Latency ind with
  | Some l =>
    mkIndicator (Ratio ind)
      (Some (foldl latencyAppend (mkLatency (Success l) (latency_Total l) [])
               groupingMatchers))
  | None => ind
  end.

(** A merge applied as the handlers apply it: not at all for an empty
    grouping expression, and not when the expression does not parse; on
    [Err e] the handler answers the zero [ImplResponse{}] with [e]. *)
Definition withGrouping (merge : list Matcher → Indicator → Indicator)
    (objective : Objective) (grouping : string) (parsed : result (list Matcher))
    : result Objective :=
  if String.eqb grouping EmptyString then Ok objective
  else
    match parsed with
    | Err e => Err e
    | Ok groupingMatchers =>
      Ok (mkObjective (Labels objective) (Target objective) (Window objective)
            (merge groupingMatchers (Indicator_ objective)))
    end.

(** Lines 366-384, 726-744 and 826-844. *)
Definition mergeGrouping := withGrouping appendMatchers.

(** Lines 571-594. *)
Definition mergeGroupingAlerts := withGrouping appendUngrouped.
End merges.

(** ** The answers of the range endpoints *)

Module rangeanswer.
(** [openapiserver.QueryRange] *)
Record QueryRange := mkQueryRange {
  Query : string;
  Labels : list string;
  Values : matrix.values;
}.

(** The bodies the range endpoints send: [struct{}{}] or a table. *)
Inductive body : Type :=
  | EmptyObject
  | Table (q : QueryRange).

Definition noMatrix : error := "no matrix returned".
Definition notAMatrix : error := "returned data is not a matrix".

Section answers.
Variable range_order : gmap Z (list float) → list (Z * list float).
(** [model.LabelSet(metric).String()] *)
Variable LabelSet_String : model.Metric → string.

(** Lines 522-551; [resp] is what [o.promAPI.QueryRange] returns. *)
Definition errorBudgetAnswer (query : string) (resp : cache.Response)
    : ImplResponse body * option error :=
  match cache.err resp with
  | Some e => (mkImplResponse StatusInternalServerError None, Some e)
  | None =>
    match cache.value resp with
    | Some (model.ValMatrix m) =>
      if (length m =? 0)%nat
      then (mkImplResponse StatusNotFound (Some EmptyObject), None)
      else
        (mkImplResponse StatusOK
           (Some (Table (mkQueryRange query [] (matrix.matrixToValues range_order m)))),
         None)
    | _ => (mkImplResponse StatusInternalServerError None, Some noMatrix)
    end
  end.

(** Lines 775-813 and 876-914; [value.Type()] on a nil interface
    panics. *)
Definition redAnswer (query : string) (resp : cache.Response)
    : exec (ImplResponse body * option error) :=
  match cache.err resp with
  | Some e => Done (mkImplResponse StatusInternalServerError None, Some e)
  | None =>
    match cache.value resp with
    | None => Panic nil_dereference
    | Some (model.ValMatrix m) =>
      if (length m =? 0)%nat
      then Done (mkImplResponse StatusNotFound (Some EmptyObject), None)
      else
        let labels := (λ stream, LabelSet_String (model.stream_Metric stream)) <$> m in
        Done (mkImplResponse StatusOK
                (Some (Table (mkQueryRange query labels
                                (matrix.matrixToValues range_order m)))),
              None)
    | Some _ => Done (mkImplResponse StatusInternalServerError None, Some notAMatrix)
    end
  end.
End answers.
End rangeanswer.

(** A ratio objective grouped by job and handler, and the store answers
    used below. *)
Definition ratioObjective : slo.Objective :=
  slo.mkObjective {[ "__name__"%string := "errors-slo"%string ]} 0.99%float
    (30 * 24 * time.Hour)%Z
    (slo.mkIndicator
       (Some (slo.mkRatio
                (slo.mkMetric "http_requests_total"
                   [slo.mkMatcher 2 "code" "5.."])
                (slo.mkMetric "http_requests_total" [])
                ["job"%string; "handler"%string]))
       None).

Definition rejectAll (_ : string) : result (list slo.Matcher) :=
  Err "unexpected character".

Definition emptyStore (_ : string) : objectives.storeError + list nat := inr [].

Definition missingStore (_ : string) : objectives.storeError + list nat :=
  inl (objectives.GenericOpenAPIError "404 Not Found").

(** ** Route prefixes of [cmdAPI] *)

Module routes.
Definition slash : ascii := "/"%char.

(** [strings.Trim(s, "/")]: for a cutset of one ASCII byte the library
    returns [trimLeftByte(trimRightByte(s, c), c)]; [trimRightByte]
    drops the last byte while it is [c], [trimLeftByte] the first. *)
Fixpoint trimRightByte (s : string) : string :=
  match s with
  | EmptyString => EmptyString
  | String c rest =>
    match trimRightByte rest with
    | EmptyString => if Ascii.eqb c slash then EmptyString else String c EmptyString
    | r => String c r
    end
  end.

Fixpoint trimLeftByte (s : string) : string :=
  match s with
  | EmptyString => EmptyString
  | String c rest => if Ascii.eqb c slash then trimLeftByte rest else s
  end.

Definition Trim (s : string) : string := trimLeftByte (trimRightByte s).

(** [strings.TrimSuffix(s, suffix)] *)
Definition TrimSuffix (s suffix : string) : string :=
  if thanos.HasSuffix s suffix
  then String.substring 0 (String.length s - String.length suffix) s
  else s.

(** Lines 82-88: the route prefix and the prefix handed to the UI. *)
Definition prefixes (routePrefix uiRoutePrefix : string) : string * string :=
  let routePrefix := ("/" ++ Trim routePrefix)%string in
  let uiRoutePrefix :=
    if String.eqb uiRoutePrefix EmptyString then routePrefix
    else ("/" ++ Trim uiRoutePrefix)%string in
  (routePrefix, uiRoutePrefix).

(** Line 165: whether the catch-all handler answers a path with the
    index page rather than a file. *)
Definition servesIndex (routePrefix path : string) : bool :=
  String.eqb path "/" || String.eqb (TrimSuffix path "/") routePrefix.

(** Lines 185-187: the pattern under which the redirect handler is
    registered, if it is.  Where the redirect leads is decided by
    [http.Redirect], which is not modelled. *)
Definition redirectPattern (routePrefix : string) : option string :=
  if negb (String.eqb routePrefix "/")
  then Some (TrimSuffix routePrefix "/")
  else None.

(** [n] slashes in a row. *)
Fixpoint slashes (n : nat) : string :=
  match n with
  | O => EmptyString
  | S n => String slash (slashes n)
  end.
End routes.

(** * Properties *)

(** ** The order of [float64] *)

Module floatorder.
Import SpecFloat.

Lemma SFcompare_antisym x y :
  SFcompare y x = option_map CompOpp (SFcompare x y).
Proof.
  destruct x as [sx|sx| |sx mx ex], y as [sy|sy| |sy my ey]; simpl;
    try reflexivity;
    try (destruct sx; reflexivity); try (destruct sy; reflexivity);
    try (destruct sx, sy; reflexivity).
  destruct sx, sy; simpl; try reflexivity;
    rewrite (Z.compare_antisym ex ey);
    destruct (ex ?= ey)%Z; simpl; try reflexivity;
    change (Pos.compare_cont Eq) with Pos.compare;
    rewrite (Pos.compare_antisym mx my);
    destruct (mx ?= my)%positive; reflexivity.
Qed.

Lemma SFleb_trans x y z :
  SFleb x y = true → SFleb y z = true → SFleb x z = true.
Proof.
  unfold SFleb.
  destruct x as [sx|sx| |sx mx ex], y as [sy|sy| |sy my ey],
           z as [sz|sz| |sz mz ez];
    simpl; try discriminate; try reflexivity;
    repeat match goal with s : bool |- _ => destruct s end; simpl;
    try discriminate; try reflexivity;
    change (Pos.compare_cont Eq) with Pos.compare;
    repeat match goal with
    | |- context [(?a ?= ?b)%Z] => destruct (Z.compare_spec a b)
    | |- context [(?a ?= ?b)%positive] => destruct (Pos.compare_spec a b)
    end; simpl; try discriminate; try reflexivity; try lia.
Qed.

Lemma leb_trans (x y z : float) :
  PrimFloat.leb x y = true → PrimFloat.leb y z = true → PrimFloat.leb x z = true.
Proof. rewrite !leb_spec. apply SFleb_trans. Qed.

Lemma ltb_not_leb (x y : float) :
  PrimFloat.ltb x y = true → PrimFloat.leb y x = false.
Proof.
  rewrite ltb_spec, leb_spec. unfold SFltb, SFleb.
  rewrite (SFcompare_antisym (Prim2SF x) (Prim2SF y)).
  destruct (SFcompare (Prim2SF x) (Prim2SF y)) as [[]|]; simpl; congruence.
Qed.

Lemma ltb_asym (x y : float) :
  PrimFloat.ltb x y = true → PrimFloat.ltb y x = false.
Proof.
  rewrite !ltb_spec. unfold SFltb.
  rewrite (SFcompare_antisym (Prim2SF x) (Prim2SF y)).
  destruct (SFcompare (Prim2SF x) (Prim2SF y)) as [[]|]; simpl; congruence.
Qed.

Lemma ltb_irrefl (x : float) : PrimFloat.ltb x x = false.
Proof.
  destruct (PrimFloat.ltb x x) eqn:E; [|reflexivity].
  pose proof (ltb_asym _ _ E). congruence.
Qed.
End floatorder.

(** ** Range planner *)

Section RangeFacts.
Local Open Scope Z_scope.

Lemma Sub_Unix (s e : Z) :
  int32 s → int32 e → time.Sub (time.Unix e) (time.Unix s) = time.Unix e - time.Unix s.
Proof.
  unfold int32, time.Sub, time.Unix, time.minDuration, time.maxDuration,
    time.Second, time.Millisecond.
  intros Hs He.
  destruct (Z.ltb_spec (e * (1000 * 1000000) - s * (1000 * 1000000)) (- 2 ^ 63));
    [lia|].
  destruct (Z.ltb_spec (2 ^ 63 - 1) (e * (1000 * 1000000) - s * (1000 * 1000000)));
    [lia|reflexivity].
Qed.

Lemma Sub_last_hour (now : time.Time) :
  time.Sub now (time.Add now (-1 * time.Hour)) = time.Hour.
Proof.
  unfold time.Sub, time.Add.
  replace (now - (now + -1 * time.Hour)) with time.Hour by lia.
  reflexivity.
Qed.

(** The span of the effective range is never saturated. *)
Lemma span_exact (now : time.Time) (s e : Z) :
  int32 s → int32 e →
  let r := plan_range (GetREDRequests_plan now s e) in
  span r = End_ r - Start r.
Proof.
  intros Hs He. unfold GetREDRequests_plan, span.
  destruct (negb (s =? 0) && negb (e =? 0)); simpl.
  - by apply Sub_Unix.
  - rewrite Sub_last_hour. unfold time.Add. lia.
Qed.

Lemma plans_agree (now : time.Time) (s e : Z) :
  GetREDErrors_plan now s e = GetREDRequests_plan now s e.
Proof. reflexivity. Qed.

Lemma timeRange_thresholds (now : time.Time) (s e : Z) :
  let p := GetREDRequests_plan now s e in
  timeRange_for (span (plan_range p)) (plan_timeRange p).
Proof.
  unfold GetREDRequests_plan, timeRange_for, span.
  destruct (negb (s =? 0) && negb (e =? 0)); cbn [plan_range plan_timeRange Start End_];
    match goal with |- context [(_ <=? ?d)] => generalize d end; intros d;
    repeat match goal with
    | |- context [(?a <=? d)] => destruct (Z.leb_spec a d)
    end; repeat split; intros; try reflexivity; unfold time.Hour, time.Minute,
      time.Second, time.Millisecond in *; lia.
Qed.

(** C7: for both range endpoints, on the effective range [start, end]
    the step handed to the backend is (end - start) / 1000 and the
    [timeRange] handed to query generation is 5m below 12h, 15m in
    [12h, 24h), 30m in [24h, 7d), 1h in [7d, 28d) and 3h from 28d on;
    a span of 2h gives 5m and a span of 30d gives 3h. *)
Theorem red_range_plan (now : time.Time) (s e : Z) (p : RangePlan) :
  int32 s → int32 e →
  p = GetREDRequests_plan now s e ∨ p = GetREDErrors_plan now s e →
  let r := plan_range p in
  let d := End_ r - Start r in
  Step r = d ÷ 1000 ∧
  timeRange_for d (plan_timeRange p) ∧
  (d = 2 * time.Hour → plan_timeRange p = 5 * time.Minute) ∧
  (d = 30 * 24 * time.Hour → plan_timeRange p = 3 * time.Hour).
Proof.
  intros Hs He Hp.
  assert (p = GetREDRequests_plan now s e) as ->
    by (destruct Hp as [->| ->]; [reflexivity|apply plans_agree]).
  pose proof (span_exact now s e Hs He) as Hspan.
  pose proof (timeRange_thresholds now s e) as Hthr.
  cbv zeta in *. rewrite <- Hspan.
  split.
  { unfold GetREDRequests_plan, span.
    by destruct (negb (s =? 0) && negb (e =? 0)). }
  split; [exact Hthr|].
  destruct Hthr as (H5 & _ & _ & _ & H3).
  split; intros Hd.
  - apply H5. rewrite Hd. reflexivity.
  - apply H3. rewrite Hd. discriminate.
Qed.

Lemma red_range_plan_witness :
  int32 1700000000 ∧ int32 1700007200 ∧
  let p := GetREDErrors_plan 0 1700000000 1700007200 in
  Step (plan_range p) = (End_ (plan_range p) - Start (plan_range p)) ÷ 1000 ∧
  plan_timeRange p = 5 * time.Minute.
Proof.
  assert (int32 1700000000) as Hs by (unfold int32; lia).
  assert (int32 1700007200) as He by (unfold int32; lia).
  split; [exact Hs|]. split; [exact He|].
  destruct (red_range_plan 0 1700000000 1700007200 _ Hs He (or_intror eq_refl))
    as (Hstep & _ & H2h & _).
  split; [exact Hstep|]. apply H2h. reflexivity.
Defined.

(** C10: each range endpoint uses the caller's [start] and [end] only
    when both are non-zero; when either is zero the effective range is
    the last hour, [now - 1h, now]. *)
Theorem effective_range (now : time.Time) (s e : Z) (r : Range) :
  r = GetObjectiveErrorBudget_range now s e ∨
  r = plan_range (GetREDRequests_plan now s e) ∨
  r = plan_range (GetREDErrors_plan now s e) →
  ((s ≠ 0 ∧ e ≠ 0) ∧ Start r = time.Unix s ∧ End_ r = time.Unix e) ∨
  ((s = 0 ∨ e = 0) ∧ Start r = now - time.Hour ∧ End_ r = now).
Proof.
  intros Hr.
  assert (Start r = Start (GetObjectiveErrorBudget_range now s e) ∧
          End_ r = End_ (GetObjectiveErrorBudget_range now s e)) as [-> ->]
    by (destruct Hr as [->|[->| ->]];
        unfold GetREDRequests_plan, GetREDErrors_plan, GetObjectiveErrorBudget_range;
        destruct (negb (s =? 0) && negb (e =? 0)); split; reflexivity).
  unfold GetObjectiveErrorBudget_range.
  destruct (Z.eqb_spec s 0) as [Hs|Hs], (Z.eqb_spec e 0) as [He|He]; simpl.
  - right. unfold time.Add. split; [by left|]. split; lia.
  - right. unfold time.Add. split; [by left|]. split; lia.
  - right. unfold time.Add. split; [by right|]. split; lia.
  - left. done.
Qed.

Lemma effective_range_witness :
  let r := GetObjectiveErrorBudget_range 5000000000000 1700000000 0 in
  Start r = 5000000000000 - time.Hour ∧ End_ r = 5000000000000.
Proof.
  destruct (effective_range 5000000000000 1700000000 0 _ (or_introl eq_refl))
    as [[[_ He] _]|[_ H]]; [by destruct He|exact H].
Defined.
End RangeFacts.

(** ** Backend transport adapter *)

Section DoFacts.
Import thanos.
Variable ParseQuery : string → result Values.
Variable ParseFloat : string → result float.
Variable Encode : Values → string.

Local Open Scope float_scope.

Lemma Get_Set_other (q : Values) (k k' v : string) :
  k ≠ k' → Get (Set_ q k v) k' = Get q k'.
Proof. intros Hk. unfold Get, Set_. by rewrite lookup_insert_ne. Qed.

Lemma lookup_Set_same (q : Values) (k v : string) : Set_ q k v !! k = Some [v].
Proof. unfold Set_. by rewrite lookup_insert_eq. Qed.

Lemma lookup_Set_other (q : Values) (k k' v : string) :
  k ≠ k' → Set_ q k v !! k' = q !! k'.
Proof. intros Hk. unfold Set_. by rewrite lookup_insert_ne. Qed.

(** Whatever [Do] forwards carries [partial_response=false]. *)
Lemma Do_partial_response (r r' : Request) :
  Do ParseQuery ParseFloat Encode r = Done (Ok r') →
  ∃ form, Body r' = Reader (Ok (Encode form)) ∧
          form !! "partial_response"%string = Some ["false"%string] ∧
          Path r' = Path r.
Proof.
  unfold Do. intros H.
  destruct (Body r) as [|[body|]]; [discriminate| |discriminate].
  destruct (ParseQuery body) as [q|]; [|discriminate].
  destruct (HasSuffix _ _).
  - destruct (ParseFloat _) as [s|]; [|discriminate].
    destruct (ParseFloat _) as [e|]; [|discriminate].
    destruct (2419200 <=? e - s); [|destruct (604800 <=? e - s)];
      injection H as <-; eexists; (split; [reflexivity|]); (split; [|reflexivity]);
      rewrite ?lookup_Set_other by discriminate; apply lookup_Set_same.
  - injection H as <-. eexists. split; [reflexivity|]. split; [|reflexivity].
    apply lookup_Set_same.
Qed.

(** The resolution hint of a range query. *)
Lemma Do_resolution (r : Request) (body : string) (q : Values) (s e : float) :
  Body r = Reader (Ok body) → ParseQuery body = Ok q →
  HasSuffix (Path r) "/api/v1/query_range" = true →
  ParseFloat (Get q "start") = Ok s → ParseFloat (Get q "end") = Ok e →
  ∃ form cl,
    Do ParseQuery ParseFloat Encode r
      = Done (Ok (mkRequest (Path r) (Reader (Ok (Encode form))) cl)) ∧
    form !! "partial_response"%string = Some ["false"%string] ∧
    ((2419200 <=? e - s) = true →
       form !! "max_source_resolution"%string = Some ["1h"%string]) ∧
    ((604800 <=? e - s) = true → (e - s <? 2419200) = true →
       form !! "max_source_resolution"%string = Some ["5m"%string]) ∧
    ((e - s <? 604800) = true →
       form !! "max_source_resolution"%string = q !! "max_source_resolution"%string).
Proof.
  intros Hbody Hq Hpath Hs He. unfold Do.
  rewrite Hbody, Hq, Hpath, !Get_Set_other, Hs, He by discriminate.
  destruct (2419200 <=? e - s) eqn:H28; [|destruct (604800 <=? e - s) eqn:H7];
    eexists _, _; (split; [reflexivity|]);
    (split; [rewrite ?lookup_Set_other by discriminate; apply lookup_Set_same|]).
  - split; [intros _; apply lookup_Set_same|].
    split; [intros _ Hlt|intros Hlt].
    + apply floatorder.ltb_not_leb in Hlt. congruence.
    + apply floatorder.ltb_not_leb in Hlt.
      assert ((604800 <=? e - s) = true) as H7
        by (apply (floatorder.leb_trans _ 2419200); [reflexivity|exact H28]).
      congruence.
  - split; [discriminate|]. split; [intros _ _; apply lookup_Set_same|].
    intros Hlt. apply floatorder.ltb_not_leb in Hlt. congruence.
  - split; [discriminate|]. split; [discriminate|].
    intros _. by rewrite lookup_Set_other.
Qed.

(** C6: a request whose body can be read and parsed is forwarded with
    [partial_response=false]: as it is otherwise when it is not a range
    query, and, when it is a range query with parseable [start] and
    [end], with [max_source_resolution] set to 1h when end - start >= 28
    days, to 5m when 7 days <= end - start < 28 days, and left as it
    came when end - start < 7 days.  A body that cannot be read or
    parsed, or a range query whose [start] or [end] does not parse,
    makes [Do] return the error without forwarding.  A request without
    a body, which the claim covers as well, is neither forwarded nor
    failed with an error: [Do] panics on it. *)
Theorem transport_rewrite (r : Request) :
  (Body r = NilReader →
     Do ParseQuery ParseFloat Encode r = Panic nil_dereference) ∧
  (∀ r', Do ParseQuery ParseFloat Encode r = Done (Ok r') →
     ∃ form, Body r' = Reader (Ok (Encode form)) ∧
             form !! "partial_response"%string = Some ["false"%string] ∧
             Path r' = Path r) ∧
  (∀ body q,
     Body r = Reader (Ok body) → ParseQuery body = Ok q →
     HasSuffix (Path r) "/api/v1/query_range" = false →
     Do ParseQuery ParseFloat Encode r
       = Done (Ok (mkRequest (Path r)
                     (Reader (Ok (Encode (Set_ q "partial_response" "false"))))
                     (ContentLength r + 23)))) ∧
  (∀ body q s e,
     Body r = Reader (Ok body) → ParseQuery body = Ok q →
     HasSuffix (Path r) "/api/v1/query_range" = true →
     ParseFloat (Get q "start") = Ok s → ParseFloat (Get q "end") = Ok e →
     ∃ form cl,
       Do ParseQuery ParseFloat Encode r
         = Done (Ok (mkRequest (Path r) (Reader (Ok (Encode form))) cl)) ∧
       form !! "partial_response"%string = Some ["false"%string] ∧
       ((2419200 <=? e - s) = true →
          form !! "max_source_resolution"%string = Some ["1h"%string]) ∧
       ((604800 <=? e - s) = true → (e - s <? 2419200) = true →
          form !! "max_source_resolution"%string = Some ["5m"%string]) ∧
       ((e - s <? 604800) = true →
          form !! "max_source_resolution"%string
            = q !! "max_source_resolution"%string)) ∧
  (∀ err, Body r = Reader (Err err) →
     Do ParseQuery ParseFloat Encode r = Done (Err err)) ∧
  (∀ body err, Body r = Reader (Ok body) → ParseQuery body = Err err →
     Do ParseQuery ParseFloat Encode r = Done (Err err)) ∧
  (∀ body q err, Body r = Reader (Ok body) → ParseQuery body = Ok q →
     HasSuffix (Path r) "/api/v1/query_range" = true →
     ParseFloat (Get q "start") = Err err →
     Do ParseQuery ParseFloat Encode r = Done (Err err)) ∧
  (∀ body q s err, Body r = Reader (Ok body) → ParseQuery body = Ok q →
     HasSuffix (Path r) "/api/v1/query_range" = true →
     ParseFloat (Get q "start") = Ok s → ParseFloat (Get q "end") = Err err →
     Do ParseQuery ParseFloat Encode r = Done (Err err)).
Proof.
  split; [unfold Do; by intros ->|].
  split; [intros r'; apply Do_partial_response|].
  split; [unfold Do; by intros body q -> -> ->|].
  split; [intros body q s e; apply Do_resolution|].
  unfold Do. repeat split.
  - by intros err ->.
  - by intros body err -> ->.
  - intros body q err -> -> ->. rewrite Get_Set_other by discriminate. by intros ->.
  - intros body q s err -> -> ->. rewrite !Get_Set_other by discriminate.
    by intros -> ->.
Qed.
End DoFacts.

Lemma transport_rewrite_witness :
  thanos.Do (λ _, Ok thirtyDays) parseThirtyDays showHints
    (thanos.mkRequest "/api/v1/query" thanos.NilReader 0)
    = Panic nil_dereference ∧
  thanos.Do (λ _, Ok thirtyDays) parseThirtyDays showHints
    (thanos.mkRequest "/api/v1/query"
       (thanos.Reader (Ok "query=up&start=0&end=2592000"%string)) 28)
    = Done (Ok (thanos.mkRequest "/api/v1/query" (thanos.Reader (Ok "false,"%string)) 51)) ∧
  ∃ (form : thanos.Values) cl,
    thanos.Do (λ _, Ok thirtyDays) parseThirtyDays showHints
      (thanos.mkRequest "/api/v1/query_range"
         (thanos.Reader (Ok "query=up&start=0&end=2592000"%string)) 28)
      = Done (Ok (thanos.mkRequest "/api/v1/query_range"
                    (thanos.Reader (Ok (showHints form))) cl)) ∧
    form !! "max_source_resolution"%string = Some ["1h"%string].
Proof.
  split; [|split].
  - by apply (transport_rewrite (λ _, Ok thirtyDays) parseThirtyDays showHints
                (thanos.mkRequest "/api/v1/query" thanos.NilReader 0)).
  - destruct (transport_rewrite (λ _, Ok thirtyDays) parseThirtyDays showHints
                (thanos.mkRequest "/api/v1/query"
                   (thanos.Reader (Ok "query=up&start=0&end=2592000"%string)) 28))
      as (_ & _ & Hplain & _).
    exact (Hplain "query=up&start=0&end=2592000"%string thirtyDays
             eq_refl eq_refl eq_refl).
  - destruct (transport_rewrite (λ _, Ok thirtyDays) parseThirtyDays showHints
                (thanos.mkRequest "/api/v1/query_range"
                   (thanos.Reader (Ok "query=up&start=0&end=2592000"%string)) 28))
      as (_ & _ & _ & Hres & _).
    destruct (Hres "query=up&start=0&end=2592000"%string thirtyDays 0%float 2592000%float
                eq_refl eq_refl eq_refl eq_refl eq_refl)
      as (form & cl & Hdo & _ & H1h & _).
    exists form, cl. split; [exact Hdo|]. apply H1h. reflexivity.
Defined.

(** ** Query cache *)

Section CacheFacts.
Import cache.
Variable xxh : string → Z.
Variable Time_String : time.Time → string.

Local Open Scope Z_scope.

Lemma nonempty_length {A} (l : list A) :
  (0 <? Z.of_nat (length l)) = true ↔ l ≠ [].
Proof. destruct l; simpl; split; intros; try done; lia. Qed.

Lemma no_warnings_length (w : list string) :
  (Z.of_nat (length w) =? 0) = true ↔ w = [].
Proof. destruct w; simpl; split; intros; try done; lia. Qed.

(** What an instant query writes to the cache. *)
Lemma Query_sets (store : gmap Z any) (api : Response) (q : string)
    (out : Response) (evs : list event) key v cost ttl :
  Query xxh store api q = Done (out, evs) →
  SetWithTTL key v cost ttl ∈ evs →
  (∃ vec, v = Some (model.ValVector vec) ∧ vec ≠ []) ∧
  value api = v ∧ warnings api = [] ∧ err api = None ∧
  key = xxh q ∧ cost = 10 ∧ ttl = 5 * time.Minute.
Proof.
  unfold Query. intros H Hin.
  destruct (store !! xxh q) as [[w|]|].
  - injection H as <- <-. by apply elem_of_nil in Hin.
  - discriminate.
  - destruct (err api) as [e|] eqn:Herr.
    { injection H as <- <-. apply elem_of_cons in Hin as [?|Hin]; [done|].
      by apply elem_of_nil in Hin. }
    injection H as <- <-.
    apply elem_of_cons in Hin as [?|Hin]; [done|].
    destruct (value api) as [[vec|m|f t|s t]|] eqn:Hv;
      try by apply elem_of_nil in Hin.
    destruct (0 <? Z.of_nat (length vec)) eqn:Hlen;
      [|by apply elem_of_nil in Hin].
    destruct (Z.of_nat (length (warnings api)) =? 0) eqn:Hw;
      [|by apply elem_of_nil in Hin].
    apply list_elem_of_singleton in Hin. injection Hin as -> -> -> ->.
    apply nonempty_length in Hlen. apply no_warnings_length in Hw.
    repeat split; eauto.
Qed.

(** What a range query writes to the cache. *)
Lemma QueryRange_sets (store : gmap Z any) (api : Response) (q : string)
    (r : Range) (out : Response) (evs : list event) key v cost ttl :
  QueryRange xxh Time_String store api q r = Done (out, evs) →
  SetWithTTL key v cost ttl ∈ evs →
  (∃ m, v = Some (model.ValMatrix m) ∧ m ≠ []) ∧
  value api = v ∧ warnings api = [] ∧ err api = None ∧
  cost = 100 ∧ ttl = 10 * time.Minute.
Proof.
  unfold QueryRange. intros H Hin.
  destruct (store !! _) as [[w|]|].
  - injection H as <- <-. by apply elem_of_nil in Hin.
  - discriminate.
  - destruct (err api) as [e|] eqn:Herr.
    { injection H as <- <-. apply elem_of_cons in Hin as [?|Hin]; [done|].
      by apply elem_of_nil in Hin. }
    injection H as <- <-.
    apply elem_of_cons in Hin as [?|Hin]; [done|].
    destruct (value api) as [[vec|m|f t|s t]|] eqn:Hv;
      try by apply elem_of_nil in Hin.
    destruct (0 <? Z.of_nat (length m)) eqn:Hlen;
      [|by apply elem_of_nil in Hin].
    destruct (Z.of_nat (length (warnings api)) =? 0) eqn:Hw;
      [|by apply elem_of_nil in Hin].
    apply list_elem_of_singleton in Hin. injection Hin as -> -> -> ->.
    apply nonempty_length in Hlen. apply no_warnings_length in Hw.
    repeat split; eauto.
Qed.

(** C8: an instant query writes to the cache only a non-empty vector that
    came without warnings, with cost 10 and a TTL of 5 minutes, and does
    write it on a miss; a range query writes only a non-empty matrix that
    came without warnings, with cost 100 and a TTL of 10 minutes, and does
    write it on a miss; a result that came with warnings is returned to
    the caller with its warnings and is not written. *)
Theorem cache_admission (store : gmap Z any) (api : Response) (q : string) (r : Range) :
  (∀ out evs key v cost ttl,
     Query xxh store api q = Done (out, evs) →
     SetWithTTL key v cost ttl ∈ evs →
     (∃ vec, v = Some (model.ValVector vec) ∧ vec ≠ []) ∧
     value api = v ∧ warnings api = [] ∧ cost = 10 ∧ ttl = 5 * time.Minute) ∧
  (∀ vec,
     store !! xxh q = None → err api = None →
     value api = Some (model.ValVector vec) → vec ≠ [] → warnings api = [] →
     Query xxh store api q
       = Done (mkResponse (value api) [] None,
               [BackendCall q;
                SetWithTTL (xxh q) (value api) 10 (5 * time.Minute)])) ∧
  (∀ out evs key v cost ttl,
     QueryRange xxh Time_String store api q r = Done (out, evs) →
     SetWithTTL key v cost ttl ∈ evs →
     (∃ m, v = Some (model.ValMatrix m) ∧ m ≠ []) ∧
     value api = v ∧ warnings api = [] ∧ cost = 100 ∧ ttl = 10 * time.Minute) ∧
  (∀ m,
     let hash := xxh (q ++ Time_String (Start r) ++ Time_String (End_ r))%string in
     store !! hash = None → err api = None →
     value api = Some (model.ValMatrix m) → m ≠ [] → warnings api = [] →
     QueryRange xxh Time_String store api q r
       = Done (mkResponse (value api) [] None,
               [BackendCall q;
                SetWithTTL hash (value api) 100 (10 * time.Minute)])) ∧
  (warnings api ≠ [] → store !! xxh q = None → err api = None →
     Query xxh store api q
       = Done (mkResponse (value api) (warnings api) None, [BackendCall q])) ∧
  (warnings api ≠ [] →
     store !! xxh (q ++ Time_String (Start r) ++ Time_String (End_ r))%string = None →
     err api = None →
     QueryRange xxh Time_String store api q r
       = Done (mkResponse (value api) (warnings api) None, [BackendCall q])).
Proof.
  split.
  { intros out evs key v cost ttl H Hin.
    destruct (Query_sets _ _ _ _ _ _ _ _ _ H Hin) as (? & ? & ? & _ & _ & ? & ?).
    done. }
  split.
  { intros vec Hmiss Herr Hv Hne Hw. unfold Query.
    apply nonempty_length in Hne.
    rewrite Hmiss, Herr, Hv, Hne, Hw. reflexivity. }
  split.
  { intros out evs key v cost ttl H Hin.
    destruct (QueryRange_sets _ _ _ _ _ _ _ _ _ _ H Hin) as (? & ? & ? & _ & ? & ?).
    done. }
  split.
  { intros m hash Hmiss Herr Hv Hne Hw. unfold QueryRange.
    apply nonempty_length in Hne. fold hash.
    rewrite Hmiss, Herr, Hv, Hne, Hw. reflexivity. }
  split.
  - intros Hw Hmiss Herr. unfold Query. rewrite Hmiss, Herr.
    assert ((Z.of_nat (length (warnings api)) =? 0) = false) as Hw'.
    { destruct (Z.of_nat (length (warnings api)) =? 0) eqn:E; [|done].
      by apply no_warnings_length in E. }
    destruct (value api) as [[vec|m|f t|s t]|]; try done;
      by rewrite Hw', andb_false_r.
  - intros Hw Hmiss Herr. unfold QueryRange. rewrite Hmiss, Herr.
    assert ((Z.of_nat (length (warnings api)) =? 0) = false) as Hw'.
    { destruct (Z.of_nat (length (warnings api)) =? 0) eqn:E; [|done].
      by apply no_warnings_length in E. }
    destruct (value api) as [[vec|m|f t|s t]|]; try done;
      by rewrite Hw', andb_false_r.
Qed.

(** On a hit the stored result is handed back as it is, whatever its
    kind, and the backend is not asked. *)
Lemma Query_hit (store : gmap Z any) (api : Response) (q : string) (v : model.Value_) :
  store !! xxh q = Some (AnyValue v) →
  Query xxh store api q = Done (mkResponse (Some v) [] None, []).
Proof. intros H. unfold Query. by rewrite H. Qed.

Lemma QueryRange_hit (store : gmap Z any) (api : Response) (q : string) (r : Range)
    (v : model.Value_) :
  store !! xxh (q ++ Time_String (Start r) ++ Time_String (End_ r))%string
    = Some (AnyValue v) →
  QueryRange xxh Time_String store api q r = Done (mkResponse (Some v) [] None, []).
Proof. intros H. unfold QueryRange. by rewrite H. Qed.

(** C9, as the code has it: on a cache hit the stored backend result is
    returned unchanged with no warnings and no error, whatever its kind,
    without a call to the backend and without a panic, by both [Query]
    and [QueryRange]. *)
Theorem cache_hit_unchecked (store : gmap Z any) (api : Response) (q : string)
    (r : Range) (v : model.Value_) :
  (store !! xxh q = Some (AnyValue v) →
   Query xxh store api q = Done (mkResponse (Some v) [] None, [])) ∧
  (store !! xxh (q ++ Time_String (Start r) ++ Time_String (End_ r))%string
     = Some (AnyValue v) →
   QueryRange xxh Time_String store api q r = Done (mkResponse (Some v) [] None, [])).
Proof. split; [apply Query_hit|apply QueryRange_hit]. Qed.
End CacheFacts.

Lemma cache_admission_witness :
  cache.Query collidingHash ∅ upResponse "up"
    = Done (upResponse,
            [cache.BackendCall "up";
             cache.SetWithTTL 7%Z (Some upVector) 10%Z (5 * time.Minute)%Z]).
Proof.
  destruct (cache_admission collidingHash (λ _, EmptyString) ∅ upResponse "up"
              (mkRange 0%Z 0%Z 0%Z)) as (_ & Hadmit & _).
  exact (Hadmit [model.mkSample ∅ 1%float 0] eq_refl eq_refl eq_refl
           ltac:(discriminate) eq_refl).
Defined.

Lemma cache_hit_unchecked_witness :
  cache.Query collidingHash collidingStore upResponse "up"
    = Done (cache.mkResponse (Some cachedMatrix) [] None, []).
Proof.
  destruct (cache_hit_unchecked collidingHash (λ _, EmptyString) collidingStore
              upResponse "up" (mkRange 0%Z 0%Z 0%Z) cachedMatrix) as [Hq _].
  apply Hq. reflexivity.
Defined.

(** C9 as stated fails: a matrix stored under the key of an instant
    query is a hit; the backend is not asked. *)
Lemma cache_hit_not_a_miss :
  ¬ (∀ (store : gmap Z cache.any) (api : cache.Response) (q : string)
       (m : model.Matrix),
       store !! collidingHash q = Some (cache.AnyValue (model.ValMatrix m)) →
       ∃ out evs, cache.Query collidingHash store api q = Done (out, evs) ∧
                  cache.BackendCall q ∈ evs).
Proof.
  intros H.
  destruct (H collidingStore upResponse "up"%string _ eq_refl)
    as (out & evs & Hq & Hin).
  injection Hq as <- <-. by apply elem_of_nil in Hin.
Qed.

(** ** Status aggregator *)

Section StatusFacts.
Import status.
Variable Fingerprint : model.Metric → model.Fingerprint.
Variable range_order : gmap Z ObjectiveStatus → list (Z * ObjectiveStatus).
(** [range] visits every entry of the map exactly once. *)
Hypothesis range_order_perm : ∀ m, range_order m ≡ₚ map_to_list m.

Local Open Scope float_scope.

Let fp (s : model.Sample) : Z := Fingerprint (model.sample_Metric s).

Let initial (s : model.Sample) : ObjectiveStatus :=
  mkStatus (model.sample_Metric s) (mkAvailability 1 (model.sample_Value s) 0) zeroBudget.

Lemma fromTotals_untouched (v : model.Vector) (st : gmap Z ObjectiveStatus) (F : Z) :
  F ∉ fp <$> v → fromTotals Fingerprint v st !! F = st !! F.
Proof.
  revert st. induction v as [|a v IH]; intros st Hnot; [done|].
  simpl in *. apply not_elem_of_cons in Hnot as [Hne Hnot].
  rewrite IH by done. by rewrite lookup_insert_ne.
Qed.

Lemma fromTotals_lookup (v : model.Vector) (st : gmap Z ObjectiveStatus)
    (t : model.Sample) :
  NoDup (fp <$> v) → t ∈ v →
  fromTotals Fingerprint v st !! fp t = Some (initial t).
Proof.
  revert st t. induction v as [|a v IH]; intros st t Hnd Hin.
  { by apply elem_of_nil in Hin. }
  simpl in *. apply NoDup_cons in Hnd as [Hnot Hnd].
  apply elem_of_cons in Hin as [->|Hin].
  - rewrite fromTotals_untouched by done. by rewrite lookup_insert_eq.
  - by apply IH.
Qed.

Lemma fromTotals_inv (v : model.Vector) (st : gmap Z ObjectiveStatus) (F : Z)
    (s : ObjectiveStatus) :
  fromTotals Fingerprint v st !! F = Some s →
  (∃ t, t ∈ v ∧ fp t = F ∧ s = initial t) ∨ st !! F = Some s.
Proof.
  revert st. induction v as [|a v IH]; intros st H; [by right|].
  simpl in H. apply IH in H as [(t & Hin & Hfp & Hs)|H].
  - left. exists t. split; [by apply elem_of_cons; right|done].
  - destruct (decide (fp a = F)) as [Heq|Hne].
    + unfold fp in Heq. rewrite Heq, lookup_insert_eq in H. injection H as <-.
      left. exists a. split; [by apply elem_of_cons; left|done].
    + rewrite lookup_insert_ne in H by done. by right.
Qed.

Lemma fromTotals_dom (v : model.Vector) (st : gmap Z ObjectiveStatus)
    (t : model.Sample) :
  t ∈ v → is_Some (fromTotals Fingerprint v st !! fp t).
Proof.
  revert st t. induction v as [|a v IH]; intros st t Hin.
  { by apply elem_of_nil in Hin. }
  simpl. apply elem_of_cons in Hin as [->|Hin]; [|by apply IH].
  destruct (decide (fp a ∈ fp <$> v)) as [Hin|Hnot].
  - apply list_elem_of_fmap in Hin as (t & Heq & Hin). rewrite Heq. by apply IH.
  - rewrite fromTotals_untouched by done. rewrite lookup_insert_eq. eauto.
Qed.

(** The status an errors sample leaves behind. *)
Let charged (e : model.Sample) (s : ObjectiveStatus) : ObjectiveStatus :=
  mkStatus (Labels s)
    (mkAvailability (1 - model.sample_Value e / Total (Availability s))
       (Total (Availability s)) (model.sample_Value e))
    (Budget s).

Lemma withErrors_panics (ev : model.Vector) (st : gmap Z ObjectiveStatus)
    (e : model.Sample) :
  e ∈ ev → st !! fp e = None →
  withErrors Fingerprint ev st = Panic nil_dereference.
Proof.
  revert st e. induction ev as [|a ev IH]; intros st e Hin Hnone.
  { by apply elem_of_nil in Hin. }
  simpl. destruct (st !! Fingerprint (model.sample_Metric a)) as [s|] eqn:Ha; [|done].
  apply elem_of_cons in Hin as [->|Hin].
  - unfold fp in Hnone. by rewrite Hnone in Ha.
  - apply (IH _ e); [done|]. rewrite lookup_insert_ne; [done|].
    intros Heq. rewrite <- Heq in Hnone. by rewrite Hnone in Ha.
Qed.

Lemma withErrors_done (ev : model.Vector) (st : gmap Z ObjectiveStatus) :
  (∀ e, e ∈ ev → is_Some (st !! fp e)) →
  ∃ st', withErrors Fingerprint ev st = Done st'.
Proof.
  revert st. induction ev as [|a ev IH]; intros st Hall; [by eexists|].
  simpl. destruct (Hall a) as [s Hs]; [by apply elem_of_cons; left|].
  unfold fp in Hs. rewrite Hs. apply IH. intros e Hin.
  destruct (decide (fp a = fp e)) as [Heq|Hne].
  - unfold fp in Heq. rewrite Heq. rewrite lookup_insert_eq. eauto.
  - rewrite lookup_insert_ne by done. apply Hall. by apply elem_of_cons; right.
Qed.

Lemma withErrors_untouched (ev : model.Vector) (st st' : gmap Z ObjectiveStatus) (F : Z) :
  withErrors Fingerprint ev st = Done st' → F ∉ fp <$> ev → st' !! F = st !! F.
Proof.
  revert st. induction ev as [|a ev IH]; intros st H Hnot.
  { by injection H as <-. }
  simpl in *. apply not_elem_of_cons in Hnot as [Hne Hnot].
  destruct (st !! Fingerprint (model.sample_Metric a)) as [s|]; [|done].
  rewrite (IH _ H Hnot). by rewrite lookup_insert_ne.
Qed.

Lemma withErrors_lookup (ev : model.Vector) (st st' : gmap Z ObjectiveStatus)
    (e : model.Sample) (s : ObjectiveStatus) :
  withErrors Fingerprint ev st = Done st' → NoDup (fp <$> ev) → e ∈ ev →
  st !! fp e = Some s → st' !! fp e = Some (charged e s).
Proof.
  revert st e s. induction ev as [|a ev IH]; intros st e s H Hnd Hin Hs.
  { by apply elem_of_nil in Hin. }
  simpl in *. apply NoDup_cons in Hnd as [Hnot Hnd].
  destruct (st !! Fingerprint (model.sample_Metric a)) as [sa|] eqn:Ha; [|done].
  apply elem_of_cons in Hin as [->|Hin].
  - rewrite (withErrors_untouched _ _ _ _ H Hnot). rewrite lookup_insert_eq.
    unfold fp in Hs. rewrite Hs in Ha. by injection Ha as <-.
  - apply (IH _ e s H Hnd Hin). rewrite lookup_insert_ne; [done|].
    intros Heq. apply Hnot. apply list_elem_of_fmap. exists e. done.
Qed.

(** Charging errors keeps the keys, the labels, the totals and the
    budgets of the map. *)
Lemma withErrors_inv (ev : model.Vector) (st st' : gmap Z ObjectiveStatus) (F : Z)
    (s' : ObjectiveStatus) :
  withErrors Fingerprint ev st = Done st' → st' !! F = Some s' →
  ∃ s, st !! F = Some s ∧ Labels s' = Labels s ∧
       Total (Availability s') = Total (Availability s) ∧ Budget s' = Budget s.
Proof.
  revert st. induction ev as [|a ev IH]; intros st H Hs'.
  { injection H as <-. by exists s'. }
  simpl in H.
  destruct (st !! Fingerprint (model.sample_Metric a)) as [sa|] eqn:Ha; [|done].
  destruct (IH _ H Hs') as (s & Hs & HL & HT & HB).
  destruct (decide (Fingerprint (model.sample_Metric a) = F)) as [Heq|Hne].
  - rewrite Heq, lookup_insert_eq in Hs. injection Hs as <-.
    exists sa. rewrite <- Heq. done.
  - rewrite lookup_insert_ne in Hs by done. by exists s.
Qed.

Lemma collect_omap (target : float) (entries : list (Z * ObjectiveStatus))
    (acc : list ObjectiveStatus) :
  collect target entries acc = acc ++ omap (λ e, finish target (snd e)) entries.
Proof.
  revert acc. induction entries as [|[F s] entries IH]; intros acc; simpl.
  { by rewrite app_nil_r. }
  destruct (finish target s); rewrite IH; [|done]. by rewrite <- app_assoc.
Qed.

(** The emitted statuses are the finished entries of the map. *)
Lemma collect_elem (target : float) (st : gmap Z ObjectiveStatus) (s' : ObjectiveStatus) :
  s' ∈ collect target (range_order st) [] ↔
  ∃ F s, st !! F = Some s ∧ finish target s = Some s'.
Proof.
  rewrite collect_omap, app_nil_l, list_elem_of_omap. split.
  - intros ([F s] & Hin & Hf). rewrite range_order_perm in Hin.
    apply elem_of_map_to_list in Hin. by exists F, s.
  - intros (F & s & Hs & Hf). exists (F, s). split; [|done].
    rewrite range_order_perm. by apply elem_of_map_to_list.
Qed.

Lemma orOne_not_NaN (f : float) : IsNaN (orOne f) = false.
Proof. unfold orOne. by destruct (IsNaN f) eqn:E. Qed.

(** What the last loop makes of an entry it keeps. *)
Lemma finish_Some (target : float) (s s' : ObjectiveStatus) :
  finish target s = Some s' →
  let a := Availability s in
  PrimFloat.eqb (Total a) 0 = false ∧
  s' = mkStatus (Labels s)
         (mkAvailability (orOne (Percentage a)) (Total a) (Errors a))
         (mkBudget (1 - target)
            (orOne ((1 - target - Errors a / Total a) / (1 - target)))
            ((1 - target) * Total a)).
Proof.
  unfold finish. destruct (PrimFloat.eqb _ 0); [done|].
  intros [= <-]. done.
Qed.

Lemma finish_kept (target : float) (s : ObjectiveStatus) :
  PrimFloat.eqb (Total (Availability s)) 0 = false → is_Some (finish target s).
Proof. intros H. unfold finish. rewrite H. eauto. Qed.

(** C1, as the code has it: when every series of the errors vector has
    its fingerprint among the totals, the call answers 200 with a list in
    which no entry has total 0, no [Percentage] and no [Budget.Remaining]
    is NaN, [Budget.Total] is 1 - target, [Budget.Remaining] is
    (Budget.Total - Errors/Total) / Budget.Total with NaN replaced by 1 and
    [Budget.Max] is Budget.Total * Total, all in binary64 arithmetic; a
    totals series with non-zero total T and an errors series with value E
    under the same fingerprint yield an entry with [Percentage] 1 - E/T
    (NaN replaced by 1); for target 0.99, total 10000 and errors 50 that
    entry has [Percentage] 0.995, [Budget.Total] 0.010000000000000009,
    [Budget.Remaining] 0.50000000000000044 and [Budget.Max]
    100.00000000000009. *)
Theorem status_arithmetic (target : float) (totals errors : model.Vector) :
  (∀ e, e ∈ errors → ∃ t, t ∈ totals ∧ fp t = fp e) →
  ∃ out,
    GetObjectiveStatus Fingerprint range_order target
      (vectorResponse totals) (vectorResponse errors)
      = Done (mkImplResponse StatusOK (Some out), None) ∧
    (∀ s, s ∈ out →
       let a := Availability s in
       PrimFloat.eqb (Total a) 0 = false ∧
       IsNaN (Percentage a) = false ∧
       IsNaN (Remaining (Budget s)) = false ∧
       budget_Total (Budget s) = 1 - target ∧
       Remaining (Budget s)
         = orOne ((1 - target - Errors a / Total a) / (1 - target)) ∧
       Max (Budget s) = (1 - target) * Total a) ∧
    (∀ t e,
       NoDup (fp <$> totals) → NoDup (fp <$> errors) →
       t ∈ totals → e ∈ errors → fp t = fp e →
       PrimFloat.eqb (model.sample_Value t) 0 = false →
       ∃ s, s ∈ out ∧
         Labels s = model.sample_Metric t ∧
         Total (Availability s) = model.sample_Value t ∧
         Errors (Availability s) = model.sample_Value e ∧
         Percentage (Availability s)
           = orOne (1 - model.sample_Value e / model.sample_Value t) ∧
         (target = 0.99 → model.sample_Value t = 10000 →
          model.sample_Value e = 50 →
          Percentage (Availability s) = 0.995 ∧
          budget_Total (Budget s) = 0.010000000000000009 ∧
          Remaining (Budget s) = 0.50000000000000044 ∧
          Max (Budget s) = 100.00000000000009)).
Proof.
  intros Hsub.
  destruct (withErrors_done errors (fromTotals Fingerprint totals ∅)) as [st' Hst'].
  { intros e He. destruct (Hsub e He) as (t & Ht & Hfp). rewrite <- Hfp.
    by apply fromTotals_dom. }
  exists (collect target (range_order st') []).
  split; [unfold GetObjectiveStatus; simpl; by rewrite Hst'|].
  assert (∀ s, s ∈ collect target (range_order st') [] →
            let a := Availability s in
            PrimFloat.eqb (Total a) 0 = false ∧
            IsNaN (Percentage a) = false ∧
            IsNaN (Remaining (Budget s)) = false ∧
            budget_Total (Budget s) = 1 - target ∧
            Remaining (Budget s)
              = orOne ((1 - target - Errors a / Total a) / (1 - target)) ∧
            Max (Budget s) = (1 - target) * Total a) as Hall.
  { intros s Hs. apply collect_elem in Hs as (F & s0 & _ & Hfin).
    apply finish_Some in Hfin as [Hnz ->]. simpl.
    split; [done|]. split; [apply orOne_not_NaN|].
    split; [apply orOne_not_NaN|]. done. }
  split; [exact Hall|].
  intros t e Hndt Hnde Ht He Hfp Hnz.
  pose proof (fromTotals_lookup totals ∅ t Hndt Ht) as Hinit.
  rewrite Hfp in Hinit.
  pose proof (withErrors_lookup _ _ _ _ _ Hst' Hnde He Hinit) as Hch.
  destruct (finish_kept target (charged e (initial t)) Hnz) as [s Hfin].
  exists s. split; [apply collect_elem; eauto|].
  destruct (finish_Some _ _ _ Hfin) as [_ ->]. simpl.
  do 4 (split; [reflexivity|]).
  intros -> Ht10000 He50. rewrite Ht10000, He50. repeat split; reflexivity.
Qed.

(** C2 is what the code misses: a series of the errors vector whose
    fingerprint no series of the totals vector has makes the assignment
    through the nil map entry panic, and the call answers nothing. *)
Theorem orphan_errors_panic (target : float) (totals errors : model.Vector)
    (e : model.Sample) :
  e ∈ errors → (∀ t, t ∈ totals → fp t ≠ fp e) →
  GetObjectiveStatus Fingerprint range_order target
    (vectorResponse totals) (vectorResponse errors)
    = Panic nil_dereference.
Proof.
  intros He Hno. unfold GetObjectiveStatus. simpl.
  rewrite (withErrors_panics errors _ e He); [done|].
  rewrite fromTotals_untouched; [done|].
  intros Hin. apply list_elem_of_fmap in Hin as (t & Hfp & Ht).
  by apply (Hno t Ht).
Qed.
End StatusFacts.

Lemma map_to_list_range_order {V} (m : gmap Z V) : map_to_list m ≡ₚ map_to_list m.
Proof. reflexivity. Qed.

Lemma status_arithmetic_witness :
  ∃ out,
    status.GetObjectiveStatus oneFingerprint map_to_list 0.99
      (vectorResponse totals10000) (vectorResponse errors50)
      = Done (mkImplResponse StatusOK (Some out), None) ∧
    ∀ s, s ∈ out →
      IsNaN (status.Percentage (status.Availability s)) = false ∧
      status.budget_Total (status.Budget s) = (1 - 0.99)%float.
Proof.
  destruct (status_arithmetic oneFingerprint map_to_list map_to_list_range_order
              0.99 totals10000 errors50) as (out & Hrun & Hall & _).
  { intros e He. apply list_elem_of_singleton in He as ->.
    eexists. split; [by apply list_elem_of_singleton|reflexivity]. }
  exists out. split; [exact Hrun|].
  intros s Hs. destruct (Hall s Hs) as (_ & Hp & _ & Hb & _). done.
Defined.

(** C1 as stated fails on its own example: in binary64 the subtraction
    1 - 0.99 is not 0.01, and the remaining budget and the maximum move
    with it. *)
Lemma status_example_rounds :
  ∃ s,
    status.GetObjectiveStatus oneFingerprint map_to_list 0.99
      (vectorResponse totals10000) (vectorResponse errors50)
      = Done (mkImplResponse StatusOK (Some [s]), None) ∧
    status.Percentage (status.Availability s) = 0.995%float ∧
    status.budget_Total (status.Budget s) ≠ 0.01%float ∧
    status.Remaining (status.Budget s) ≠ 0.5%float ∧
    status.Max (status.Budget s) ≠ 100%float.
Proof.
  eexists. split; [vm_compute; reflexivity|]. simpl.
  split; [reflexivity|].
  repeat split; intros H; vm_compute in H; discriminate.
Qed.

Lemma orphan_errors_panic_witness :
  status.GetObjectiveStatus oneFingerprint map_to_list 0.99
    (vectorResponse []) (vectorResponse errors50)
    = Panic nil_dereference.
Proof.
  apply (orphan_errors_panic oneFingerprint map_to_list 0.99 [] errors50
           (model.mkSample jobApi 50%float 0)).
  - by apply list_elem_of_singleton.
  - intros t Ht. by apply elem_of_nil in Ht.
Defined.

(** ** Grouping merge of [GetObjectiveErrorBudget] *)

Section MergeFacts.
Import slo errorbudget.
Variable range_order : gset string → list string.

Lemma mergeRatio_nil (ms : list Matcher) (ind : Indicator) :
  Ratio ind = None → mergeRatio range_order ms ind = ind.
Proof. intros H. unfold mergeRatio. by rewrite H. Qed.

(** C5 is what the code misses: the latency branch takes the groupings
    from [objective.Indicator.Ratio] and not from the latency indicator;
    for an objective without ratio indicator that pointer is nil and the
    merge panics, and where both indicators are present the latency
    indicator's grouping list is left as it was. *)
Theorem latency_merge_reads_ratio (objective : Objective) (grouping : string)
    (ms : list Matcher) (l : LatencyIndicator) :
  grouping ≠ EmptyString →
  Latency (Indicator_ objective) = Some l →
  (Ratio (Indicator_ objective) = None →
   mergeGrouping range_order objective grouping (Ok ms) = Panic nil_dereference) ∧
  (∀ r, Ratio (Indicator_ objective) = Some r →
   ∃ objective' l',
     mergeGrouping range_order objective grouping (Ok ms) = Done (Ok objective') ∧
     Latency (Indicator_ objective') = Some l' ∧
     latency_Grouping l' = latency_Grouping l).
Proof.
  intros Hg Hl. unfold mergeGrouping.
  apply String.eqb_neq in Hg. rewrite Hg. split.
  - intros Hr. rewrite mergeRatio_nil by done.
    unfold mergeLatency. by rewrite Hl, Hr.
  - intros r Hr. unfold mergeRatio, mergeLatency. rewrite Hr.
    destruct (foldl ratioStep _ ms) as [r' groupings] eqn:Hfold. simpl.
    rewrite Hl.
    assert (∀ st, latency_Grouping (fst (foldl latencyStep st ms))
                  = latency_Grouping (fst st)) as Hkeep.
    { clear. induction ms as [|m ms IH]; intros st; [done|].
      simpl. rewrite IH. by destruct st. }
    specialize (Hkeep (l, toSet (remaining range_order groupings))).
    destruct (foldl latencyStep _ ms) as [l' groupings'] eqn:Hfold'. simpl.
    eexists _, l'. split; [reflexivity|]. split; [reflexivity|]. exact Hkeep.
Qed.
End MergeFacts.

Lemma latency_merge_reads_ratio_witness :
  errorbudget.mergeGrouping elements latencyOnly groupingJob (Ok [jobMatcher])
    = Panic nil_dereference.
Proof.
  destruct (latency_merge_reads_ratio elements latencyOnly groupingJob [jobMatcher] _
              ltac:(discriminate) eq_refl) as [Hpanic _].
  apply Hpanic. reflexivity.
Defined.

(** ** Burn-rate evaluator *)

Section BurnrateFacts.
Import burnrate burnrate_spec.
Variable promQuery : branch → string → cache.Response.
Variable Duration_String : time.Duration → string.
Variable name : string.

Local Open Scope Z_scope.

Lemma burnrateBody_spec (br : branch) (b : Burnrate) :
  burnrateBody promQuery br b
    = match oneSeries (promQuery br (Query b)) with
      | Some s => mkBurnrate (Window b) (model.sample_Value s) (Query b)
      | None => b
      end.
Proof.
  unfold burnrateBody, oneSeries.
  destruct (cache.err _); [done|].
  by destruct (cache.value _) as [[[|s [|]]| | |]|].
Qed.

Lemma stateBody_spec (short long : Z) :
  stateBody promQuery Duration_String name short long alertstateInactive
    = specState (promQuery BState (alertsQuery Duration_String name short long)).
Proof.
  unfold stateBody, specState, oneSeries.
  destruct (cache.err _); [done|].
  destruct (cache.value _) as [[[|s [|]]| | |]|]; try done.
  destruct (PrimFloat.eqb _ 1); [|done]. simpl.
  destruct (model.sample_Metric s !! "alertstate"%string) as [l|]; [|done]. simpl.
  destruct (String.eqb_spec l alertstateFiring) as [->|]; [done|].
  by destruct (String.eqb l alertstatePending).
Qed.

(** Every finished goroutine has counted the wait group down by one. *)
Lemma wg_foldl (s0 l0 : Z) (schedule : list branch) (st : fanout) :
  wg (foldl (run promQuery Duration_String name s0 l0) st schedule)
    = wg st - Z.of_nat (length schedule).
Proof.
  revert st. induction schedule as [|br schedule IH]; intros st; simpl; [lia|].
  rewrite IH. destruct br; simpl; lia.
Qed.

(** The goroutines write to different variables: every complete
    schedule leaves the same state behind. *)
Lemma run_complete (s0 l0 : Z) (schedule : list branch) (st : fanout) :
  complete schedule →
  foldl (run promQuery Duration_String name s0 l0) st schedule
    = mkFanout (burnrateBody promQuery BShort (short st))
        (burnrateBody promQuery BLong (long st))
        (stateBody promQuery Duration_String name s0 l0 (alertstate st))
        (wg st - 3).
Proof.
  unfold complete. intros Hperm.
  assert (NoDup schedule) as Hnd.
  { rewrite Hperm. apply (bool_decide_unpack _). by compute. }
  pose proof (Permutation_length Hperm) as Hlen.
  destruct schedule as [|a [|b [|c [|]]]]; try discriminate.
  apply NoDup_cons in Hnd as [Ha Hnd]. apply NoDup_cons in Hnd as [Hb _].
  destruct a, b, c;
    try (exfalso; apply Ha; by repeat constructor);
    try (exfalso; apply Hb; by repeat constructor);
    simpl; f_equal; lia.
Qed.

(** Three different goroutines are all of them. *)
Lemma NoDup_complete (schedule : list branch) :
  NoDup schedule → length schedule = 3%nat → complete schedule.
Proof.
  intros Hnd Hlen. destruct schedule as [|a [|b [|c [|]]]]; try discriminate.
  apply NoDup_cons in Hnd as [Ha Hnd]. apply NoDup_cons in Hnd as [Hb _].
  unfold complete.
  destruct a, b, c;
    try (exfalso; apply Ha; by repeat constructor);
    try (exfalso; apply Hb; by repeat constructor);
    apply (bool_decide_unpack _); by compute.
Qed.

Lemma evalRule_complete (schedule : list branch) (ba : BaseAlert) :
  complete schedule →
  evalRule promQuery Duration_String name schedule ba
    = Some (specAlert promQuery Duration_String name ba).
Proof.
  intros Hc. unfold evalRule. rewrite run_complete by done.
  unfold assemble, start, specAlert. simpl.
  rewrite !burnrateBody_spec, stateBody_spec. simpl.
  unfold specCurrent.
  by destruct (oneSeries (promQuery BShort _)), (oneSeries (promQuery BLong _)).
Qed.

Lemma evalRules_complete (schedules : list (list branch)) (baseAlerts : list BaseAlert)
    (alerts : list MultiBurnrateAlert) :
  Forall complete schedules → length schedules = length baseAlerts →
  evalRules promQuery Duration_String name schedules baseAlerts alerts
    = Some (alerts ++ (specAlert promQuery Duration_String name <$> baseAlerts)).
Proof.
  revert schedules alerts.
  induction baseAlerts as [|ba rest IH]; intros schedules alerts Hall Hlen.
  { destruct schedules; simpl; by rewrite app_nil_r. }
  destruct schedules as [|schedule schedules]; [done|].
  apply Forall_cons in Hall as [Hc Hall]. simpl.
  rewrite evalRule_complete by done.
  rewrite IH by (simpl in Hlen; auto with lia). by rewrite <- app_assoc.
Qed.

(** C4: a rule's alert is assembled only once each of the three
    goroutines has finished; in whatever order they finish, the call answers 200 with
    one alert per rule whose windows are in milliseconds, whose
    [short.current] and [long.current] are the value of the single series
    of the branch's answer and -1 when the branch failed or answered in
    another shape, and whose state is pending or firing only when the
    ALERTS query answered exactly one series with value 1 carrying that
    [alertstate] label, inactive otherwise. *)
Theorem burnrate_fanout (schedules : list (list branch)) (baseAlerts : list BaseAlert) :
  Forall complete schedules → length schedules = length baseAlerts →
  (∀ schedule ba,
     NoDup schedule →
     is_Some (evalRule promQuery Duration_String name schedule ba) →
     complete schedule) ∧
  GetMultiBurnrateAlerts promQuery Duration_String name schedules baseAlerts
    = Some (mkImplResponse StatusOK
              (Some (specAlert promQuery Duration_String name <$> baseAlerts)),
            None) ∧
  (∀ ba a, a = specAlert promQuery Duration_String name ba →
     Window (Short a) = base_Short ba ÷ 1000000 ∧
     Window (Long a) = base_Long ba ÷ 1000000 ∧
     (oneSeries (promQuery BShort (QueryShort ba)) = None →
        Current (Short a) = (-1)%float) ∧
     (oneSeries (promQuery BLong (QueryLong ba)) = None →
        Current (Long a) = (-1)%float) ∧
     (State a ≠ alertstateInactive →
        ∃ s, oneSeries (promQuery BState
                          (alertsQuery Duration_String name
                             (Window (Short a)) (Window (Long a)))) = Some s ∧
             PrimFloat.eqb (model.sample_Value s) 1 = true ∧
             model.sample_Metric s !! "alertstate"%string = Some (State a) ∧
             (State a = alertstatePending ∨ State a = alertstateFiring))).
Proof.
  intros Hall Hlen. split; [|split].
  - intros schedule ba Hnd [a Ha]. unfold evalRule, assemble in Ha.
    rewrite wg_foldl in Ha. simpl in Ha.
    destruct (3 - Z.of_nat (length schedule) =? 0) eqn:E; [|done].
    apply NoDup_complete; [done|lia].
  - unfold GetMultiBurnrateAlerts. by rewrite evalRules_complete.
  - intros ba a ->. unfold specAlert. simpl.
    split; [done|]. split; [done|].
    unfold specCurrent.
    split; [by intros ->|]. split; [by intros ->|].
    unfold specState.
    destruct (oneSeries _) as [s|]; [|done].
    destruct (PrimFloat.eqb _ 1) eqn:Hone; [|done].
    destruct (model.sample_Metric s !! "alertstate"%string) as [l|] eqn:Hl; [|done].
    destruct (String.eqb_spec l alertstateFiring) as [->|].
    { intros _. exists s. auto. }
    destruct (String.eqb_spec l alertstatePending) as [->|]; [|done].
    intros _. exists s. auto.
Qed.
End BurnrateFacts.

Lemma burnrate_fanout_witness :
  burnrate.GetMultiBurnrateAlerts shortFails (λ _, "5m"%string) "api-errors"
    [[burnrate.BState; burnrate.BShort; burnrate.BLong]] [pageRule]
  = Some (mkImplResponse StatusOK
            (Some [burnrate.mkAlert "critical" 120000 14%float
                     (burnrate.mkBurnrate 300000 (-1)%float "short_burnrate")
                     (burnrate.mkBurnrate 3600000 2.5%float "long_burnrate")
                     "firing"]),
          None).
Proof.
  destruct (burnrate_fanout shortFails (λ _, "5m"%string) "api-errors"
              [[burnrate.BState; burnrate.BShort; burnrate.BLong]] [pageRule])
    as (_ & Hrun & _).
  - apply Forall_cons. split; [|apply Forall_nil_2].
    unfold burnrate_spec.complete.
    etrans; [apply Permutation_swap|]. apply Permutation_skip. apply Permutation_swap.
  - reflexivity.
  - exact Hrun.
Defined.

(** ** [float64] of an integer *)

Module float64facts.
Import SpecFloat.
Local Open Scope Z_scope.

Lemma digits_size (p : positive) : digits2_pos p = Pos.size p.
Proof. induction p; simpl; congruence. Qed.

Lemma digits_log2 (p : positive) : Zpos (digits2_pos p) = Z.succ (Z.log2 (Zpos p)).
Proof.
  rewrite digits_size.
  destruct p; simpl; try reflexivity; rewrite Pos2Z.inj_succ; reflexivity.
Qed.

Lemma iter_xO_Z (p k : positive) : Zpos (Pos.iter xO p k) = Zpos p * 2 ^ Zpos k.
Proof.
  revert p. induction k using Pos.peano_ind; intros p.
  - simpl. lia.
  - rewrite Pos.iter_succ, Pos2Z.inj_xO, IHk, Pos2Z.inj_succ, Z.pow_succ_r by lia. lia.
Qed.

Lemma digits_iter_xO (p k : positive) :
  digits2_pos (Pos.iter xO p k) = (digits2_pos p + k)%positive.
Proof.
  induction k using Pos.peano_ind.
  - simpl. lia.
  - rewrite Pos.iter_succ. simpl. rewrite IHk. lia.
Qed.

(** An integer of at most 53 bits is rounded to itself: the mantissa is
    the integer shifted to 53 bits. *)
Lemma binary_round_small (sx : bool) (p : positive) :
  Zpos (digits2_pos p) ≤ 53 →
  ∃ m, binary_round prec emax sx p 0 = S754_finite sx m (Zpos (digits2_pos p) - 53) ∧
       Zpos m = Zpos p * 2 ^ (53 - Zpos (digits2_pos p)).
Proof.
  intros Hd. unfold binary_round.
  assert (fexp prec emax (Zpos (digits2_pos p) + 0) = Zpos (digits2_pos p) - 53) as ->.
  { unfold fexp, emin, prec, emax. lia. }
  unfold shl_align.
  assert (∀ mz, digits2_pos mz = 53%positive →
     binary_round_aux prec emax sx (Zpos mz) (Zpos (digits2_pos p) - 53) loc_Exact
       = S754_finite sx mz (Zpos (digits2_pos p) - 53)) as Haux.
  { intros mz Hmz. unfold binary_round_aux, shr_fexp. cbn [Zdigits2]. rewrite Hmz.
    match goal with |- context [shr _ _ ?n] =>
      replace n with 0 by (unfold fexp, emin, prec, emax; lia) end.
    cbn [shr shr_record_of_loc shr_m shr_r shr_s round_nearest_even
         loc_of_shr_record Zdigits2].
    rewrite Hmz.
    match goal with |- context [shr _ _ ?n] =>
      replace n with 0 by (unfold fexp, emin, prec, emax; lia) end.
    cbn [shr shr_record_of_loc shr_m].
    match goal with |- context [?a <=? ?b] =>
      replace (a <=? b) with true
        by (symmetry; apply Z.leb_le; unfold emax, prec; lia) end.
    reflexivity. }
  destruct (Zpos (digits2_pos p) - 53 - 0) as [|d|d] eqn:Hsub; try lia.
  - exists p. assert (Zpos (digits2_pos p) - 53 = 0) as Hz by lia.
    rewrite Hz in Haux |- *. split.
    + apply Haux. lia.
    + replace (53 - Zpos (digits2_pos p)) with 0 by lia. lia.
  - exists (Pos.iter xO p d). split.
    + apply Haux. rewrite digits_iter_xO. lia.
    + rewrite iter_xO_Z. f_equal. f_equal. lia.
Qed.

Lemma SFcompare_small (a b : positive) :
  Zpos (digits2_pos a) ≤ 53 → Zpos (digits2_pos b) ≤ 53 → (a < b)%positive →
  SFcompare (binary_round prec emax false a 0) (binary_round prec emax false b 0)
    = Some Lt ∧
  SFcompare (binary_round prec emax true b 0) (binary_round prec emax true a 0)
    = Some Lt.
Proof.
  intros Ha Hb Hlt.
  destruct (binary_round_small false a Ha) as (ma & -> & Hma).
  destruct (binary_round_small false b Hb) as (mb & -> & Hmb).
  destruct (binary_round_small true a Ha) as (ma' & -> & Hma').
  destruct (binary_round_small true b Hb) as (mb' & -> & Hmb').
  assert (Z.log2 (Zpos a) ≤ Z.log2 (Zpos b)) as Hlog by (apply Z.log2_le_mono; lia).
  rewrite !digits_log2 in *.
  assert (0 < 2 ^ (53 - Z.succ (Z.log2 (Zpos b)))) by (apply Z.pow_pos_nonneg; lia).
  cbn [SFcompare]. change (Pos.compare_cont Eq) with Pos.compare.
  rewrite (Z.compare_antisym (Z.succ (Z.log2 (Zpos a)) - 53)).
  destruct (Z.compare_spec (Z.succ (Z.log2 (Zpos a)) - 53)
              (Z.succ (Z.log2 (Zpos b)) - 53)) as [He|He|He]; try lia;
    cbn [CompOpp]; [|done].
  assert (Z.log2 (Zpos a) = Z.log2 (Zpos b)) as Heq by lia.
  rewrite Heq in *.
  rewrite (Pos.compare_antisym ma' mb').
  rewrite (proj2 (Pos.compare_lt_iff ma mb)) by nia.
  rewrite (proj2 (Pos.compare_lt_iff ma' mb')) by nia.
  done.
Qed.

Lemma small_digits (p : positive) : Zpos p < 2 ^ 53 → Zpos (digits2_pos p) ≤ 53.
Proof.
  intros H. rewrite digits_log2.
  assert (Z.log2 (Zpos p) < 53) by (apply Z.log2_lt_pow2; lia). lia.
Qed.

Lemma Prim2SF_float64 (x : Z) :
  matrix_spec.exact x → Prim2SF (matrix.float64 x) = matrix_spec.spec64 x.
Proof.
  unfold matrix_spec.exact, matrix.float64. intros Hx.
  assert (Uint63.wB = 2 ^ 63) as HwB by reflexivity.
  destruct x as [|p|p].
  - reflexivity.
  - change (Zpos p <? 0) with false. cbv iota.
    rewrite of_uint63_spec, Uint63.of_Z_spec, Z.mod_small by lia. reflexivity.
  - change (Zneg p <? 0) with true. cbv iota.
    rewrite opp_spec, of_uint63_spec, Uint63.of_Z_spec.
    change (- Zneg p) with (Zpos p). rewrite Z.mod_small by lia.
    cbn [binary_normalize matrix_spec.spec64].
    destruct (binary_round_small false p) as (m & -> & Hm); [apply small_digits; lia|].
    destruct (binary_round_small true p) as (m' & -> & Hm'); [apply small_digits; lia|].
    cbn [SFopp negb]. f_equal. lia.
Qed.

Lemma spec64_lt (a b : Z) :
  matrix_spec.exact a → matrix_spec.exact b → a < b →
  SFcompare (matrix_spec.spec64 a) (matrix_spec.spec64 b) = Some Lt.
Proof.
  unfold matrix_spec.exact. intros Ha Hb Hlt.
  destruct a as [|pa|pa], b as [|pb|pb]; try lia; cbn [matrix_spec.spec64].
  - destruct (binary_round_small false pb) as (m & -> & _); [apply small_digits; lia|done].
  - destruct (binary_round_small false pa) as (ma & Ea & _); [apply small_digits; lia|].
    destruct (binary_round_small false pb) as (mb & Eb & _); [apply small_digits; lia|].
    apply SFcompare_small; [apply small_digits; lia..|lia].
  - destruct (binary_round_small true pa) as (m & -> & _); [apply small_digits; lia|done].
  - destruct (binary_round_small true pa) as (ma & -> & _); [apply small_digits; lia|].
    destruct (binary_round_small false pb) as (mb & -> & _); [apply small_digits; lia|done].
  - apply SFcompare_small; [apply small_digits; lia..|lia].
Qed.

(** On the exact range [float64] preserves and reflects the order. *)
Lemma float64_ltb (a b : Z) :
  matrix_spec.exact a → matrix_spec.exact b →
  PrimFloat.ltb (matrix.float64 a) (matrix.float64 b) = (a <? b).
Proof.
  intros Ha Hb.
  assert (∀ x y, matrix_spec.exact x → matrix_spec.exact y → x < y →
            PrimFloat.ltb (matrix.float64 x) (matrix.float64 y) = true) as Hlt.
  { intros x y Hx Hy Hxy. rewrite ltb_spec, !Prim2SF_float64 by done.
    unfold SFltb. by rewrite spec64_lt. }
  destruct (Z.ltb_spec a b) as [Hab|Hab]; [by apply Hlt|].
  destruct (Z.eq_dec a b) as [->|Hne]; [apply floatorder.ltb_irrefl|].
  apply floatorder.ltb_asym, Hlt; [done..|lia].
Qed.
End float64facts.

(** ** The sort, on the list of columns *)

Section SortFacts.
Import matrix_spec.
Context {A : Type} (lt : A → A → bool).

Lemma length_sinkL (j : nat) (E : list A) : length (sinkL lt j E) = length E.
Proof.
  revert E. induction j as [|j IH]; intros E; simpl; [done|].
  destruct (E !! S j) as [a|]; [|done]. destruct (E !! j) as [b|]; [|done].
  destruct (lt a b); [|done]. by rewrite IH, !length_insert.
Qed.

Lemma length_insR (x : A) (rp : list A) : length (insR lt x rp) = S (length rp).
Proof. induction rp as [|b rp IH]; simpl; [done|]. destruct (lt x b); simpl; auto. Qed.

Lemma insR_perm (x : A) (rp : list A) : insR lt x rp ≡ₚ x :: rp.
Proof.
  induction rp as [|b rp IH]; simpl; [done|].
  destruct (lt x b); [|done]. rewrite IH. apply Permutation_swap.
Qed.

(** Sinking the element behind a prefix is inserting it into the
    reversed prefix. *)
Lemma sinkL_insR (rp : list A) (x : A) (post : list A) :
  sinkL lt (length rp) (reverse rp ++ x :: post) = reverse (insR lt x rp) ++ post.
Proof.
  revert post. induction rp as [|b rp IH]; intros post; [done|].
  cbn [length sinkL insR].
  rewrite reverse_cons, <- app_assoc. cbn [app].
  assert ((reverse rp ++ b :: x :: post) !! S (length rp) = Some x) as ->.
  { rewrite lookup_app_r by (rewrite length_reverse; lia).
    rewrite length_reverse. by replace (S (length rp) - length rp) with 1 by lia. }
  assert ((reverse rp ++ b :: x :: post) !! length rp = Some b) as ->.
  { apply list_lookup_middle. by rewrite length_reverse. }
  destruct (lt x b).
  - assert (<[S (length rp) := b]> (<[length rp := x]> (reverse rp ++ b :: x :: post))
            = reverse rp ++ x :: b :: post) as ->.
    { rewrite !insert_app_r_alt by (rewrite length_reverse; lia).
      rewrite length_reverse, Nat.sub_diag.
      by replace (S (length rp) - length rp) with 1 by lia. }
    rewrite IH, reverse_cons, <- app_assoc. done.
  - rewrite !reverse_cons, <- !app_assoc. done.
Qed.

Lemma foldl_sinkL (rest rp : list A) :
  foldl (λ E i, sinkL lt i E) (reverse rp ++ rest) (seq (length rp) (length rest))
    = reverse (foldl (λ rp x, insR lt x rp) rp rest).
Proof.
  revert rp. induction rest as [|x rest IH]; intros rp; simpl.
  { by rewrite app_nil_r. }
  rewrite sinkL_insR. rewrite <- IH, length_insR. done.
Qed.

Lemma sortL_insR (E : list A) :
  sortL lt E = reverse (foldl (λ rp x, insR lt x rp) [] E).
Proof.
  unfold sortL. destruct E as [|x rest]; [done|].
  simpl. rewrite Nat.sub_0_r. apply (foldl_sinkL rest [x]).
Qed.

Lemma sortL_perm (E : list A) : sortL lt E ≡ₚ E.
Proof.
  rewrite sortL_insR, reverse_Permutation.
  assert (∀ rest rp, foldl (λ rp x, insR lt x rp) rp rest ≡ₚ rp ++ rest) as H.
  { induction rest as [|x rest IH]; intros rp; simpl; [by rewrite app_nil_r|].
    rewrite IH, insR_perm. simpl. apply Permutation_middle. }
  apply (H E []).
Qed.

(** Sortedness, where [lt] is the order of integer keys. *)
Context (k : A → Z).

Lemma insR_sorted (x : A) (rp : list A) :
  (∀ b, b ∈ rp → lt x b = (k x <? k b)%Z) →
  k x ∉ k <$> rp →
  StronglySorted (λ a b, k b < k a)%Z rp →
  StronglySorted (λ a b, k b < k a)%Z (insR lt x rp).
Proof.
  induction rp as [|b rp IH]; intros Hlt Hfresh Hs; simpl.
  { repeat constructor. }
  apply StronglySorted_cons in Hs as [Hb Hs].
  apply not_elem_of_cons in Hfresh as [Hne Hfresh].
  rewrite Hlt by (by left).
  destruct (Z.ltb_spec (k x) (k b)) as [Hxb|Hxb].
  - apply StronglySorted_cons. split.
    + rewrite insR_perm. apply Forall_cons. split; [done|exact Hb].
    + apply IH; [|done..]. intros c Hc. apply Hlt. by right.
  - apply StronglySorted_cons. split.
    + apply Forall_cons. split; [lia|].
      eapply Forall_impl; [exact Hb|]. simpl. intros c Hc. lia.
    + by apply StronglySorted_cons.
Qed.

Lemma StronglySorted_reverse (R : relation A) (l : list A) :
  StronglySorted R l → StronglySorted (flip R) (reverse l).
Proof.
  induction 1 as [|x l Hs IH Hx]; [constructor|].
  rewrite reverse_cons. apply StronglySorted_app_2; [|done|repeat constructor].
  intros y z Hy Hz. apply list_elem_of_singleton in Hz as ->.
  rewrite Forall_forall in Hx. unfold flip. apply Hx. by apply elem_of_reverse.
Qed.

Lemma sortL_sorted (E : list A) :
  (∀ a b, a ∈ E → b ∈ E → lt a b = (k a <? k b)%Z) →
  NoDup (k <$> E) →
  StronglySorted (λ a b, k a < k b)%Z (sortL lt E).
Proof.
  intros Hlt Hnd. rewrite sortL_insR.
  apply (StronglySorted_reverse (λ a b, k b < k a)%Z).
  assert (∀ rest rp,
            (∀ a b, a ∈ rp ++ rest → b ∈ rp ++ rest → lt a b = (k a <? k b)%Z) →
            NoDup (k <$> rp ++ rest) →
            StronglySorted (λ a b, k b < k a)%Z rp →
            StronglySorted (λ a b, k b < k a)%Z
              (foldl (λ rp x, insR lt x rp) rp rest)) as H.
  { induction rest as [|x rest IH]; intros rp Hlt' Hnd' Hs; simpl; [done|].
    assert (insR lt x rp ++ rest ≡ₚ rp ++ x :: rest) as Hp.
    { rewrite insR_perm. simpl. apply Permutation_middle. }
    apply IH.
    - intros a b Ha Hb. apply Hlt'; by rewrite <- Hp.
    - by rewrite Hp.
    - rewrite fmap_app in Hnd'. apply NoDup_app in Hnd' as (_ & Hdisj & _).
      apply insR_sorted; [| |done].
      + intros b Hb. apply Hlt'; apply elem_of_app; [right; by left|by left].
      + intros Hin. apply (Hdisj _ Hin). simpl. by left. }
  apply (H E []); [done|done|constructor].
Qed.
End SortFacts.

(** ** Matrix transform *)

Section MatrixFacts.
Import matrix matrix_spec.

Local Open Scope float_scope.

Lemma at_fmap {B} (f : B → float) (E : list B) (i : nat) (a : B) :
  E !! i = Some a → at_ (f <$> E) i = f a.
Proof. intros H. unfold at_. apply nth_lookup_Some. by rewrite list_lookup_fmap, H. Qed.

Lemma insert_at_id (row : list float) (i : nat) : <[i := at_ row i]> row = row.
Proof.
  unfold at_. destruct (nth_lookup_or_length row i 0) as [H|H].
  - by apply list_insert_id.
  - by apply list_insert_ge.
Qed.

Lemma at_insert (row : list float) (i : nat) (x : float) :
  (i < length row)%nat → at_ (<[i := x]> row) i = x.
Proof. intros H. unfold at_. apply nth_lookup_Some. by apply list_lookup_insert_eq. Qed.

Lemma at_replicate (n i : nat) : at_ (replicate n 0) i = 0.
Proof.
  unfold at_. rewrite nth_lookup.
  destruct (replicate n 0 !! i) as [x|] eqn:H; [|done].
  by apply lookup_replicate in H as [-> _].
Qed.

Lemma fmap_at_seq (fs : list float) :
  (λ j, at_ fs j) <$> seq 0 (length fs) = fs.
Proof.
  apply list_eq. intros i. rewrite list_lookup_fmap.
  destruct (decide (i < length fs)%nat) as [Hlt|Hge].
  - rewrite lookup_seq_lt by done. simpl.
    destruct (lookup_lt_is_Some_2 fs i Hlt) as [x Hx].
    rewrite Hx. unfold at_. by rewrite (nth_lookup_Some _ _ _ _ Hx).
  - rewrite lookup_seq_ge by lia. simpl. symmetry. apply lookup_ge_None. lia.
Qed.

(** *** The sort on the table is the sort on its columns *)

Lemma Less_columns (series : nat) (E : list (Z * list float)) (i j : nat) a b :
  E !! i = Some a → E !! j = Some b →
  Less (columns series E) i j = entryLess a b.
Proof.
  intros Ha Hb. unfold Less, columns, entryLess.
  by rewrite (at_fmap _ _ _ _ Ha), (at_fmap _ _ _ _ Hb).
Qed.

Lemma swapRow_fmap {B} (f : B → float) (E : list B) (i j : nat) a b :
  E !! i = Some a → E !! j = Some b →
  swapRow i j (f <$> E) = f <$> <[i := b]> (<[j := a]> E).
Proof.
  intros Ha Hb. unfold swapRow.
  by rewrite (at_fmap _ _ _ _ Ha), (at_fmap _ _ _ _ Hb), !list_fmap_insert.
Qed.

Lemma Swap_columns (series : nat) (E : list (Z * list float)) (i j : nat) a b :
  E !! i = Some a → E !! j = Some b →
  Swap (columns series E) i j = columns series (<[i := b]> (<[j := a]> E)).
Proof.
  intros Ha Hb. unfold Swap, columns. rewrite fmap_cons.
  rewrite (swapRow_fmap _ _ _ _ _ _ Ha Hb). f_equal.
  rewrite <- list_fmap_compose. apply list_fmap_ext. intros k n _. simpl.
  apply (swapRow_fmap _ _ _ _ _ _ Ha Hb).
Qed.

Lemma sink_columns (series j : nat) (E : list (Z * list float)) :
  (j < length E)%nat →
  sink j (columns series E) = columns series (sinkL entryLess j E).
Proof.
  revert E. induction j as [|j IH]; intros E Hj; [done|].
  destruct (lookup_lt_is_Some_2 E (S j) Hj) as [a Ha].
  destruct (lookup_lt_is_Some_2 E j) as [b Hb]; [lia|].
  cbn [sink sinkL]. rewrite Ha, Hb, (Less_columns _ _ _ _ _ _ Ha Hb).
  destruct (entryLess a b); [|done].
  rewrite (Swap_columns _ _ _ _ _ _ Ha Hb). apply IH.
  rewrite !length_insert. lia.
Qed.

Lemma Sort_columns (series : nat) (E : list (Z * list float)) :
  Sort (columns series E) = columns series (sortL entryLess E).
Proof.
  unfold Sort, sortL.
  assert (Len (columns series E) = length E) as ->
    by (unfold Len, columns; apply length_fmap).
  assert (∀ (js : list nat) E,
            Forall (λ j, j < length E)%nat js →
            foldl (λ v i, sink i v) (columns series E) js
              = columns series (foldl (λ E i, sinkL entryLess i E) E js)) as H.
  { clear E. induction js as [|j js IH]; intros E Hjs; [done|].
    apply Forall_cons in Hjs as [Hj Hjs]. simpl.
    rewrite sink_columns by done. apply IH.
    by rewrite length_sinkL. }
  apply H. apply Forall_forall. intros j Hj. apply elem_of_seq in Hj. lia.
Qed.

(** *** The rows collected per second *)

Lemma put_lookup (series i : nat) (pairs : gmap Z (list float))
    (pair : model.SamplePair) (t : Z) :
  put series i pairs pair !! t
    = match pairs !! t with
      | Some row => Some (<[i := cellFrom t (at_ row i) [pair]]> row)
      | None =>
        if bool_decide ((model.Timestamp pair ÷ 1000)%Z = t)
        then Some (<[i := cellFrom t 0 [pair]]> (replicate series 0))
        else None
      end.
Proof.
  unfold put, cellFrom. cbn [foldl].
  destruct (decide ((model.Timestamp pair ÷ 1000)%Z = t)) as [Heq|Hne].
  - rewrite Heq, Z.eqb_refl, bool_decide_eq_true_2 by done. cbn [andb].
    destruct (pairs !! t) as [row|] eqn:Hrow.
    + destruct (IsNaN (model.Value pair)); cbn [negb].
      * by rewrite Hrow, insert_at_id.
      * by rewrite lookup_alter_eq, Hrow.
    + destruct (IsNaN (model.Value pair)); cbn [negb].
      * rewrite lookup_insert_eq. f_equal. symmetry.
        rewrite <- (at_replicate series i) at 1. apply insert_at_id.
      * by rewrite lookup_alter_eq, lookup_insert_eq.
  - assert (((model.Timestamp pair ÷ 1000)%Z =? t)%Z = false) as ->
      by (by apply Z.eqb_neq).
    rewrite bool_decide_eq_false_2 by done. cbn [andb].
    assert (∀ p' : gmap Z (list float),
              (if IsNaN (model.Value pair) then p'
               else alter (λ row, <[i := model.Value pair]> row)
                      (model.Timestamp pair ÷ 1000)%Z p') !! t = p' !! t) as Hskip.
    { intros p'. destruct (IsNaN _); [done|]. by rewrite lookup_alter_ne. }
    rewrite Hskip.
    destruct (pairs !! (model.Timestamp pair ÷ 1000)%Z);
      rewrite ?lookup_insert_ne by done;
      destruct (pairs !! t); by rewrite ?insert_at_id.
Qed.

Lemma put_rowsOK (series i : nat) (pairs : gmap Z (list float))
    (pair : model.SamplePair) :
  rowsOK series pairs → rowsOK series (put series i pairs pair).
Proof.
  intros Hok t row. rewrite put_lookup.
  destruct (pairs !! t) as [row0|] eqn:Hrow.
  - intros [= <-]. rewrite length_insert. by apply (Hok t).
  - case_bool_decide; [|done]. intros [= <-].
    by rewrite length_insert, length_replicate.
Qed.

Lemma foldl_put_rowsOK (series i : nat) (ps : list model.SamplePair)
    (pairs : gmap Z (list float)) :
  rowsOK series pairs → rowsOK series (foldl (put series i) pairs ps).
Proof.
  revert pairs. induction ps as [|p ps IH]; intros pairs Hok; [done|].
  simpl. by apply IH, put_rowsOK.
Qed.

Lemma cellFrom_cons (t : Z) (acc : float) (p : model.SamplePair)
    (ps : list model.SamplePair) :
  cellFrom t acc (p :: ps) = cellFrom t (cellFrom t acc [p]) ps.
Proof. done. Qed.

Lemma cellFrom_absent (t : Z) (acc : float) (ps : list model.SamplePair) :
  t ∉ (λ pair, (model.Timestamp pair ÷ 1000)%Z) <$> ps → cellFrom t acc ps = acc.
Proof.
  revert acc. induction ps as [|p ps IH]; intros acc Hnot; [done|].
  rewrite fmap_cons in Hnot. apply not_elem_of_cons in Hnot as [Hne Hnot].
  rewrite cellFrom_cons, IH by done. unfold cellFrom. cbn [foldl].
  assert (((model.Timestamp p ÷ 1000)%Z =? t)%Z = false) as ->
    by (apply Z.eqb_neq; congruence).
  done.
Qed.

Lemma foldl_put_lookup (series i : nat) (ps : list model.SamplePair)
    (pairs : gmap Z (list float)) (t : Z) :
  (i < series)%nat → rowsOK series pairs →
  foldl (put series i) pairs ps !! t
    = match pairs !! t with
      | Some row => Some (<[i := cellFrom t (at_ row i) ps]> row)
      | None =>
        if bool_decide (t ∈ (λ pair, (model.Timestamp pair ÷ 1000)%Z) <$> ps)
        then Some (<[i := cellFrom t 0 ps]> (replicate series 0))
        else None
      end.
Proof.
  intros Hi. revert pairs. induction ps as [|p ps IH]; intros pairs Hok.
  { cbn [foldl]. destruct (pairs !! t) as [row|].
    - change (cellFrom t (at_ row i) []) with (at_ row i). by rewrite insert_at_id.
    - rewrite bool_decide_eq_false_2; [done|]. rewrite fmap_nil. apply not_elem_of_nil. }
  cbn [foldl]. rewrite IH by (by apply put_rowsOK). rewrite put_lookup.
  rewrite fmap_cons.
  destruct (pairs !! t) as [row|] eqn:Hrow.
  - rewrite at_insert by (by rewrite (Hok t row Hrow)).
    by rewrite list_insert_insert_eq.
  - set (sec := λ pair : model.SamplePair, (model.Timestamp pair ÷ 1000)%Z).
    destruct (decide (sec p = t)) as [Hp|Hp].
    + rewrite (bool_decide_eq_true_2 (sec p = t)) by done. cbv beta iota.
      rewrite at_insert by (by rewrite length_replicate).
      rewrite list_insert_insert_eq.
      rewrite (bool_decide_eq_true_2 (t ∈ sec p :: (sec <$> ps))); [done|].
      rewrite Hp. by left.
    + rewrite (bool_decide_eq_false_2 (sec p = t)) by done. cbv beta iota.
      rewrite (cellFrom_cons t 0 p ps).
      assert (cellFrom t 0 [p] = 0) as ->.
      { apply cellFrom_absent. intros Hin.
        apply list_elem_of_singleton in Hin. by apply Hp. }
      destruct (decide (t ∈ sec <$> ps)) as [Hin|Hnot].
      * rewrite (bool_decide_eq_true_2 (t ∈ sec <$> ps)) by done.
        rewrite (bool_decide_eq_true_2 (t ∈ sec p :: (sec <$> ps))); [done|].
        by right.
      * rewrite (bool_decide_eq_false_2 (t ∈ sec <$> ps)) by done.
        rewrite (bool_decide_eq_false_2 (t ∈ sec p :: (sec <$> ps))); [done|].
        intros Hin. apply elem_of_cons in Hin as [Heq|Hin]; [by apply Hp|done].
Qed.

Lemma seconds_cons (stream : model.SampleStream) (rest : model.Matrix) :
  seconds (stream :: rest)
    = ((λ pair, (model.Timestamp pair ÷ 1000)%Z) <$> model.Values stream)
      ++ seconds rest.
Proof. done. Qed.

Lemma collectPairs_rowsOK (series i : nat) (rest : model.Matrix)
    (pairs : gmap Z (list float)) :
  rowsOK series pairs → rowsOK series (collectPairs series i rest pairs).
Proof.
  revert i pairs. induction rest as [|stream rest IH]; intros i pairs Hok; [done|].
  simpl. by apply IH, foldl_put_rowsOK.
Qed.

Lemma collectPairs_lookup (series i : nat) (rest : model.Matrix)
    (pairs : gmap Z (list float)) (t : Z) :
  (i + length rest ≤ series)%nat → rowsOK series pairs →
  collectPairs series i rest pairs !! t
    = match pairs !! t with
      | Some row => Some (overlay t i rest row)
      | None =>
        if bool_decide (t ∈ seconds rest)
        then Some (overlay t i rest (replicate series 0))
        else None
      end.
Proof.
  revert i pairs. induction rest as [|stream rest IH]; intros i pairs Hi Hok.
  { cbn [collectPairs overlay]. destruct (pairs !! t); [done|].
    rewrite bool_decide_eq_false_2; [done|].
    change (seconds []) with (@nil Z). apply not_elem_of_nil. }
  cbn [collectPairs overlay]. cbn [length] in Hi.
  rewrite IH by (lia || by apply foldl_put_rowsOK).
  rewrite foldl_put_lookup by (lia || done).
  rewrite seconds_cons.
  set (sec := λ pair : model.SamplePair, (model.Timestamp pair ÷ 1000)%Z).
  destruct (pairs !! t) as [row|] eqn:Hrow; [done|].
  rewrite at_replicate.
  destruct (decide (t ∈ sec <$> model.Values stream)) as [Hin|Hnot].
  - rewrite (bool_decide_eq_true_2 (t ∈ sec <$> model.Values stream)) by done.
    rewrite (bool_decide_eq_true_2 (t ∈ _ ++ _)); [done|].
    apply elem_of_app. by left.
  - rewrite (bool_decide_eq_false_2 (t ∈ sec <$> model.Values stream)) by done.
    rewrite (cellFrom_absent t 0 (model.Values stream)) by done.
    assert (<[i := 0]> (replicate series 0) = replicate series 0) as ->.
    { rewrite <- (at_replicate series i) at 1. apply insert_at_id. }
    destruct (decide (t ∈ seconds rest)) as [Hin|Hnot'].
    + rewrite (bool_decide_eq_true_2 (t ∈ seconds rest)) by done.
      rewrite (bool_decide_eq_true_2 (t ∈ _ ++ _)); [done|].
      apply elem_of_app. by right.
    + rewrite (bool_decide_eq_false_2 (t ∈ seconds rest)) by done.
      rewrite (bool_decide_eq_false_2 (t ∈ _ ++ _)); [done|].
      intros Hin. apply elem_of_app in Hin as [Hin|Hin]; done.
Qed.

Lemma overlay_cells (t : Z) (rest : model.Matrix) (pre : list float) :
  overlay t (length pre) rest (pre ++ replicate (length rest) 0)
    = pre ++ (cell t <$> rest).
Proof.
  revert pre. induction rest as [|stream rest IH]; intros pre; [done|].
  cbn [overlay length replicate fmap list_fmap].
  assert (at_ (pre ++ 0 :: replicate (length rest) 0) (length pre) = 0) as ->
    by apply nth_middle.
  assert (<[length pre := cellFrom t 0 (model.Values stream)]>
            (pre ++ 0 :: replicate (length rest) 0)
          = (pre ++ [cell t stream]) ++ replicate (length rest) 0) as ->.
  { rewrite insert_app_r_alt by lia. rewrite Nat.sub_diag. cbn [insert list_insert].
    by rewrite <- app_assoc. }
  replace (S (length pre)) with (length (pre ++ [cell t stream]))
    by (rewrite length_app; simpl; lia).
  rewrite IH, <- app_assoc. done.
Qed.

(** The map built from the matrix: one row per second some sample
    falls in, holding every stream's cell of that second. *)
Lemma collectPairs_cells (m : model.Matrix) (t : Z) :
  collectPairs (length m) 0 m ∅ !! t
    = if bool_decide (t ∈ seconds m) then Some (cell t <$> m) else None.
Proof.
  rewrite collectPairs_lookup; [|simpl; lia|intros ? ?; by rewrite lookup_empty].
  rewrite lookup_empty.
  destruct (bool_decide (t ∈ seconds m)); [|done].
  f_equal. apply (overlay_cells t m []).
Qed.

Lemma size_collectPairs (m : model.Matrix) :
  size (collectPairs (length m) 0 m ∅) = size (list_to_set (seconds m) : gset Z).
Proof.
  rewrite <- size_dom. f_equal. apply set_eq. intros t.
  rewrite elem_of_dom, elem_of_list_to_set, collectPairs_cells.
  case_bool_decide as Hb; split.
  - by intros _.
  - intros _. eauto.
  - by intros [? ?].
  - done.
Qed.

(** Strictly ascending integers stay strictly ascending as floats. *)
Lemma ascending_sorted (E : list (Z * list float)) :
  StronglySorted (λ a b, fst a < fst b)%Z E →
  Forall (λ e, exact (fst e)) E →
  ascending ((λ e, float64 (fst e)) <$> E) = true.
Proof.
  induction 1 as [|a E Hs IH Ha]; intros Hex; [done|].
  apply Forall_cons in Hex as [Hxa Hex].
  destruct E as [|b E]; [done|].
  cbn [fmap list_fmap ascending]. apply andb_true_intro. split.
  - apply Forall_cons in Ha as [Hab _]. apply Forall_cons in Hex as [Hxb _].
    rewrite float64facts.float64_ltb by done. by apply Z.ltb_lt.
  - by apply IH.
Qed.

Lemma column_columns (series : nat) (E : list (Z * list float)) (i : nat)
    (t : Z) (fs : list float) :
  E !! i = Some (t, fs) → length fs = series →
  column (columns series E) i = float64 t :: fs.
Proof.
  intros Hi Hlen. unfold column, columns. rewrite fmap_cons.
  rewrite (at_fmap _ _ _ _ Hi). simpl. f_equal.
  rewrite <- list_fmap_compose. rewrite <- Hlen.
  etrans; [|apply (fmap_at_seq fs)].
  apply list_fmap_ext. intros k j _. simpl. by rewrite (at_fmap _ _ _ _ Hi).
Qed.
End MatrixFacts.

Section MatrixTransform.
Import matrix matrix_spec.
Variable range_order : gmap Z (list float) → list (Z * list float).
(** [range] visits every entry of the map exactly once. *)
Hypothesis range_order_perm : ∀ pairs, range_order pairs ≡ₚ map_to_list pairs.

Local Open Scope float_scope.

Lemma single_lossless (stream : model.SampleStream) :
  (∀ pair, pair ∈ model.Values stream → IsNaN (model.Value pair) = false) →
  single stream
    = [ (λ pair, float64 (model.Timestamp pair ÷ 1000)) <$> model.Values stream;
        model.Value <$> model.Values stream ].
Proof.
  intros Hnan. unfold single. do 2 f_equal.
  apply list_fmap_ext. intros i pair Hi. unfold orZero.
  rewrite Hnan; [done|]. by eapply list_elem_of_lookup_2.
Qed.

(** For several series the result is the table of the sorted columns. *)
Lemma several_columns (m : model.Matrix) :
  (1 < length m)%nat →
  matrixToValues range_order m
    = columns (length m)
        (sortL entryLess (range_order (collectPairs (length m) 0 m ∅))).
Proof.
  destruct m as [|s1 [|s2 rest]]; cbn [length]; try lia.
  intros _. unfold matrixToValues. apply Sort_columns.
Qed.

Lemma sorted_entries (m : model.Matrix) (t : Z) (fs : list float) :
  (t, fs) ∈ sortL entryLess (range_order (collectPairs (length m) 0 m ∅)) ↔
  t ∈ seconds m ∧ fs = cell t <$> m.
Proof.
  rewrite sortL_perm, range_order_perm, elem_of_map_to_list, collectPairs_cells.
  case_bool_decide as Hb; split.
  - by intros [= <-].
  - by intros [_ ->].
  - done.
  - by intros [? _].
Qed.

Lemma sorted_entries_length (m : model.Matrix) :
  length (sortL entryLess (range_order (collectPairs (length m) 0 m ∅)))
    = size (list_to_set (seconds m) : gset Z).
Proof.
  rewrite sortL_perm, range_order_perm, length_map_to_list.
  apply size_collectPairs.
Qed.

(** C3, as the code has it: one series gives the row of its timestamps
    in seconds (milliseconds divided by 1000, as [float64]) in the
    original order and the row of its values with NaN replaced by 0, the
    values unchanged when none is NaN; several series give one timestamp
    row and one row per series, every row as long as there are distinct
    seconds among the samples; every column holds one of these seconds
    and, for each series, the value of its last sample in that second that
    is not NaN, 0 when it has none, and every second has its column; and
    where every second is below 2^53 in magnitude the timestamp row is
    strictly ascending. *)
Theorem matrix_transform (m : model.Matrix) :
  (∀ stream, m = [stream] →
     matrixToValues range_order m
       = [ (λ pair, float64 (model.Timestamp pair ÷ 1000)) <$> model.Values stream;
           (λ pair, orZero (model.Value pair)) <$> model.Values stream ] ∧
     ((∀ pair, pair ∈ model.Values stream → IsNaN (model.Value pair) = false) →
      matrixToValues range_order m
        = [ (λ pair, float64 (model.Timestamp pair ÷ 1000)) <$> model.Values stream;
            model.Value <$> model.Values stream ])) ∧
  ((1 < length m)%nat →
     let out := matrixToValues range_order m in
     let n := size (list_to_set (seconds m) : gset Z) in
     length out = S (length m) ∧
     (∀ row, row ∈ out → length row = n) ∧
     (∀ i, (i < n)%nat →
        ∃ t, t ∈ seconds m ∧ column out i = float64 t :: (cell t <$> m)) ∧
     (∀ t, t ∈ seconds m →
        ∃ i, (i < n)%nat ∧ column out i = float64 t :: (cell t <$> m)) ∧
     (∀ t stream, t ∉ seconds [stream] → cell t stream = 0) ∧
     (Forall exact (seconds m) →
        ∃ row0, out !! 0%nat = Some row0 ∧ ascending row0 = true)).
Proof.
  split.
  { intros stream ->. split; [done|]. intros Hnan.
    change (matrixToValues range_order [stream]) with (single stream).
    by apply single_lossless. }
  intros Hm. cbv zeta. rewrite several_columns by done.
  set (E' := sortL entryLess (range_order (collectPairs (length m) 0 m ∅))).
  pose proof (sorted_entries_length m) as Hlen. fold E' in Hlen.
  assert (∀ i t fs, E' !! i = Some (t, fs) →
            t ∈ seconds m ∧
            column (columns (length m) E') i = float64 t :: (cell t <$> m)) as Hcol.
  { intros i t fs Hi.
    destruct (proj1 (sorted_entries m t fs)) as [Ht ->].
    { by eapply list_elem_of_lookup_2. }
    split; [done|]. apply (column_columns _ _ _ _ _ Hi). by rewrite length_fmap. }
  split; [|split; [|split; [|split; [|split]]]].
  - unfold columns. cbn [length]. by rewrite length_fmap, length_seq.
  - intros row Hrow. rewrite <- Hlen. unfold columns in Hrow.
    apply elem_of_cons in Hrow as [->|Hrow]; [by rewrite length_fmap|].
    apply list_elem_of_fmap in Hrow as (j & -> & _). by rewrite length_fmap.
  - intros i Hi. rewrite <- Hlen in Hi.
    destruct (lookup_lt_is_Some_2 E' i Hi) as [[t fs] Hlook].
    exists t. by apply (Hcol i t fs).
  - intros t Ht.
    assert ((t, cell t <$> m) ∈ E') as Hin by (by apply sorted_entries).
    apply list_elem_of_lookup in Hin as [i Hi]. exists i. split.
    + rewrite <- Hlen. by eapply lookup_lt_Some.
    + exact (proj2 (Hcol i t _ Hi)).
  - intros t stream Hnot. apply cellFrom_absent.
    by rewrite seconds_cons, app_nil_r in Hnot.
  - intros Hexact. eexists. split; [reflexivity|].
    assert (∀ e, e ∈ range_order (collectPairs (length m) 0 m ∅) → exact (fst e))
      as Hex.
    { intros [t fs] He. rewrite Forall_forall in Hexact. apply Hexact.
      apply (sorted_entries m t fs). unfold E'. by rewrite sortL_perm. }
    apply ascending_sorted.
    + apply sortL_sorted.
      * intros a b Ha Hb. unfold entryLess.
        apply float64facts.float64_ltb; by apply Hex.
      * rewrite range_order_perm. apply NoDup_fst_map_to_list.
    + apply Forall_forall. intros e He. apply Hex.
      unfold E' in He. by rewrite sortL_perm in He.
Qed.
End MatrixTransform.

Lemma matrix_transform_witness :
  let out := matrix.matrixToValues map_to_list [seriesA; seriesB] in
  length out = 3%nat ∧
  ∃ row0, out !! 0%nat = Some row0 ∧ matrix.ascending row0 = true.
Proof.
  destruct (matrix_transform map_to_list map_to_list_range_order [seriesA; seriesB])
    as [_ Hseveral].
  destruct Hseveral as (Hlen & _ & _ & _ & _ & Hasc); [simpl; lia|].
  split; [exact Hlen|]. apply Hasc.
  assert (matrix.seconds [seriesA; seriesB] = [3; 1; 2; 1; 4]%Z) as -> by reflexivity.
  repeat (apply Forall_cons; split; [unfold matrix_spec.exact; lia|]).
  apply Forall_nil_2.
Defined.

(** C3 as stated fails beyond 2^53 seconds: two samples one second apart
    get the same [float64] timestamp, and the timestamp row of the two
    columns is not strictly ascending. *)
Lemma far_timestamps_collide :
  let out := matrix.matrixToValues map_to_list [farA; farB] in
  size (list_to_set (matrix.seconds [farA; farB]) : gset Z) = 2%nat ∧
  ∃ row0, out !! 0%nat = Some row0 ∧ length row0 = 2%nat ∧
          matrix.ascending row0 = false.
Proof.
  split; [by vm_compute|]. eexists. split; [by vm_compute|]. by vm_compute.
Qed.

(** * Further properties *)

(** ** [RoundUp] *)

Section RoundUpFacts.
Import rounding.
Local Open Scope Z_scope.

Lemma RoundUp_cases (t : time.Time) (d : time.Duration) :
  0 < d →
  let r := (t + unixToInternal * time.Second) mod d in
  RoundUp t d = if r =? 0 then t else t + (d - r).
Proof.
  intros Hd. cbv zeta. unfold RoundUp, Round, Before, time.Add.
  pose proof (Z.mod_pos_bound (t + unixToInternal * time.Second) d Hd) as Hr.
  destruct (Z.leb_spec d 0); [lia|].
  set (r := (t + unixToInternal * time.Second) mod d) in *.
  destruct (Z.ltb_spec (r + r) d), (Z.eqb_spec r 0);
    repeat match goal with |- context [?a <? ?b] => destruct (Z.ltb_spec a b) end;
    lia.
Qed.

Lemma multiples_apart (a b d : Z) :
  0 < d → a mod d = 0 → b mod d = 0 → a ≤ b < a + d → a = b.
Proof.
  intros Hd Ha Hb Hab.
  apply Z.mod_divide in Ha as [x ->]; [|lia].
  apply Z.mod_divide in Hb as [y ->]; [|lia].
  assert (x = y) by nia. by subst.
Qed.

Lemma RoundUp_bounds (t : time.Time) (d : time.Duration) :
  0 < d →
  t ≤ RoundUp t d < t + d ∧
  (RoundUp t d + unixToInternal * time.Second) mod d = 0.
Proof.
  intros Hd. rewrite RoundUp_cases by done. cbv zeta.
  pose proof (Z.mod_pos_bound (t + unixToInternal * time.Second) d Hd) as Hr.
  set (a := t + unixToInternal * time.Second) in *.
  destruct (Z.eqb_spec (a mod d) 0) as [H0|Hne].
  - split; [lia|exact H0].
  - split; [lia|].
    replace (t + (d - a mod d) + unixToInternal * time.Second)
      with (a - a mod d + 1 * d) by lia.
    rewrite Z.mod_add by lia.
    rewrite Zminus_mod, Z.mod_mod, Z.sub_diag by lia. by apply Z.mod_0_l; lia.
Qed.

(** [RoundUp] never moves an instant back and moves it by less than
    [d]; the result lies on a multiple of [d], counted from the zero time
    and, for the five minutes of [GetObjectiveStatus], from the Unix
    epoch as well; a non-positive [d] leaves the instant alone. *)
Theorem RoundUp_next_multiple (t : time.Time) (d : time.Duration) :
  (0 < d →
     t ≤ RoundUp t d < t + d ∧
     (RoundUp t d + unixToInternal * time.Second) mod d = 0) ∧
  RoundUp t (5 * time.Minute) mod (5 * time.Minute) = 0 ∧
  (d ≤ 0 → RoundUp t d = t).
Proof.
  split; [apply RoundUp_bounds|]. split.
  - destruct (RoundUp_bounds t (5 * time.Minute)) as [_ H]; [done|].
    replace (unixToInternal * time.Second)
      with (207118656 * (5 * time.Minute)) in H by reflexivity.
    by rewrite Z.mod_add in H.
  - intros Hd. unfold RoundUp, Round, Before.
    destruct (Z.leb_spec d 0); [|lia]. by rewrite Z.ltb_irrefl.
Qed.

Lemma RoundUp_next_multiple_witness :
  0 < 5 * time.Minute ∧
  1700000123000000000 ≤ RoundUp 1700000123000000000 (5 * time.Minute)
    < 1700000123000000000 + 5 * time.Minute ∧
  (RoundUp 1700000123000000000 (5 * time.Minute)
     + unixToInternal * time.Second) mod (5 * time.Minute) = 0.
Proof.
  split; [done|].
  destruct (RoundUp_next_multiple 1700000123000000000 (5 * time.Minute))
    as (Hpos & _ & _).
  apply Hpos. done.
Defined.

(** Instants between an instant and its rounding round to the same
    timestamp: calls within one bucket query the same evaluation time. *)
Theorem RoundUp_stable (t u : time.Time) (d : time.Duration) :
  0 < d → t ≤ u ≤ RoundUp t d → RoundUp u d = RoundUp t d.
Proof.
  intros Hd Hu.
  destruct (RoundUp_bounds t d Hd) as [Ht Hmt].
  destruct (RoundUp_bounds u d Hd) as [Hu' Hmu].
  destruct (Z.le_gt_cases (RoundUp u d) (RoundUp t d)).
  - assert (RoundUp u d + unixToInternal * time.Second
            = RoundUp t d + unixToInternal * time.Second); [|lia].
    apply (multiples_apart _ _ d); [done..|lia].
  - assert (RoundUp t d + unixToInternal * time.Second
            = RoundUp u d + unixToInternal * time.Second); [|lia].
    apply (multiples_apart _ _ d); [done..|lia].
Qed.

Lemma RoundUp_stable_witness :
  RoundUp 1700000200000000000 (5 * time.Minute)
    = RoundUp 1700000123000000000 (5 * time.Minute).
Proof.
  apply RoundUp_stable; [done|].
  split; [done|]. by vm_compute.
Defined.
End RoundUpFacts.

(** ** Transport adapter: what [Do] leaves alone *)

Section DoMore.
Import thanos.
Variable ParseQuery : string → result Values.
Variable ParseFloat : string → result float.
Variable Encode : Values → string.

Local Open Scope float_scope.

(** Every form field other than [partial_response] and
    [max_source_resolution] reaches the backend with the values the
    caller sent, and the path is the caller's. *)
Theorem Do_keeps_fields (r r' : Request) (body : string) (q : Values) :
  Body r = Reader (Ok body) → ParseQuery body = Ok q →
  Do ParseQuery ParseFloat Encode r = Done (Ok r') →
  Path r' = Path r ∧
  ∃ form, Body r' = Reader (Ok (Encode form)) ∧
    ∀ k, k ≠ "partial_response"%string → k ≠ "max_source_resolution"%string →
         form !! k = q !! k.
Proof.
  intros Hbody Hq. unfold Do. rewrite Hbody, Hq.
  destruct (HasSuffix _ _).
  - destruct (ParseFloat _) as [s|]; [|discriminate].
    destruct (ParseFloat _) as [e|]; [|discriminate].
    destruct (2419200 <=? e - s); [|destruct (604800 <=? e - s)];
      intros [= <-]; (split; [done|]); eexists; (split; [reflexivity|]);
      intros k H1 H2; by rewrite ?lookup_Set_other.
  - intros [= <-]. split; [done|]. eexists. split; [reflexivity|].
    intros k H1 H2. by rewrite lookup_Set_other.
Qed.

(** The declared content length grows by the 23 bytes of
    [&partial_response=false], and by the 25 further bytes of the
    resolution hint exactly when the request is a range query spanning
    7 days or more; a request that is not a range query is forwarded
    whatever its [start] and [end] fields hold. *)
Theorem Do_content_length (r : Request) (body : string) (q : Values) :
  Body r = Reader (Ok body) → ParseQuery body = Ok q →
  (HasSuffix (Path r) "/api/v1/query_range" = false →
     Do ParseQuery ParseFloat Encode r
       = Done (Ok (mkRequest (Path r)
                     (Reader (Ok (Encode (Set_ q "partial_response" "false"))))
                     (ContentLength r + 23)))) ∧
  (∀ s e r',
     HasSuffix (Path r) "/api/v1/query_range" = true →
     ParseFloat (Get q "start") = Ok s → ParseFloat (Get q "end") = Ok e →
     Do ParseQuery ParseFloat Encode r = Done (Ok r') →
     ContentLength r'
       = (ContentLength r + 23 + if (604800 <=? e - s)%float then 25 else 0)%Z).
Proof.
  intros Hbody Hq. unfold Do. rewrite Hbody, Hq. split.
  - by intros ->.
  - intros s e r' -> Hs He. rewrite !Get_Set_other, Hs, He by discriminate.
    destruct (2419200 <=? e - s) eqn:H28.
    + assert ((604800 <=? e - s) = true) as ->
        by (apply (floatorder.leb_trans _ 2419200); [reflexivity|exact H28]).
      intros [= <-]. simpl. lia.
    + destruct (604800 <=? e - s); intros [= <-]; simpl; lia.
Qed.
End DoMore.

Lemma Do_keeps_fields_witness :
  ∃ r' (form : thanos.Values),
    thanos.Do (λ _, Ok thirtyDays) parseThirtyDays (λ _, EmptyString)
      (thanos.mkRequest "/api/v1/query_range"
         (thanos.Reader (Ok "query=up&start=0&end=2592000"%string)) 28)
      = Done (Ok r') ∧
    thanos.Body r' = thanos.Reader (Ok EmptyString) ∧
    form !! "query"%string = Some ["up"%string].
Proof.
  eexists.
  destruct (Do_keeps_fields (λ _, Ok thirtyDays) parseThirtyDays (λ _, EmptyString)
              (thanos.mkRequest "/api/v1/query_range"
                 (thanos.Reader (Ok "query=up&start=0&end=2592000"%string)) 28)
              _ _ thirtyDays eq_refl eq_refl eq_refl)
    as (_ & form & Hbody & Hkeep).
  exists form. split; [reflexivity|]. split; [exact Hbody|].
  by rewrite Hkeep.
Defined.

Lemma Do_content_length_witness :
  ∃ r',
    thanos.Do (λ _, Ok thirtyDays) parseThirtyDays (λ _, EmptyString)
      (thanos.mkRequest "/api/v1/query_range"
         (thanos.Reader (Ok "query=up&start=0&end=2592000"%string)) 28)
      = Done (Ok r') ∧
    thanos.ContentLength r' = 76%Z.
Proof.
  eexists. split; [reflexivity|].
  destruct (Do_content_length (λ _, Ok thirtyDays) parseThirtyDays (λ _, EmptyString)
              (thanos.mkRequest "/api/v1/query_range"
                 (thanos.Reader (Ok "query=up&start=0&end=2592000"%string)) 28)
              _ thirtyDays eq_refl eq_refl) as [_ Hrange].
  exact (Hrange 0%float 2592000%float _ eq_refl eq_refl eq_refl eq_refl).
Defined.

(** ** Query cache: failures and repeated queries *)

Section CacheMore.
Import cache cache_store.
Variable xxh : string → Z.
Variable Time_String : time.Time → string.

(** A failed backend call writes nothing to the cache: the caller gets
    no value, the backend's warnings and its error. *)
Theorem cache_failure_not_written (store : gmap Z any) (api : Response)
    (q : string) (r : Range) (e : error) :
  err api = Some e →
  (store !! xxh q = None →
   Query xxh store api q
     = Done (mkResponse None (warnings api) (Some e), [BackendCall q])) ∧
  (store !! xxh (q ++ Time_String (Start r) ++ Time_String (End_ r))%string = None →
   QueryRange xxh Time_String store api q r
     = Done (mkResponse None (warnings api) (Some e), [BackendCall q])).
Proof.
  intros He. unfold Query, QueryRange. split; intros ->; by rewrite He.
Qed.

(** Once the write of an admitted result has reached the cache, the same
    instant query is answered with that result, without warnings, and
    the backend is not asked, whatever it would answer now; the same
    holds for a range query with the same bounds. *)
Theorem cache_round_trip (store : gmap Z any) (api api' : Response) (q : string)
    (r : Range) (out : Response) (evs : list event) :
  (Query xxh store api q = Done (out, evs) →
   (∃ key v cost ttl, SetWithTTL key v cost ttl ∈ evs) →
   Query xxh (foldr accept store evs) api' q
     = Done (mkResponse (value api) [] None, [])) ∧
  (QueryRange xxh Time_String store api q r = Done (out, evs) →
   (∃ key v cost ttl, SetWithTTL key v cost ttl ∈ evs) →
   QueryRange xxh Time_String (foldr accept store evs) api' q r
     = Done (mkResponse (value api) [] None, [])).
Proof.
  split.
  - intros Hq (key & v & cost & ttl & Hin).
    destruct (Query_sets xxh _ _ _ _ _ _ _ _ _ Hq Hin)
      as ((vec & -> & Hne) & Hv & Hw & Herr & -> & -> & ->).
    unfold Query in Hq.
    destruct (store !! xxh q) as [[w|]|] eqn:Hs.
    { injection Hq as <- <-. by apply elem_of_nil in Hin. }
    { discriminate. }
    rewrite Herr, Hv in Hq. apply nonempty_length in Hne. rewrite Hne, Hw in Hq.
    injection Hq as <- <-. simpl. unfold Query.
    by rewrite lookup_insert_eq, Hv.
  - intros Hq (key & v & cost & ttl & Hin).
    destruct (QueryRange_sets xxh Time_String _ _ _ _ _ _ _ _ _ _ Hq Hin)
      as ((m & -> & Hne) & Hv & Hw & Herr & -> & ->).
    unfold QueryRange in Hq.
    destruct (store !! _) as [[w|]|] eqn:Hs.
    { injection Hq as <- <-. by apply elem_of_nil in Hin. }
    { discriminate. }
    rewrite Herr, Hv in Hq. apply nonempty_length in Hne. rewrite Hne, Hw in Hq.
    injection Hq as <- <-. simpl. unfold QueryRange.
    by rewrite lookup_insert_eq, Hv.
Qed.
End CacheMore.

Lemma cache_failure_not_written_witness :
  cache.Query collidingHash ∅
    (cache.mkResponse None ["partial data"%string] (Some "timeout"%string)) "up"
  = Done (cache.mkResponse None ["partial data"%string] (Some "timeout"%string),
          [cache.BackendCall "up"]).
Proof.
  destruct (cache_failure_not_written collidingHash (λ _, EmptyString) ∅
              (cache.mkResponse None ["partial data"%string] (Some "timeout"%string))
              "up" (mkRange 0%Z 0%Z 0%Z) "timeout" eq_refl) as [Hq _].
  apply Hq. reflexivity.
Defined.

Lemma cache_round_trip_witness :
  cache.Query collidingHash
    (foldr cache_store.accept ∅
       [cache.BackendCall "up";
        cache.SetWithTTL 7%Z (Some upVector) 10%Z (5 * time.Minute)%Z])
    (cache.mkResponse None [] (Some "timeout"%string)) "up"
  = Done (upResponse, []).
Proof.
  destruct (cache_round_trip collidingHash (λ _, EmptyString) ∅ upResponse
              (cache.mkResponse None [] (Some "timeout"%string)) "up"
              (mkRange 0%Z 0%Z 0%Z) upResponse
              [cache.BackendCall "up";
               cache.SetWithTTL 7%Z (Some upVector) 10%Z (5 * time.Minute)%Z])
    as [Hq _].
  apply Hq; [reflexivity|].
  exists 7%Z, (Some upVector), 10%Z, (5 * time.Minute)%Z.
  apply elem_of_cons. right. apply elem_of_cons. by left.
Defined.

(** ** Range planner: steps and monotonicity *)

Section PlanMore.
Local Open Scope Z_scope.

Lemma plan_supplied (now : time.Time) (s e : Z) :
  s ≠ 0 → e ≠ 0 →
  plan_range (GetREDRequests_plan now s e)
    = mkRange (time.Unix s) (time.Unix e)
        (time.Sub (time.Unix e) (time.Unix s) ÷ 1000) ∧
  GetObjectiveErrorBudget_range now s e
    = mkRange (time.Unix s) (time.Unix e)
        (time.Sub (time.Unix e) (time.Unix s) ÷ 1000).
Proof.
  intros Hs He. unfold GetREDRequests_plan, GetObjectiveErrorBudget_range.
  destruct (Z.eqb_spec s 0); [done|]. destruct (Z.eqb_spec e 0); [done|]. done.
Qed.

(** With both timestamps supplied the step is exactly one thousandth of
    the span, a whole number of milliseconds: positive when the end lies
    after the start, zero when they coincide and negative when the end
    lies before the start; nothing rejects the latter two. *)
Theorem supplied_step (now : time.Time) (s e : Z) (r : Range) :
  int32 s → int32 e → s ≠ 0 → e ≠ 0 →
  r = GetObjectiveErrorBudget_range now s e ∨
  r = plan_range (GetREDRequests_plan now s e) ∨
  r = plan_range (GetREDErrors_plan now s e) →
  Step r = (e - s) * time.Millisecond ∧
  Step r * 1000 = End_ r - Start r ∧
  (s < e ↔ 0 < Step r) ∧ (s = e ↔ Step r = 0).
Proof.
  intros Hs He Hs0 He0 Hr.
  destruct (plan_supplied now s e Hs0 He0) as [Hred Hbud].
  assert (r = mkRange (time.Unix s) (time.Unix e)
                (time.Sub (time.Unix e) (time.Unix s) ÷ 1000)) as ->.
  { destruct Hr as [->|[->| ->]]; [done|done|]. by rewrite plans_agree. }
  cbn [Step Start End_]. rewrite Sub_Unix by done.
  unfold time.Unix, time.Second, time.Millisecond.
  replace (e * (1000 * 1000000) - s * (1000 * 1000000))
    with ((e - s) * 1000000 * 1000) by lia.
  rewrite Z.quot_mul by lia. lia.
Qed.

Lemma supplied_step_witness :
  let r := plan_range (GetREDRequests_plan 0 1700000000 1700007200) in
  Step r = 7200 * time.Millisecond ∧ 0 < Step r.
Proof.
  assert (int32 1700000000) as Hs by (unfold int32; lia).
  assert (int32 1700007200) as He by (unfold int32; lia).
  destruct (supplied_step 0 1700000000 1700007200 _ Hs He
              ltac:(discriminate) ltac:(discriminate) (or_intror (or_introl eq_refl)))
    as (Hstep & _ & Hpos & _).
  split; [exact Hstep|]. apply Hpos. lia.
Defined.

(** When either timestamp is zero every planner asks for the last hour
    in steps of 3.6 seconds, and the RED endpoints use a 5 minute
    [timeRange]. *)
Theorem default_plan (now : time.Time) (s e : Z) :
  s = 0 ∨ e = 0 →
  GetObjectiveErrorBudget_range now s e
    = mkRange (now - time.Hour) now (3600 * time.Millisecond) ∧
  GetREDRequests_plan now s e
    = mkRangePlan (mkRange (now - time.Hour) now (3600 * time.Millisecond))
        (5 * time.Minute) ∧
  GetREDErrors_plan now s e = GetREDRequests_plan now s e.
Proof.
  intros H0. split; [|split; [|apply plans_agree]].
  - unfold GetObjectiveErrorBudget_range.
    assert (negb (s =? 0) && negb (e =? 0) = false) as ->.
    { destruct H0 as [-> | ->]; [done|]. by rewrite andb_false_r. }
    cbv zeta. rewrite Sub_last_hour. unfold time.Add.
    replace (now + -1 * time.Hour) with (now - time.Hour) by lia.
    reflexivity.
  - unfold GetREDRequests_plan.
    assert (negb (s =? 0) && negb (e =? 0) = false) as ->.
    { destruct H0 as [-> | ->]; [done|]. by rewrite andb_false_r. }
    cbv zeta. rewrite Sub_last_hour. unfold time.Add.
    replace (now + -1 * time.Hour) with (now - time.Hour) by lia.
    reflexivity.
Qed.

Lemma default_plan_witness :
  plan_timeRange (GetREDRequests_plan 5000000000000 0 1700000000) = 5 * time.Minute ∧
  Step (plan_range (GetREDRequests_plan 5000000000000 0 1700000000))
    = 3600 * time.Millisecond.
Proof.
  destruct (default_plan 5000000000000 0 1700000000 (or_introl eq_refl))
    as (_ & -> & _).
  done.
Defined.

(** A longer span never gets a shorter [timeRange], and the [timeRange]
    is always one of 5m, 15m, 30m, 1h and 3h. *)
Theorem timeRange_monotone (now now' : time.Time) (s e s' e' : Z) :
  let p := GetREDRequests_plan now s e in
  let p' := GetREDRequests_plan now' s' e' in
  (span (plan_range p) ≤ span (plan_range p') →
   plan_timeRange p ≤ plan_timeRange p') ∧
  plan_timeRange p ∈
    [5 * time.Minute; 15 * time.Minute; 30 * time.Minute; time.Hour; 3 * time.Hour].
Proof.
  cbv zeta.
  pose proof (timeRange_thresholds now s e) as H.
  pose proof (timeRange_thresholds now' s' e') as H'.
  cbv zeta in H, H'. unfold timeRange_for in H, H'.
  set (d := span (plan_range (GetREDRequests_plan now s e))) in *.
  set (d' := span (plan_range (GetREDRequests_plan now' s' e'))) in *.
  set (tr := plan_timeRange (GetREDRequests_plan now s e)) in *.
  set (tr' := plan_timeRange (GetREDRequests_plan now' s' e')) in *.
  clearbody d d' tr tr'.
  unfold time.Hour, time.Minute, time.Second, time.Millisecond in *.
  destruct H as (A1 & A2 & A3 & A4 & A5), H' as (B1 & B2 & B3 & B4 & B5).
  split.
  - intros Hle.
    destruct (Z.lt_ge_cases d (12 * (60 * (60 * (1000 * 1000000))))),
             (Z.lt_ge_cases d (24 * (60 * (60 * (1000 * 1000000))))),
             (Z.lt_ge_cases d (7 * 24 * (60 * (60 * (1000 * 1000000))))),
             (Z.lt_ge_cases d (28 * 24 * (60 * (60 * (1000 * 1000000))))),
             (Z.lt_ge_cases d' (12 * (60 * (60 * (1000 * 1000000))))),
             (Z.lt_ge_cases d' (24 * (60 * (60 * (1000 * 1000000))))),
             (Z.lt_ge_cases d' (7 * 24 * (60 * (60 * (1000 * 1000000))))),
             (Z.lt_ge_cases d' (28 * 24 * (60 * (60 * (1000 * 1000000)))));
      try lia;
      repeat match goal with
      | H : _ → tr = _ |- _ => first [rewrite H by lia | clear H]
      | H : _ → tr' = _ |- _ => first [rewrite H by lia | clear H]
      end; lia.
  - destruct (Z.lt_ge_cases d (12 * (60 * (60 * (1000 * 1000000))))),
             (Z.lt_ge_cases d (24 * (60 * (60 * (1000 * 1000000))))),
             (Z.lt_ge_cases d (7 * 24 * (60 * (60 * (1000 * 1000000))))),
             (Z.lt_ge_cases d (28 * 24 * (60 * (60 * (1000 * 1000000)))));
      try lia;
      repeat match goal with
      | H : _ → tr = _ |- _ => first [rewrite H by lia | clear H]
      end; set_solver.
Qed.
End PlanMore.

Lemma timeRange_monotone_witness :
  (plan_timeRange (GetREDRequests_plan 0 1700000000 1700007200)
    ≤ plan_timeRange (GetREDRequests_plan 0 1700000000 1702592000))%Z.
Proof.
  destruct (timeRange_monotone 0 0 1700000000 1700007200 1700000000 1702592000)
    as [Hmono _].
  apply Hmono. by vm_compute.
Defined.

(** ** Status aggregator: series without errors, failures, order *)

Section StatusMore.
Import status.
Variable Fingerprint : model.Metric → model.Fingerprint.
Variable range_order : gmap Z ObjectiveStatus → list (Z * ObjectiveStatus).
Hypothesis range_order_perm : ∀ m, range_order m ≡ₚ map_to_list m.

Local Open Scope float_scope.

Lemma length_omap_le {A B} (f : A → option B) (l : list A) :
  (length (omap f l) ≤ length l)%nat.
Proof. induction l as [|a l IH]; csimpl; [done|]. destruct (f a); csimpl; lia. Qed.

Lemma fromTotals_size (v : model.Vector) (st : gmap Z ObjectiveStatus) :
  (size (fromTotals Fingerprint v st) ≤ size st + length v)%nat.
Proof.
  revert st. induction v as [|a v IH]; intros st; simpl; [lia|].
  etrans; [apply IH|]. rewrite map_size_insert. destruct (st !! _); unfold id; lia.
Qed.

Lemma withErrors_size (ev : model.Vector) (st st' : gmap Z ObjectiveStatus) :
  withErrors Fingerprint ev st = Done st' → (size st' ≤ size st)%nat.
Proof.
  intros H. rewrite <- !(size_dom (D := gset Z)). apply subseteq_size.
  intros F HF. apply elem_of_dom in HF as [s' Hs'].
  destruct (withErrors_inv Fingerprint _ _ _ _ _ H Hs') as (s & Hs & _).
  apply elem_of_dom. eauto.
Qed.

(** A series of the totals vector that the errors vector does not
    mention is reported with no errors and an availability of 1. *)
Theorem totals_without_errors (target : float) (totals errors : model.Vector)
    (t : model.Sample) :
  (∀ e, e ∈ errors → ∃ t', t' ∈ totals ∧
     Fingerprint (model.sample_Metric t') = Fingerprint (model.sample_Metric e)) →
  NoDup ((λ s, Fingerprint (model.sample_Metric s)) <$> totals) →
  t ∈ totals →
  Fingerprint (model.sample_Metric t)
    ∉ (λ s, Fingerprint (model.sample_Metric s)) <$> errors →
  PrimFloat.eqb (model.sample_Value t) 0 = false →
  ∃ out s,
    GetObjectiveStatus Fingerprint range_order target
      (vectorResponse totals) (vectorResponse errors)
      = Done (mkImplResponse StatusOK (Some out), None) ∧
    s ∈ out ∧
    Labels s = model.sample_Metric t ∧
    Availability s = mkAvailability 1 (model.sample_Value t) 0.
Proof.
  intros Hsub Hnd Ht Hnot Hnz.
  destruct (withErrors_done Fingerprint errors (fromTotals Fingerprint totals ∅))
    as [st' Hst'].
  { intros e He. destruct (Hsub e He) as (t' & Ht' & Hfp). rewrite <- Hfp.
    by apply fromTotals_dom. }
  assert (st' !! Fingerprint (model.sample_Metric t)
          = Some (mkStatus (model.sample_Metric t)
                    (mkAvailability 1 (model.sample_Value t) 0) zeroBudget)) as Hinit.
  { rewrite (withErrors_untouched Fingerprint _ _ _ _ Hst' Hnot).
    apply (fromTotals_lookup Fingerprint totals ∅ t Hnd Ht). }
  destruct (finish_kept target
              (mkStatus (model.sample_Metric t)
                 (mkAvailability 1 (model.sample_Value t) 0) zeroBudget) Hnz)
    as [s Hfin].
  exists (collect target (range_order st') []), s.
  split; [unfold GetObjectiveStatus; simpl; by rewrite Hst'|].
  split; [apply (collect_elem range_order range_order_perm); eauto|].
  destruct (finish_Some _ _ _ Hfin) as [_ ->]. done.
Qed.

(** Every reported status carries the labels and the total of a series
    of the totals vector, and there are no more statuses than such
    series. *)
Theorem statuses_from_totals (target : float) (totals errors : model.Vector)
    (out : list ObjectiveStatus) :
  GetObjectiveStatus Fingerprint range_order target
    (vectorResponse totals) (vectorResponse errors)
    = Done (mkImplResponse StatusOK (Some out), None) →
  (∀ s, s ∈ out →
     ∃ t, t ∈ totals ∧ Labels s = model.sample_Metric t ∧
          Total (Availability s) = model.sample_Value t) ∧
  (length out ≤ length totals)%nat.
Proof.
  unfold GetObjectiveStatus. simpl.
  destruct (withErrors _ errors _) as [st'|] eqn:Hst'; [|done].
  simpl. intros [= <-]. split.
  - intros s Hs.
    apply (collect_elem range_order range_order_perm) in Hs as (F & s0 & Hs0 & Hfin).
    destruct (finish_Some _ _ _ Hfin) as [_ ->]. simpl.
    destruct (withErrors_inv Fingerprint _ _ _ _ _ Hst' Hs0) as (s1 & Hs1 & HL & HT & _).
    apply fromTotals_inv in Hs1 as [(t & Ht & _ & ->)|Hs1];
      [|by rewrite lookup_empty in Hs1].
    exists t. rewrite HL, HT. done.
  - rewrite collect_omap, app_nil_l.
    etrans; [apply length_omap_le|].
    rewrite range_order_perm, length_map_to_list.
    etrans; [by eapply withErrors_size|].
    etrans; [apply fromTotals_size|]. by rewrite map_size_empty.
Qed.

(** A failed query answers 500 with the backend's error; when the
    totals query fails the errors answer is not looked at. *)
Theorem status_backend_failure (target : float) (total errors : cache.Response)
    (e : error) :
  (cache.err total = Some e →
   GetObjectiveStatus Fingerprint range_order target total errors
     = Done (mkImplResponse StatusInternalServerError None, Some e)) ∧
  (∀ v, cache.err total = None → cache.value total = Some (model.ValVector v) →
   cache.err errors = Some e →
   GetObjectiveStatus Fingerprint range_order target total errors
     = Done (mkImplResponse StatusInternalServerError None, Some e)).
Proof.
  unfold GetObjectiveStatus. split.
  - by intros ->.
  - intros v -> -> ->. done.
Qed.

(** The two type assertions are of the panicking form: an answer that
    is not a vector, from the backend or from a colliding cache entry,
    takes the handler down. *)
Theorem status_not_a_vector (target : float) (total errors : cache.Response) :
  cache.err total = None → cache.err errors = None →
  (∀ v, cache.value total ≠ Some (model.ValVector v)) ∨
  (∀ v, cache.value errors ≠ Some (model.ValVector v)) →
  GetObjectiveStatus Fingerprint range_order target total errors
    = Panic bad_assertion.
Proof.
  intros Ht He Hkind. unfold GetObjectiveStatus. rewrite Ht, He.
  destruct (cache.value total) as [[v|m|f t|s t]|] eqn:Hv; try done.
  destruct Hkind as [Hk|Hk]; [by destruct (Hk v)|].
  simpl. destruct (cache.value errors) as [[ev|m|f t|s t]|]; try done.
  by destruct (Hk ev).
Qed.
End StatusMore.

Section StatusOrder.
Import status.
Variable Fingerprint : model.Metric → model.Fingerprint.
Variables range1 range2 : gmap Z ObjectiveStatus → list (Z * ObjectiveStatus).
Hypothesis range1_perm : ∀ m, range1 m ≡ₚ map_to_list m.
Hypothesis range2_perm : ∀ m, range2 m ≡ₚ map_to_list m.

(** The order in which the map is visited decides the order of the
    answer and nothing else: under any two visiting orders the handler
    either panics both times, with the same message, or returns both
    times, with the same status code and the same error and with
    either no body both times or the same statuses up to their order. *)
Theorem status_order_irrelevant (target : float) (total errors : cache.Response) :
  match GetObjectiveStatus Fingerprint range1 target total errors,
        GetObjectiveStatus Fingerprint range2 target total errors with
  | Done (r1, e1), Done (r2, e2) =>
    Code r1 = Code r2 ∧ e1 = e2 ∧
    match Body r1, Body r2 with
    | Some out1, Some out2 => out1 ≡ₚ out2
    | None, None => True
    | _, _ => False
    end
  | Panic msg1, Panic msg2 => msg1 = msg2
  | _, _ => False
  end.
Proof.
  unfold GetObjectiveStatus.
  destruct (cache.err total); [done|].
  destruct (asVector (cache.value total)) as [v|]; [|done]. simpl.
  destruct (cache.err errors); [done|].
  destruct (asVector (cache.value errors)) as [ev|]; [|done]. simpl.
  destruct (withErrors _ ev _) as [st'|]; [|done]. simpl.
  split; [done|]. split; [done|].
  rewrite !collect_omap, !app_nil_l. by rewrite range1_perm, range2_perm.
Qed.
End StatusOrder.

Lemma totals_without_errors_witness :
  ∃ out s,
    status.GetObjectiveStatus oneFingerprint map_to_list 0.99
      (vectorResponse totals10000) (vectorResponse [])
      = Done (mkImplResponse StatusOK (Some out), None) ∧
    s ∈ out ∧
    status.Availability s = status.mkAvailability 1 10000 0.
Proof.
  destruct (totals_without_errors oneFingerprint map_to_list map_to_list_range_order
              0.99 totals10000 [] (model.mkSample jobApi 10000%float 0))
    as (out & s & Hrun & Hin & _ & Ha).
  - intros e He. by apply elem_of_nil in He.
  - apply NoDup_singleton.
  - by apply list_elem_of_singleton.
  - apply not_elem_of_nil.
  - reflexivity.
  - exists out, s. done.
Defined.

Lemma statuses_from_totals_witness :
  ∃ out,
    status.GetObjectiveStatus oneFingerprint map_to_list 0.99
      (vectorResponse totals10000) (vectorResponse errors50)
      = Done (mkImplResponse StatusOK (Some out), None) ∧
    (length out ≤ 1)%nat.
Proof.
  eexists. split; [vm_compute; reflexivity|].
  match goal with
  | |- (length ?out ≤ 1)%nat =>
    destruct (statuses_from_totals oneFingerprint map_to_list map_to_list_range_order
                0.99 totals10000 errors50 out) as [_ Hlen];
      [vm_compute; reflexivity|exact Hlen]
  end.
Defined.

Lemma status_backend_failure_witness :
  status.GetObjectiveStatus oneFingerprint map_to_list 0.99
    (cache.mkResponse None [] (Some "timeout"%string)) (vectorResponse errors50)
  = Done (mkImplResponse StatusInternalServerError None, Some "timeout"%string).
Proof.
  destruct (status_backend_failure oneFingerprint map_to_list 0.99
              (cache.mkResponse None [] (Some "timeout"%string))
              (vectorResponse errors50) "timeout") as [Htotal _].
  apply Htotal. reflexivity.
Defined.

Lemma status_not_a_vector_witness :
  status.GetObjectiveStatus oneFingerprint map_to_list 0.99
    (cache.mkResponse (Some cachedMatrix) [] None) (vectorResponse errors50)
  = Panic bad_assertion.
Proof.
  apply status_not_a_vector; [reflexivity|reflexivity|].
  left. intros v. discriminate.
Defined.

Lemma status_order_irrelevant_witness :
  ∃ out1 out2,
    status.GetObjectiveStatus oneFingerprint map_to_list 0.99
      (vectorResponse totals10000) (vectorResponse errors50)
      = Done (mkImplResponse StatusOK (Some out1), None) ∧
    status.GetObjectiveStatus oneFingerprint (λ m, reverse (map_to_list m)) 0.99
      (vectorResponse totals10000) (vectorResponse errors50)
      = Done (mkImplResponse StatusOK (Some out2), None) ∧
    out1 ≡ₚ out2.
Proof.
  pose proof (status_order_irrelevant oneFingerprint map_to_list
                (λ m, reverse (map_to_list m)) map_to_list_range_order
                (λ m, reverse_Permutation (map_to_list m))
                0.99 (vectorResponse totals10000) (vectorResponse errors50)) as Hruns.
  destruct (status.GetObjectiveStatus oneFingerprint map_to_list 0.99
              (vectorResponse totals10000) (vectorResponse errors50))
    as [[[c1 [out1|]] e1]|] eqn:H1; [| |vm_compute in H1; discriminate].
  2: { vm_compute in H1. discriminate. }
  destruct (status.GetObjectiveStatus oneFingerprint (λ m, reverse (map_to_list m)) 0.99
              (vectorResponse totals10000) (vectorResponse errors50))
    as [[[c2 [out2|]] e2]|] eqn:H2; [| |done].
  2: { by destruct Hruns as (_ & _ & ?). }
  destruct Hruns as (Hc & He & Hp). cbn in Hc. subst c2 e2.
  assert (c1 = StatusOK ∧ e1 = None) as [-> ->].
  { vm_compute in H1. by injection H1 as <- _ <-. }
  by exists out1, out2.
Defined.

(** ** Objective resolution *)

Section ObjectiveFacts.
Import objectives.
Context {ClientObjective ServerObjective B : Type}.
Variable ServerFromClient : ClientObjective → ServerObjective.
Variable ParseMetricSelector : string → result (list slo.Matcher).
Variable Execute : string → storeError + list ClientObjective.
Variable Itoa : Z → string.

(** A selector that does not parse is answered 400 with the parser's
    error and never reaches the store; an empty query is not parsed at
    all; otherwise the store is asked once, with the caller's query, its
    failure is answered 500 and its objectives are answered 200, one API
    objective per stored objective in the store's order. *)
Theorem ListObjectives_answers (query : string) :
  (∀ e, query ≠ EmptyString → ParseMetricSelector query = Err e →
     ListObjectives ServerFromClient ParseMetricSelector Execute query
       = (mkImplResponse StatusBadRequest None, Some e, [])) ∧
  (query = EmptyString ∨ (∃ ms, ParseMetricSelector query = Ok ms) →
     ListObjectives ServerFromClient ParseMetricSelector Execute query
       = match Execute query with
         | inl e => (mkImplResponse StatusInternalServerError None, Some (Error e),
                     [StoreList query])
         | inr objectives =>
           (mkImplResponse StatusOK (Some (ServerFromClient <$> objectives)), None,
            [StoreList query])
         end) ∧
  (∀ r e calls body,
     ListObjectives ServerFromClient ParseMetricSelector Execute query = (r, e, calls) →
     (calls = [] ∨ calls = [StoreList query]) ∧
     (Body r = Some body →
        Code r = StatusOK ∧ e = None ∧
        ∃ objectives, Execute query = inr objectives ∧
                      length body = length objectives)).
Proof.
  unfold ListObjectives. split; [|split].
  - intros e Hq Hp. apply String.eqb_neq in Hq. by rewrite Hq, Hp.
  - intros [->|[ms Hp]]; [done|]. rewrite Hp. by destruct (negb _).
  - intros r e calls body.
    destruct (if negb (String.eqb query EmptyString) then _ else None) as [e'|].
    { intros [= <- <- <-]. split; [by left|done]. }
    destruct (Execute query) as [e'|objectives].
    { intros [= <- <- <-]. split; [by right|done]. }
    intros [= <- <- <-]. split; [by right|].
    intros [= <-]. split; [done|]. split; [done|].
    exists objectives. by rewrite length_fmap.
Qed.

(** A handler goes on only when exactly one objective matches: no match
    and several matches are answered 400, a failure of the store 500;
    [GetObjectiveStatus] alone answers 404, and only for a
    [GenericOpenAPIError] whose message starts with 404. *)
Theorem resolution_answers (expr : string) :
  (∀ o, Execute expr = inr [o] →
     resolveStatus (B := B) Execute Itoa expr = Objective_ o ∧
     resolveErrorBudget (B := B) Execute Itoa expr = Objective_ o ∧
     resolveOne (B := B) Execute expr = Objective_ o) ∧
  (∀ os, Execute expr = inr os → length os ≠ 1%nat →
     resolveStatus (B := B) Execute Itoa expr
       = Answer (mkImplResponse StatusBadRequest None) (moreThanOne Itoa (length os)) ∧
     resolveErrorBudget (B := B) Execute Itoa expr
       = Answer (mkImplResponse StatusBadRequest None) (moreThanOne Itoa (length os)) ∧
     resolveOne (B := B) Execute expr
       = Answer (mkImplResponse StatusBadRequest None) notExactlyOne) ∧
  (∀ e, Execute expr = inl e →
     resolveErrorBudget (B := B) Execute Itoa expr
       = Answer (mkImplResponse StatusInternalServerError None) (Error e) ∧
     resolveOne (B := B) Execute expr
       = Answer (mkImplResponse StatusInternalServerError None) (Error e) ∧
     ∃ code, resolveStatus (B := B) Execute Itoa expr
               = Answer (mkImplResponse code None) (Error e) ∧
       (code = StatusNotFound ∨ code = StatusInternalServerError) ∧
       (code = StatusNotFound ↔
          ∃ msg, e = GenericOpenAPIError msg ∧ String.prefix "404" msg = true)).
Proof.
  unfold resolveStatus, resolveErrorBudget, resolveOne. split; [|split].
  - by intros o ->.
  - intros os -> Hlen. by destruct os as [|o [|o' os]].
  - intros e ->. split; [done|]. split; [done|].
    destruct e as [msg|msg].
    + destruct (String.prefix "404" msg) eqn:Hp.
      * exists StatusNotFound. split; [done|]. split; [by left|]. split; eauto.
      * exists StatusInternalServerError. split; [done|]. split; [by right|].
        split; [done|]. intros (msg' & [= <-] & Hp'). congruence.
    + exists StatusInternalServerError. split; [done|]. split; [by right|].
      split; [done|]. by intros (msg' & ? & _).
Qed.
End ObjectiveFacts.

Lemma ListObjectives_answers_witness :
  objectives.ListObjectives (λ n : nat, n) rejectAll emptyStore "{job="
    = (mkImplResponse StatusBadRequest None, Some "unexpected character"%string, []).
Proof.
  destruct (ListObjectives_answers (λ n : nat, n) rejectAll emptyStore "{job=")
    as (Hbad & _).
  apply Hbad; [discriminate|reflexivity].
Defined.

Lemma resolution_answers_witness :
  objectives.resolveStatus (B := unit) emptyStore (λ _, "0"%string) "{job=api}"
    = objectives.Answer (mkImplResponse StatusBadRequest None)
        (objectives.moreThanOne (λ _, "0"%string) 0) ∧
  ∃ code, objectives.resolveStatus (B := unit) missingStore (λ _, "0"%string) "{job=api}"
            = objectives.Answer (mkImplResponse code None) "404 Not Found"%string ∧
          code = StatusNotFound.
Proof.
  split.
  - destruct (resolution_answers (B := unit) emptyStore (λ _, "0"%string) "{job=api}")
      as (_ & Hmany & _).
    destruct (Hmany [] eq_refl ltac:(discriminate)) as (H & _). exact H.
  - destruct (resolution_answers (B := unit) missingStore (λ _, "0"%string) "{job=api}")
      as (_ & _ & Hfail).
    destruct (Hfail _ eq_refl) as (_ & _ & code & Hrun & _ & Hiff).
    exists code. split; [exact Hrun|]. apply Hiff. eexists. split; reflexivity.
Defined.

(** ** Grouping merges *)

Section MergeMore.
Import slo merges.

(** The metric with further matchers behind its own. *)
Let extended (metric : Metric) (ms : list Matcher) : Metric :=
  mkMetric (metric_Name metric) (LabelMatchers metric ++ ms).

Lemma foldl_ratioAppend (ms : list Matcher) (r : RatioIndicator) :
  foldl ratioAppend r ms
    = mkRatio (extended (Errors r) ms) (extended (ratio_Total r) ms) (ratio_Grouping r).
Proof.
  revert r. induction ms as [|m ms IH]; intros r.
  { destruct r as [[] [] ?]. unfold extended. simpl. by rewrite !app_nil_r. }
  simpl. rewrite IH. unfold extended, ratioAppend, appendMatcher. simpl.
  by rewrite <- !app_assoc.
Qed.

Lemma foldl_latencyAppend (ms : list Matcher) (l : LatencyIndicator) :
  foldl latencyAppend l ms
    = mkLatency (extended (Success l) ms) (extended (latency_Total l) ms)
        (latency_Grouping l).
Proof.
  revert l. induction ms as [|m ms IH]; intros l.
  { destruct l as [[] [] ?]. unfold extended. simpl. by rewrite !app_nil_r. }
  simpl. rewrite IH. unfold extended, latencyAppend, appendMatcher. simpl.
  by rewrite <- !app_assoc.
Qed.

(** The merge of [GetObjectiveStatus], [GetREDRequests] and
    [GetREDErrors] leaves the objective alone for an empty grouping
    expression, hands on the parser's error, and otherwise puts the
    parsed matchers, in their order, behind the matchers of both metrics
    of every indicator the objective has; the groupings, the metric
    names and an absent indicator stay as they are.  The merge of
    [GetMultiBurnrateAlerts] does the same and empties the groupings,
    for a latency indicator as for a ratio indicator. *)
Theorem merges_append (objective : Objective) (grouping : string)
    (parsed : result (list Matcher)) :
  (grouping = EmptyString →
     mergeGrouping objective grouping parsed = Ok objective ∧
     mergeGroupingAlerts objective grouping parsed = Ok objective) ∧
  (∀ e, grouping ≠ EmptyString → parsed = Err e →
     mergeGrouping objective grouping parsed = Err e ∧
     mergeGroupingAlerts objective grouping parsed = Err e) ∧
  (∀ ms, grouping ≠ EmptyString → parsed = Ok ms →
     ∃ o o',
       mergeGrouping objective grouping parsed = Ok o ∧
       mergeGroupingAlerts objective grouping parsed = Ok o' ∧
       Ratio (Indicator_ o)
         = (λ r, mkRatio (extended (Errors r) ms) (extended (ratio_Total r) ms)
                   (ratio_Grouping r)) <$> Ratio (Indicator_ objective) ∧
       Latency (Indicator_ o)
         = (λ l, mkLatency (extended (Success l) ms) (extended (latency_Total l) ms)
                   (latency_Grouping l)) <$> Latency (Indicator_ objective) ∧
       Ratio (Indicator_ o')
         = (λ r, mkRatio (extended (Errors r) ms) (extended (ratio_Total r) ms) [])
             <$> Ratio (Indicator_ objective) ∧
       Latency (Indicator_ o')
         = (λ l, mkLatency (extended (Success l) ms) (extended (latency_Total l) ms) [])
             <$> Latency (Indicator_ objective) ∧
       (Labels o, Target o, Window o) = (Labels objective, Target objective, Window objective) ∧
       (Labels o', Target o', Window o') = (Labels objective, Target objective, Window objective)).
Proof.
  unfold mergeGrouping, mergeGroupingAlerts, withGrouping. split; [|split].
  - by intros ->.
  - intros e Hg ->. apply String.eqb_neq in Hg. by rewrite Hg.
  - intros ms Hg ->. apply String.eqb_neq in Hg. rewrite Hg.
    eexists _, _. split; [reflexivity|]. split; [reflexivity|]. simpl.
    unfold appendMatchers, appendUngrouped.
    destruct (Indicator_ objective) as [[r|] [l|]]; simpl;
      rewrite ?foldl_ratioAppend, ?foldl_latencyAppend; done.
Qed.
End MergeMore.

Lemma merges_append_witness :
  ∃ o r,
    merges.mergeGroupingAlerts latencyOnly groupingJob (Ok [jobMatcher]) = Ok o ∧
    slo.Latency (slo.Indicator_ o) = Some r ∧
    slo.latency_Grouping r = [] ∧
    slo.LabelMatchers (slo.Success r) = [jobMatcher].
Proof.
  destruct (merges_append latencyOnly groupingJob (Ok [jobMatcher])) as (_ & _ & Hok).
  destruct (Hok [jobMatcher] ltac:(discriminate) eq_refl)
    as (o & o' & _ & Hrun & _ & _ & _ & Hl & _).
  exists o'. eexists. split; [exact Hrun|]. split; [exact Hl|]. done.
Defined.

(** ** The ratio branch of the error budget merge *)

Section RatioMerge.
Import slo errorbudget.
Variable range_order : gset string → list string.
(** [range] visits every key of the set exactly once. *)
Hypothesis range_order_perm : ∀ X, range_order X ≡ₚ elements X.

Lemma elem_of_toSet (grouping : list string) (g : string) :
  g ∈ toSet grouping ↔ g ∈ grouping.
Proof.
  unfold toSet.
  assert (∀ X : gset string,
            g ∈ foldl (λ groupings g, {[g]} ∪ groupings) X grouping
            ↔ g ∈ X ∨ g ∈ grouping) as H.
  { induction grouping as [|a grouping IH]; intros X; simpl.
    - rewrite elem_of_nil. tauto.
    - rewrite IH, elem_of_union, elem_of_singleton, elem_of_cons. tauto. }
  rewrite H, elem_of_empty. tauto.
Qed.

Lemma remaining_range (X : gset string) : remaining range_order X = range_order X.
Proof.
  unfold remaining.
  assert (∀ l acc : list string,
            foldl (λ grouping g, grouping ++ [g]) acc l = acc ++ l) as H.
  { induction l as [|a l IH]; intros acc; simpl; [by rewrite app_nil_r|].
    by rewrite IH, <- app_assoc. }
  apply H.
Qed.

Lemma foldl_ratioStep (ms : list Matcher) (r : RatioIndicator) (X : gset string) :
  fst (foldl ratioStep (r, X) ms) = foldl merges.ratioAppend r ms ∧
  ∀ g, g ∈ snd (foldl ratioStep (r, X) ms) ↔ g ∈ X ∧ g ∉ Name <$> ms.
Proof.
  revert r X. induction ms as [|m ms IH]; intros r X; simpl.
  { split; [done|]. intros g. rewrite elem_of_nil. tauto. }
  destruct (IH (merges.ratioAppend r m) (X ∖ {[Name m]})) as [Hfst Hsnd].
  split; [exact Hfst|]. intros g.
  rewrite Hsnd, elem_of_difference, elem_of_singleton, not_elem_of_cons. tauto.
Qed.

(** For an objective with a ratio indicator only, the error budget merge
    puts the parsed matchers behind the matchers of both metrics and
    keeps of the grouping labels exactly those no matcher names, each
    once. *)
Theorem ratio_merge_groupings (objective : Objective) (grouping : string)
    (ms : list Matcher) (r : RatioIndicator) :
  grouping ≠ EmptyString →
  Indicator_ objective = mkIndicator (Some r) None →
  ∃ o r',
    mergeGrouping range_order objective grouping (Ok ms) = Done (Ok o) ∧
    Indicator_ o = mkIndicator (Some r') None ∧
    LabelMatchers (Errors r') = LabelMatchers (Errors r) ++ ms ∧
    LabelMatchers (ratio_Total r') = LabelMatchers (ratio_Total r) ++ ms ∧
    NoDup (ratio_Grouping r') ∧
    ∀ g, g ∈ ratio_Grouping r' ↔ g ∈ ratio_Grouping r ∧ g ∉ Name <$> ms.
Proof.
  intros Hg Hind. unfold mergeGrouping. apply String.eqb_neq in Hg.
  rewrite Hg, Hind. unfold mergeRatio. cbn [Ratio Latency].
  destruct (foldl_ratioStep ms r (toSet (ratio_Grouping r))) as [Hfst Hsnd].
  destruct (foldl ratioStep _ ms) as [r1 X] eqn:Hfold. simpl in Hfst, Hsnd.
  unfold mergeLatency. cbn [Latency exec_bind].
  eexists _, _. split; [reflexivity|]. split; [reflexivity|]. cbn.
  rewrite Hfst, foldl_ratioAppend. cbn. split; [done|]. split; [done|].
  rewrite remaining_range. split.
  - rewrite range_order_perm. apply NoDup_elements.
  - intros g. rewrite range_order_perm, elem_of_elements, Hsnd, elem_of_toSet. done.
Qed.
End RatioMerge.

Lemma elements_range_order (X : gset string) : elements X ≡ₚ elements X.
Proof. reflexivity. Qed.

Lemma ratio_merge_groupings_witness :
  ∃ o r',
    errorbudget.mergeGrouping elements ratioObjective groupingJob (Ok [jobMatcher])
      = Done (Ok o) ∧
    slo.Indicator_ o = slo.mkIndicator (Some r') None ∧
    ("handler"%string ∈ slo.ratio_Grouping r') ∧
    ("job"%string ∉ slo.ratio_Grouping r').
Proof.
  destruct (ratio_merge_groupings elements elements_range_order ratioObjective
              groupingJob [jobMatcher] _ ltac:(discriminate) eq_refl)
    as (o & r' & Hrun & Hind & _ & _ & _ & Hg).
  exists o, r'. split; [exact Hrun|]. split; [exact Hind|]. split.
  - apply Hg. split.
    + apply elem_of_cons. right. apply elem_of_cons. by left.
    + intros Hin. apply list_elem_of_singleton in Hin. discriminate.
  - intros Hin. apply Hg in Hin as [_ Hnot]. apply Hnot.
    by apply list_elem_of_singleton.
Defined.

(** ** Matrix transform: shape, iteration order and the sort interface *)

Section MatrixMore.
Import matrix matrix_spec.

Local Open Scope float_scope.

Lemma at_insert_ne (row : list float) (i k : nat) (x : float) :
  i ≠ k → at_ (<[i := x]> row) k = at_ row k.
Proof. intros H. unfold at_. by rewrite !nth_lookup, list_lookup_insert_ne. Qed.

Lemma at_swapRow (row : list float) (i j k : nat) :
  (i < length row)%nat → (j < length row)%nat →
  at_ (swapRow i j row) k
    = if decide (k = i) then at_ row j
      else if decide (k = j) then at_ row i else at_ row k.
Proof.
  intros Hi Hj. unfold swapRow.
  destruct (decide (k = i)) as [->|Hki].
  - apply at_insert. by rewrite length_insert.
  - rewrite at_insert_ne by done.
    destruct (decide (k = j)) as [->|Hkj].
    + by apply at_insert.
    + by rewrite at_insert_ne.
Qed.

Lemma length_swapRow (row : list float) (i j : nat) :
  length (swapRow i j row) = length row.
Proof. unfold swapRow. by rewrite !length_insert. Qed.

Lemma swapRow_twice (row : list float) (i j : nat) :
  (i < length row)%nat → (j < length row)%nat →
  swapRow i j (swapRow i j row) = row.
Proof.
  intros Hi Hj. apply (nth_ext _ _ 0 0).
  { by rewrite !length_swapRow. }
  intros k _. change (at_ (swapRow i j (swapRow i j row)) k = at_ row k).
  rewrite !at_swapRow by (by rewrite ?length_swapRow).
  repeat case_decide; by subst.
Qed.

(** [Swap] on a table whose rows have one length exchanges columns [i]
    and [j] as wholes, leaves every other column and the shape of the
    table alone, and undoes itself; [Less] never holds both ways. *)
Theorem Swap_exchanges_columns (v : values) (n i j : nat) :
  (∀ row, row ∈ v → length row = n) → (i < n)%nat → (j < n)%nat →
  column (Swap v i j) i = column v j ∧
  column (Swap v i j) j = column v i ∧
  (∀ k, k ≠ i → k ≠ j → column (Swap v i j) k = column v k) ∧
  length (Swap v i j) = length v ∧
  (∀ row, row ∈ Swap v i j → length row = n) ∧
  Swap (Swap v i j) i j = v ∧
  (Less v i j = true → Less v j i = false).
Proof.
  intros Hrect Hi Hj.
  assert (∀ k, column (Swap v i j) k
             = (λ row, if decide (k = i) then at_ row j
                       else if decide (k = j) then at_ row i else at_ row k) <$> v)
    as Hcol.
  { intros k. unfold column, Swap. rewrite <- list_fmap_compose.
    apply list_fmap_ext. intros p row Hrow. simpl.
    apply list_elem_of_lookup_2 in Hrow. apply Hrect in Hrow.
    apply at_swapRow; lia. }
  split; [|split; [|split; [|split; [|split; [|split]]]]].
  - rewrite Hcol. unfold column. apply list_fmap_ext. intros p row _.
    by rewrite decide_True.
  - rewrite Hcol. unfold column. apply list_fmap_ext. intros p row _.
    destruct (decide (j = i)) as [->|]; [done|]. by rewrite decide_True.
  - intros k Hki Hkj. rewrite Hcol. unfold column. apply list_fmap_ext.
    intros p row _. by rewrite !decide_False.
  - unfold Swap. apply length_fmap.
  - intros row Hrow. unfold Swap in Hrow.
    apply list_elem_of_fmap in Hrow as (row0 & -> & Hrow0).
    rewrite length_swapRow. by apply Hrect.
  - unfold Swap. rewrite <- list_fmap_compose.
    rewrite <- (list_fmap_id v) at 2. apply list_fmap_ext. intros p row Hrow. simpl.
    apply list_elem_of_lookup_2 in Hrow. apply Hrect in Hrow.
    apply swapRow_twice; lia.
  - unfold Less. destruct v as [|row0 v]; [done|]. apply floatorder.ltb_asym.
Qed.

(** The table of [matrixToValues] is empty for the empty matrix and has
    otherwise one row more than the matrix has series, all rows of one
    length. *)
Theorem matrix_rectangular
    (range_order : gmap Z (list float) → list (Z * list float)) (m : model.Matrix) :
  let out := matrixToValues range_order m in
  (m = [] → out = []) ∧
  (m ≠ [] → length out = S (length m)) ∧
  (∀ row row', row ∈ out → row' ∈ out → length row = length row').
Proof.
  cbv zeta. split; [by intros ->|]. split.
  - intros Hm. destruct m as [|s1 [|s2 rest]]; [done|done|].
    rewrite several_columns by (simpl; lia).
    unfold columns. cbn [length]. by rewrite length_fmap, length_seq.
  - destruct m as [|s1 [|s2 rest]].
    + intros row row' Hrow. by apply elem_of_nil in Hrow.
    + intros row row' Hrow Hrow'.
      change (matrixToValues range_order [s1]) with (single s1) in Hrow, Hrow'.
      unfold single in Hrow, Hrow'.
      repeat match goal with
      | H : _ ∈ _ :: _ |- _ => apply elem_of_cons in H as [->|H]
      | H : _ ∈ [] |- _ => by apply elem_of_nil in H
      end; by rewrite !length_fmap.
    + rewrite several_columns by (simpl; lia).
      set (E' := sortL entryLess _).
      assert (∀ row, row ∈ columns (length (s1 :: s2 :: rest)) E' →
                length row = length E') as Hlen.
      { intros row Hrow. unfold columns in Hrow.
        apply elem_of_cons in Hrow as [->|Hrow]; [by rewrite length_fmap|].
        apply list_elem_of_fmap in Hrow as (k & -> & _). by rewrite length_fmap. }
      intros row row' Hrow Hrow'. by rewrite (Hlen row), (Hlen row').
Qed.
End MatrixMore.

Section MatrixOrder.
Import matrix matrix_spec.
Variables range1 range2 : gmap Z (list float) → list (Z * list float).
Hypothesis range1_perm : ∀ pairs, range1 pairs ≡ₚ map_to_list pairs.
Hypothesis range2_perm : ∀ pairs, range2 pairs ≡ₚ map_to_list pairs.

Lemma sorted_strictly
    (range_order : gmap Z (list float) → list (Z * list float)) (m : model.Matrix) :
  (∀ pairs, range_order pairs ≡ₚ map_to_list pairs) →
  Forall exact (seconds m) →
  StronglySorted (λ a b, fst a < fst b)%Z
    (sortL entryLess (range_order (collectPairs (length m) 0 m ∅))).
Proof.
  intros Hperm Hexact.
  assert (∀ e, e ∈ range_order (collectPairs (length m) 0 m ∅) → exact (fst e))
    as Hex.
  { intros [t fs] He. rewrite Forall_forall in Hexact. apply Hexact.
    apply (sorted_entries range_order Hperm m t fs). by rewrite sortL_perm. }
  apply sortL_sorted.
  - intros a b Ha Hb. unfold entryLess.
    apply float64facts.float64_ltb; by apply Hex.
  - rewrite Hperm. apply NoDup_fst_map_to_list.
Qed.

(** While every second is below 2^53 in magnitude, the order in which
    the map of seconds is visited leaves no trace in the table. *)
Theorem matrix_order_irrelevant (m : model.Matrix) :
  Forall exact (seconds m) →
  matrixToValues range1 m = matrixToValues range2 m.
Proof.
  intros Hexact. destruct m as [|s1 [|s2 rest]]; [done|done|].
  rewrite !several_columns by (simpl; lia). f_equal.
  apply (StronglySorted_unique_strong (λ a b, fst a < fst b)%Z).
  - intros a b _ _ Hab Hba. lia.
  - by apply sorted_strictly.
  - by apply sorted_strictly.
  - by rewrite !sortL_perm, range1_perm, range2_perm.
Qed.
End MatrixOrder.

Lemma Swap_exchanges_columns_witness :
  matrix.column (matrix.Swap [[1; 2; 3]; [10; 20; 30]]%float 0 2) 0 = [3; 30]%float.
Proof.
  destruct (Swap_exchanges_columns [[1; 2; 3]; [10; 20; 30]]%float 3 0 2)
    as (H0 & _); [|lia|lia|exact H0].
  intros row Hrow.
  repeat match goal with
  | H : _ ∈ _ :: _ |- _ => apply elem_of_cons in H as [->|H]
  | H : _ ∈ [] |- _ => by apply elem_of_nil in H
  end; reflexivity.
Defined.

Lemma matrix_rectangular_witness :
  length (matrix.matrixToValues map_to_list [seriesA; seriesB]) = 3%nat.
Proof.
  destruct (matrix_rectangular map_to_list [seriesA; seriesB]) as (_ & Hrows & _).
  apply Hrows. discriminate.
Defined.

Lemma matrix_order_irrelevant_witness :
  matrix.matrixToValues map_to_list [seriesA; seriesB]
    = matrix.matrixToValues (λ pairs, reverse (map_to_list pairs)) [seriesA; seriesB].
Proof.
  apply matrix_order_irrelevant.
  - apply map_to_list_range_order.
  - intros pairs. apply reverse_Permutation.
  - assert (matrix.seconds [seriesA; seriesB] = [3; 1; 2; 1; 4]%Z) as -> by reflexivity.
    repeat (apply Forall_cons; split; [unfold matrix_spec.exact; lia|]).
    apply Forall_nil_2.
Defined.

(** ** Answers of the range endpoints *)

Ltac settle_answer :=
  cbn [fst snd Code Body]; repeat split; intros;
  repeat match goal with
  | H : _ ∧ _ |- _ => destruct H
  | H : ∃ _, _ |- _ => destruct H
  end;
  simplify_eq; try done.

Section AnswerFacts.
Import rangeanswer.
Variable range_order : gmap Z (list float) → list (Z * list float).
Variable LabelSet_String : model.Metric → string.

Lemma table_rows (m : model.Matrix) :
  m ≠ [] → length (matrix.matrixToValues range_order m) = S (length m).
Proof.
  intros Hm. destruct m as [|s1 [|s2 rest]]; [done|done|].
  rewrite several_columns by (simpl; lia).
  unfold matrix.columns. cbn [length]. by rewrite length_fmap, length_seq.
Qed.

(** The error budget endpoint answers an error-free, non-empty matrix
    with 200 and a table that carries the query, no labels and the
    transformed matrix, one row per series plus the row of seconds, and
    it answers 200 in no other case; it returns an error exactly with a
    500, which has no body; its only other answer is the 404 with the
    empty object, given exactly for an error-free empty matrix. *)
Theorem errorBudget_answer (query : string) (resp : cache.Response) :
  let r := errorBudgetAnswer range_order query resp in
  (∀ m, cache.err resp = None → cache.value resp = Some (model.ValMatrix m) →
     m ≠ [] →
     r = (mkImplResponse StatusOK
            (Some (Table (mkQueryRange query []
                            (matrix.matrixToValues range_order m)))), None) ∧
     length (matrix.matrixToValues range_order m) = S (length m)) ∧
  (Code r.1 = StatusOK ↔
     cache.err resp = None ∧
     ∃ m, cache.value resp = Some (model.ValMatrix m) ∧ m ≠ []) ∧
  (∀ q, Body r.1 = Some (Table q) →
     Code r.1 = StatusOK ∧ Query q = query ∧ Labels q = [] ∧
     ∃ m, cache.value resp = Some (model.ValMatrix m) ∧
          length (Values q) = S (length m)) ∧
  (r.2 ≠ None ↔ Code r.1 = StatusInternalServerError) ∧
  (Code r.1 = StatusInternalServerError → Body r.1 = None) ∧
  (Code r.1 = StatusNotFound ↔ Body r.1 = Some EmptyObject) ∧
  (Code r.1 = StatusNotFound ↔
     cache.err resp = None ∧ cache.value resp = Some (model.ValMatrix [])).
Proof.
  cbv zeta. split.
  { intros m He Hv Hm. split; [|by apply table_rows].
    unfold errorBudgetAnswer. rewrite He, Hv. by destruct m. }
  unfold errorBudgetAnswer.
  unfold StatusOK, StatusNotFound, StatusInternalServerError.
  destruct resp as [v w [e|]]; cbn [cache.err cache.value]; [settle_answer|].
  destruct v as [[vec|m|x t|x t]|]; cbn [fst snd Code Body];
    try (settle_answer; fail).
  destruct m as [|s m]; cbn [length Nat.eqb fst snd Code Body]; settle_answer.
  - by exists (s :: m).
  - exists (s :: m). split; [done|]. by apply (table_rows (s :: m)).
Qed.

(** A RED endpoint that answers 200 sends one label per series, in the
    order of the matrix, and a table with one row more than labels; it
    answers 200 exactly for an error-free, non-empty matrix and 404
    exactly for the empty one. *)
Theorem red_answer (query : string) (resp : cache.Response)
    (r : ImplResponse body * option error) :
  redAnswer range_order LabelSet_String query resp = Done r →
  (Code r.1 = StatusOK ↔
     cache.err resp = None ∧
     ∃ m, cache.value resp = Some (model.ValMatrix m) ∧ m ≠ []) ∧
  (Code r.1 = StatusNotFound ↔
     cache.err resp = None ∧ cache.value resp = Some (model.ValMatrix [])) ∧
  (r.2 ≠ None ↔ Code r.1 = StatusInternalServerError) ∧
  (∀ q, Body r.1 = Some (Table q) →
     Query q = query ∧
     length (Values q) = S (length (Labels q)) ∧
     ∃ m, cache.value resp = Some (model.ValMatrix m) ∧
          Labels q = (λ stream, LabelSet_String (model.stream_Metric stream)) <$> m).
Proof.
  unfold redAnswer.
  unfold StatusOK, StatusNotFound, StatusInternalServerError.
  destruct resp as [v w [e|]]; cbn [cache.err cache.value];
    [intros [= <-]; settle_answer|].
  destruct v as [[vec|m|x t|x t]|]; [| | | |done];
    try (intros [= <-]; cbn [fst snd Code Body]; settle_answer; fail).
  destruct m as [|s m]; cbn [length Nat.eqb]; intros [= <-];
    cbn [fst snd Code Body]; settle_answer.
  - by exists (s :: m).
  - change (length (matrix.matrixToValues range_order (s :: m))
            = S (length ((λ stream, LabelSet_String (model.stream_Metric stream))
                           <$> s :: m))).
    rewrite length_fmap. by apply table_rows.
  - by exists (s :: m).
Qed.

(** A backend answer with neither value nor error makes a RED endpoint
    panic, where the error budget endpoint answers 500 "no matrix
    returned". *)
Theorem nil_value_answers (query : string) (resp : cache.Response) :
  cache.err resp = None → cache.value resp = None →
  redAnswer range_order LabelSet_String query resp = Panic nil_dereference ∧
  errorBudgetAnswer range_order query resp
    = (mkImplResponse StatusInternalServerError None, Some noMatrix).
Proof.
  intros He Hv. unfold redAnswer, errorBudgetAnswer. by rewrite He, Hv.
Qed.
End AnswerFacts.

Lemma red_answer_witness :
  ∃ r, rangeanswer.redAnswer map_to_list (λ _, "{}"%string) "q"
         (cache.mkResponse (Some (model.ValMatrix [seriesA; seriesB])) [] None)
       = Done r ∧ Code r.1 = StatusOK.
Proof.
  eexists. split; [reflexivity|].
  apply (red_answer map_to_list (λ _, "{}"%string) "q"
           (cache.mkResponse (Some (model.ValMatrix [seriesA; seriesB])) [] None)
           _ eq_refl).
  split; [done|]. by exists [seriesA; seriesB].
Defined.

Lemma nil_value_answers_witness :
  rangeanswer.redAnswer map_to_list (λ _, "{}"%string) "q" (cache.mkResponse None [] None)
    = Panic nil_dereference.
Proof.
  by apply (nil_value_answers map_to_list (λ _, "{}"%string) "q"
              (cache.mkResponse None [] None)).
Defined.

(** ** Windows of the burn-rate rules *)

Section WindowFacts.
Import burnrate.
Variable Duration_String : time.Duration → string.
Variable name : string.

Lemma Milliseconds_back (d : time.Duration) :
  (time.Milliseconds d * time.Millisecond = d - Z.rem d time.Millisecond)%Z.
Proof.
  unfold time.Milliseconds. change time.Millisecond with 1000000%Z.
  pose proof (Z.quot_rem' d 1000000) as H. revert H.
  generalize (d ÷ 1000000)%Z (Z.rem d 1000000). intros q r Hqr. lia.
Qed.

(** The ALERTS query of a rule names each window cut toward zero to
    whole milliseconds: the product taken at line 661 stays between zero
    and the window, so it never leaves the int64 range, and for a window
    of whole milliseconds the query names the window itself. *)
Theorem alerts_query_windows (ba : BaseAlert) :
  let st := start ba in
  let cut d := (d - Z.rem d time.Millisecond)%Z in
  alertsQuery Duration_String name (Window (short st)) (Window (long st))
    = ("ALERTS{slo=" ++ quote ++ name ++ quote
        ++ ",short=" ++ quote ++ Duration_String (cut (base_Short ba)) ++ quote
        ++ ",long=" ++ quote ++ Duration_String (cut (base_Long ba)) ++ quote
        ++ "}")%string ∧
  (∀ d, Z.abs (cut d) ≤ Z.abs d ∧ Z.abs (d - cut d) < time.Millisecond)%Z ∧
  (∀ d, (d mod time.Millisecond = 0)%Z → cut d = d).
Proof.
  cbv zeta. split; [|split].
  - unfold alertsQuery, start. cbn [short long Window].
    by rewrite !Milliseconds_back.
  - intros d. change time.Millisecond with 1000000%Z.
    pose proof (Z.rem_bound_pos_pos d 1000000) as Hpos.
    pose proof (Z.rem_bound_pos_pos (- d) 1000000) as Hneg.
    rewrite Z.rem_opp_l' in Hneg.
    pose proof (Z.rem_le d 1000000) as Hle.
    pose proof (Z.rem_le (- d) 1000000) as Hge. rewrite Z.rem_opp_l' in Hge.
    revert Hpos Hneg Hle Hge. generalize (Z.rem d 1000000).
    intros r Hpos Hneg Hle Hge. lia.
  - intros d Hd. change time.Millisecond with 1000000%Z in *.
    apply Z.mod_divide in Hd; [|lia]. destruct Hd as [k ->].
    rewrite Z.rem_mul; lia.
Qed.
End WindowFacts.

(** ** Route prefixes *)

Section RouteFacts.
Import routes.
Local Open Scope string_scope.

Lemma trimRightByte_cons (c : ascii) (rest : string) :
  trimRightByte (String c rest)
    = match trimRightByte rest with
      | EmptyString => if Ascii.eqb c slash then EmptyString else String c EmptyString
      | r => String c r
      end.
Proof. reflexivity. Qed.

Lemma trimLeftByte_cons (c : ascii) (rest : string) :
  trimLeftByte (String c rest)
    = if Ascii.eqb c slash then trimLeftByte rest else String c rest.
Proof. reflexivity. Qed.

Lemma length_append_string (u v : string) :
  String.length (u ++ v) = (String.length u + String.length v)%nat.
Proof. induction u as [|c u IH]; [done|]. simpl. by rewrite IH. Qed.

Lemma trimLeftByte_idem (s : string) :
  trimLeftByte (trimLeftByte s) = trimLeftByte s.
Proof.
  induction s as [|c s IH]; [done|]. rewrite trimLeftByte_cons.
  destruct (Ascii.eqb c slash) eqn:Hc; [done|].
  by rewrite trimLeftByte_cons, Hc.
Qed.

Lemma trimRightByte_idem (s : string) :
  trimRightByte (trimRightByte s) = trimRightByte s.
Proof.
  induction s as [|c s IH]; [done|]. rewrite trimRightByte_cons.
  destruct (trimRightByte s) as [|d r] eqn:Hs.
  - destruct (Ascii.eqb c slash) eqn:Hc; [done|].
    rewrite trimRightByte_cons. cbn [trimRightByte]. by rewrite Hc.
  - by rewrite trimRightByte_cons, IH.
Qed.

Lemma trimRightByte_tail (c : ascii) (rest : string) :
  trimRightByte (String c rest) = String c rest → trimRightByte rest = rest.
Proof.
  rewrite trimRightByte_cons. destruct (trimRightByte rest) as [|d r].
  - destruct (Ascii.eqb c slash); [done|]. by intros [= <-].
  - by intros [= <-].
Qed.

Lemma trimLeftByte_keeps_end (s : string) :
  trimRightByte s = s → trimRightByte (trimLeftByte s) = trimLeftByte s.
Proof.
  induction s as [|c s IH]; [done|]. intros Hs. rewrite trimLeftByte_cons.
  destruct (Ascii.eqb c slash); [|done].
  apply IH. by apply (trimRightByte_tail c).
Qed.

Lemma Trim_trimmed (s : string) :
  trimLeftByte (Trim s) = Trim s ∧ trimRightByte (Trim s) = Trim s.
Proof.
  unfold Trim. split; [apply trimLeftByte_idem|].
  apply trimLeftByte_keeps_end, trimRightByte_idem.
Qed.

Lemma Trim_slash (t : string) :
  trimLeftByte t = t → trimRightByte t = t → Trim (String slash t) = t.
Proof.
  intros Hl Hr. unfold Trim. rewrite trimRightByte_cons, Hr.
  destruct t as [|c t]; [done|].
  rewrite trimLeftByte_cons. change (Ascii.eqb slash slash) with true.
  by cbv iota.
Qed.

Lemma length_trimLeftByte (s : string) :
  (String.length (trimLeftByte s) ≤ String.length s)%nat.
Proof.
  induction s as [|c s IH]; [done|]. rewrite trimLeftByte_cons.
  destruct (Ascii.eqb c slash); simpl; lia.
Qed.

Lemma length_trimRightByte (s : string) :
  (String.length (trimRightByte s) ≤ String.length s)%nat.
Proof.
  induction s as [|c s IH]; [done|]. rewrite trimRightByte_cons.
  destruct (trimRightByte s); [destruct (Ascii.eqb c slash)|]; simpl in *; lia.
Qed.

Lemma trimRightByte_snoc (u : string) :
  trimRightByte (u ++ "/") = trimRightByte u.
Proof.
  induction u as [|c u IH]; [done|].
  change (String c u ++ "/") with (String c (u ++ "/")).
  by rewrite !trimRightByte_cons, IH.
Qed.

Lemma no_leading_slash (t : string) :
  trimLeftByte t = t → ∀ x, t ≠ String slash x.
Proof.
  intros Ht x ->. rewrite trimLeftByte_cons in Ht.
  change (Ascii.eqb slash slash) with true in Ht. cbv iota in Ht.
  pose proof (length_trimLeftByte x) as Hlen. rewrite Ht in Hlen.
  simpl in Hlen. lia.
Qed.

Lemma no_trailing_slash (t : string) :
  trimRightByte t = t → ∀ x, t ≠ x ++ "/".
Proof.
  intros Ht x ->. rewrite trimRightByte_snoc in Ht.
  pose proof (length_trimRightByte x) as Hlen. rewrite Ht in Hlen.
  rewrite length_append_string in Hlen. simpl in Hlen. lia.
Qed.

Lemma substring_end (u : string) (c : ascii) :
  String.substring (String.length u) 1 (u ++ String c EmptyString)
    = String c EmptyString.
Proof. induction u as [|d u IH]; [done|]. exact IH. Qed.

Lemma substring_front (u v : string) :
  String.substring 0 (String.length u) (u ++ v) = u.
Proof.
  induction u as [|d u IH]; [by destruct v|]. simpl. by rewrite IH.
Qed.

Lemma snoc_cases (s : string) :
  s = EmptyString ∨ ∃ u c, s = u ++ String c EmptyString.
Proof.
  induction s as [|a s IH]; [by left|right].
  destruct IH as [->|(u & c & ->)].
  - by exists EmptyString, a.
  - by exists (String a u), c.
Qed.

Lemma HasSuffix_slash (s : string) :
  thanos.HasSuffix s "/" = true ↔ ∃ u, s = u ++ "/".
Proof.
  unfold thanos.HasSuffix. split.
  - destruct (snoc_cases s) as [->|(u & c & ->)]; [done|].
    rewrite length_append_string. cbn [String.length].
    replace (String.length u + 1 - 1)%nat with (String.length u) by lia.
    rewrite substring_end. intros [_ Hc]%andb_true_iff.
    apply String.eqb_eq in Hc. injection Hc as ->. by exists u.
  - intros [u ->]. rewrite length_append_string. cbn [String.length].
    replace (String.length u + 1 - 1)%nat with (String.length u) by lia.
    rewrite substring_end. apply andb_true_iff. split; [|done].
    apply Nat.leb_le. lia.
Qed.

Lemma TrimSuffix_snoc (u : string) : TrimSuffix (u ++ "/") "/" = u.
Proof.
  unfold TrimSuffix. rewrite (proj2 (HasSuffix_slash (u ++ "/"))) by by exists u.
  rewrite length_append_string. cbn [String.length].
  replace (String.length u + 1 - 1)%nat with (String.length u) by lia.
  apply substring_front.
Qed.

Lemma TrimSuffix_none (t : string) :
  (∀ x, t ≠ x ++ "/") → TrimSuffix t "/" = t.
Proof.
  intros Ht. unfold TrimSuffix.
  destruct (thanos.HasSuffix t "/") eqn:E; [|done].
  apply HasSuffix_slash in E as [u ->]. by destruct (Ht u).
Qed.

Lemma prefix_no_trailing_slash (t : string) :
  trimRightByte t = t → String slash t ≠ "/" → ∀ x, String slash t ≠ x ++ "/".
Proof.
  intros Ht Hne [|a x] Hx; [done|].
  injection Hx as _ Hx. by apply (no_trailing_slash t Ht x).
Qed.

Lemma append_assoc_string (u v w : string) : (u ++ v) ++ w = u ++ v ++ w.
Proof.
  induction u as [|c u IH]; [done|].
  change (String c ((u ++ v) ++ w) = String c (u ++ v ++ w)). by f_equal.
Qed.

Lemma trimRightByte_split (s : string) :
  ∃ k, s = trimRightByte s ++ slashes k.
Proof.
  induction s as [|c s [k IH]]; [by exists 0%nat|]. rewrite trimRightByte_cons.
  destruct (trimRightByte s) as [|d r].
  - destruct (Ascii.eqb_spec c slash) as [->|_].
    + exists (S k). simpl in *. by rewrite IH at 1.
    + exists k. simpl in *. by rewrite IH at 1.
  - exists k. simpl in *. by rewrite IH at 1.
Qed.

Lemma trimLeftByte_split (s : string) :
  ∃ n, s = slashes n ++ trimLeftByte s.
Proof.
  induction s as [|c s [n IH]]; [by exists 0%nat|]. rewrite trimLeftByte_cons.
  destruct (Ascii.eqb_spec c slash) as [->|_].
  - exists (S n). simpl. by rewrite IH at 1.
  - by exists 0%nat.
Qed.

Lemma Trim_split (s : string) :
  ∃ n k, s = slashes n ++ Trim s ++ slashes k.
Proof.
  destruct (trimRightByte_split s) as [k Hk].
  destruct (trimLeftByte_split (trimRightByte s)) as [n Hn].
  exists n, k. unfold Trim. rewrite <- append_assoc_string, <- Hn. exact Hk.
Qed.

(** The route prefix is a slash followed by the flag's value without the
    slashes at its two ends: the flag is some slashes, then a string
    that neither starts nor ends with a slash, then some slashes, and
    the prefix is one slash followed by that string.  Normalising the
    prefix again changes nothing; the UI prefix is the route prefix when
    its flag is empty and the flag's own normal form otherwise. *)
Theorem route_prefix_normal (routePrefix uiRoutePrefix : string) :
  let r := (prefixes routePrefix uiRoutePrefix).1 in
  (∃ n k t,
     routePrefix = slashes n ++ t ++ slashes k ∧
     r = String slash t ∧
     (∀ x, t ≠ String slash x) ∧ (∀ x, t ≠ x ++ "/")) ∧
  (prefixes r uiRoutePrefix).1 = r ∧
  (uiRoutePrefix = EmptyString → (prefixes routePrefix uiRoutePrefix).2 = r) ∧
  (uiRoutePrefix ≠ EmptyString →
     (prefixes routePrefix uiRoutePrefix).2 = (prefixes uiRoutePrefix uiRoutePrefix).1).
Proof.
  cbv zeta. unfold prefixes. cbn [fst snd].
  destruct (Trim_trimmed routePrefix) as [Hl Hr].
  split; [|split; [|split]].
  - destruct (Trim_split routePrefix) as (n & k & Hsplit).
    exists n, k, (Trim routePrefix). split; [exact Hsplit|]. split; [done|].
    split; [by apply no_leading_slash|by apply no_trailing_slash].
  - change ("/" ++ Trim ("/" ++ Trim routePrefix))
      with (String slash (Trim (String slash (Trim routePrefix)))).
    by rewrite Trim_slash.
  - by intros ->.
  - intros Hui. by apply String.eqb_neq in Hui as ->.
Qed.

(** Under a normalised prefix the catch-all handler answers the prefix
    itself and the prefix followed by a slash with the index page, and
    the redirect handler is registered for every prefix but the root,
    under the prefix itself. *)
Theorem route_prefix_serving (routePrefix uiRoutePrefix : string) :
  let r := (prefixes routePrefix uiRoutePrefix).1 in
  servesIndex r r = true ∧
  servesIndex r (r ++ "/") = true ∧
  (r = "/" → redirectPattern r = None) ∧
  (r ≠ "/" → redirectPattern r = Some r).
Proof.
  cbv zeta. unfold prefixes. cbn [fst snd].
  change ("/" ++ Trim routePrefix) with (String slash (Trim routePrefix)).
  destruct (Trim_trimmed routePrefix) as [_ Hr].
  set (r := String slash (Trim routePrefix)).
  assert (r ≠ "/" → TrimSuffix r "/" = r) as Hkeep.
  { intros Hne. apply TrimSuffix_none. by apply prefix_no_trailing_slash. }
  unfold servesIndex, redirectPattern. split; [|split; [|split]].
  - destruct (String.eqb_spec r "/") as [|Hne]; [done|].
    rewrite Hkeep by done. by rewrite String.eqb_refl.
  - rewrite TrimSuffix_snoc, String.eqb_refl. apply orb_true_r.
  - intros ->. done.
  - intros Hne. rewrite Hkeep by done.
    by apply String.eqb_neq in Hne as ->.
Qed.
End RouteFacts.

Lemma route_prefix_normal_witness :
  (routes.prefixes "//pyrra/" EmptyString).1 = "/pyrra"%string ∧
  (routes.prefixes "//pyrra/" EmptyString).2 = "/pyrra"%string.
Proof.
  destruct (route_prefix_normal "//pyrra/" EmptyString) as (_ & _ & Hui & _).
  split; [reflexivity|]. rewrite Hui; reflexivity.
Defined.

Lemma route_prefix_serving_witness :
  routes.redirectPattern "/pyrra" = Some "/pyrra"%string.
Proof.
  destruct (route_prefix_serving "pyrra" EmptyString) as (_ & _ & _ & Hred).
  apply Hred. discriminate.
Defined.

Lemma errorBudget_answer_witness :
  rangeanswer.errorBudgetAnswer map_to_list "q"
    (cache.mkResponse (Some (model.ValMatrix [seriesA; seriesB])) [] None)
  = (mkImplResponse StatusOK
       (Some (rangeanswer.Table
                (rangeanswer.mkQueryRange "q" []
                   (matrix.matrixToValues map_to_list [seriesA; seriesB])))), None).
Proof.
  by apply (errorBudget_answer map_to_list "q"
              (cache.mkResponse (Some (model.ValMatrix [seriesA; seriesB])) [] None)).
Defined.

Lemma alerts_query_windows_witness :
  (time.Hour - Z.rem time.Hour time.Millisecond = time.Hour)%Z.
Proof.
  destruct (alerts_query_windows (λ _, EmptyString) "slo" pageRule) as (_ & _ & Hwhole).
  apply (Hwhole time.Hour). reflexivity.
Defined.

(** ** The key of a cached range query *)

Section CacheKey.
Import cache cache_store.
Variable xxh : string → Z.
Variable Time_String : time.Time → string.

(** The key of a range query is made of the query and the two bounds
    only: once the write of an admitted result has reached the cache, a
    range query with the same bounds and any other step is answered with
    that result, and the backend is not asked. *)
Theorem cache_key_ignores_step (store : gmap Z any) (api api' : Response)
    (q : string) (r r' : Range) (out : Response) (evs : list event) :
  QueryRange xxh Time_String store api q r = Done (out, evs) →
  (∃ key v cost ttl, SetWithTTL key v cost ttl ∈ evs) →
  Start r' = Start r → End_ r' = End_ r →
  QueryRange xxh Time_String (foldr accept store evs) api' q r'
    = Done (mkResponse (value api) [] None, []).
Proof.
  intros Hq (key & v & cost & ttl & Hin) Hs He.
  destruct (QueryRange_sets xxh Time_String _ _ _ _ _ _ _ _ _ _ Hq Hin)
    as ((m & -> & Hne) & Hv & Hw & Herr & -> & ->).
  unfold QueryRange in Hq.
  destruct (store !! _) as [[w|]|] eqn:Hst.
  { injection Hq as <- <-. by apply elem_of_nil in Hin. }
  { discriminate. }
  rewrite Herr, Hv in Hq. apply nonempty_length in Hne. rewrite Hne, Hw in Hq.
  injection Hq as <- <-. simpl. unfold QueryRange.
  by rewrite Hs, He, lookup_insert_eq, Hv.
Qed.
End CacheKey.

Lemma cache_key_ignores_step_witness :
  cache.QueryRange collidingHash (λ _, EmptyString)
    (foldr cache_store.accept ∅
       [cache.BackendCall "up";
        cache.SetWithTTL 7 (Some (model.ValMatrix [seriesA])) 100 (10 * time.Minute)])
    (cache.mkResponse None [] (Some "down"%string)) "up" (mkRange 0%Z 60%Z 30%Z)
  = Done (cache.mkResponse (Some (model.ValMatrix [seriesA])) [] None, []).
Proof.
  apply (cache_key_ignores_step collidingHash (λ _, EmptyString) ∅
           (cache.mkResponse (Some (model.ValMatrix [seriesA])) [] None)
           (cache.mkResponse None [] (Some "down"%string)) "up"
           (mkRange 0%Z 60%Z 15%Z) (mkRange 0%Z 60%Z 30%Z)
           (cache.mkResponse (Some (model.ValMatrix [seriesA])) [] None)).
  - reflexivity.
  - exists 7%Z, (Some (model.ValMatrix [seriesA])), 100%Z, (10 * time.Minute)%Z.
    apply elem_of_cons. right. apply elem_of_cons. by left.
  - reflexivity.
  - reflexivity.
Defined.
